(** * Koi: the water-surface wave engine ([Waves]) and the koi card ([Card])

    A shallow embedding of [Waves] (the two GLSL programs and the
    [propagate] / [render] drivers) and of [Card] (its life cycle, its
    placement and its elements), with the properties of the specification
    and further properties of the code proved about them.

    Numbers.  GLSL [mediump float] values and JavaScript numbers are
    embedded as real numbers: the arithmetic of the shaders is the exact
    one, without rounding.  The canvas is a normalised buffer: a colour
    written to it is clamped to [[0, 1]].  The format of the height-field
    buffers is chosen where they are created, which is outside the sources
    at hand: a texture stores the colour a fragment writes as it is.

    Textures.  The wrap modes of a texture are set where the texture is
    created, which for the height-field buffers is outside the sources at
    hand: they are fields of the texture, and the properties below hold for
    each of the three modes of WebGL. *)

From Stdlib Require Import Reals Lra Lia ZArith List Bool.
From stdpp Require Import base option strings gmap pretty.

Local Open Scope Z_scope.
Local Open Scope R_scope.

(** ** GLSL values and built-in functions *)

Module GLSL.

Record vec2 := Vec2 { vec2_x : R; vec2_y : R }.
Record vec3 := Vec3 { vec3_x : R; vec3_y : R; vec3_z : R }.
Record vec4 := Vec4 { vec4_r : R; vec4_g : R; vec4_b : R; vec4_a : R }.

(** [vec4(s)]: the scalar in every component. *)
Definition vec4_all (s : R) : vec4 := Vec4 s s s s.

(** The swizzles the shaders use. *)
Definition vec3_xz (v : vec3) : vec2 := Vec2 (vec3_x v) (vec3_z v).
Definition vec4_rgb (v : vec4) : vec3 := Vec3 (vec4_r v) (vec4_g v) (vec4_b v).

(** Component-wise arithmetic. *)
Definition add2 (u v : vec2) : vec2 := Vec2 (vec2_x u + vec2_x v) (vec2_y u + vec2_y v).
Definition sub2 (u v : vec2) : vec2 := Vec2 (vec2_x u - vec2_x v) (vec2_y u - vec2_y v).
Definition mul2 (u v : vec2) : vec2 := Vec2 (vec2_x u * vec2_x v) (vec2_y u * vec2_y v).
Definition div2 (u v : vec2) : vec2 := Vec2 (vec2_x u / vec2_x v) (vec2_y u / vec2_y v).
Definition scale2 (s : R) (v : vec2) : vec2 := Vec2 (s * vec2_x v) (s * vec2_y v).
Definition mul4 (u v : vec4) : vec4 :=
  Vec4 (vec4_r u * vec4_r v) (vec4_g u * vec4_g v) (vec4_b u * vec4_b v) (vec4_a u * vec4_a v).

(** [mix(x, y, a) = x * (1 - a) + y * a], on scalars and on [vec4]. *)
Definition mix (x y a : R) : R := x * (1 - a) + y * a.
Definition mix4 (u v : vec4) (a : R) : vec4 :=
  Vec4 (mix (vec4_r u) (vec4_r v) a) (mix (vec4_g u) (vec4_g v) a)
       (mix (vec4_b u) (vec4_b v) a) (mix (vec4_a u) (vec4_a v) a).

Definition dot (u v : vec3) : R :=
  vec3_x u * vec3_x v + vec3_y u * vec3_y v + vec3_z u * vec3_z v.

Definition cross (u v : vec3) : vec3 :=
  Vec3 (vec3_y u * vec3_z v - vec3_y v * vec3_z u)
       (vec3_z u * vec3_x v - vec3_z v * vec3_x u)
       (vec3_x u * vec3_y v - vec3_x v * vec3_y u).

Definition length (v : vec3) : R := sqrt (dot v v).

Definition normalize (v : vec3) : vec3 :=
  Vec3 (vec3_x v / length v) (vec3_y v / length v) (vec3_z v / length v).

(** A sampler is what [texture2D] reads through: the bound texture with its
    filter and wrap modes, as a function of the texture coordinate. *)
Definition sampler2D : Type := vec2 -> vec4.
Definition texture2D (s : sampler2D) (uv : vec2) : vec4 := s uv.

End GLSL.

Import GLSL.

(** ** Textures and their sampling *)

Module Texture.

Inductive filter := NEAREST | LINEAR.
Inductive wrap := CLAMP_TO_EDGE | REPEAT | MIRRORED_REPEAT.

(** A texture image: [pixels x y] is the texel of column [x] and row [y],
    read for [0 <= x < width] and [0 <= y < height]. *)
Record t := Make {
  width : Z;
  height : Z;
  pixels : Z -> Z -> vec4;
  min_filter : filter;
  mag_filter : filter;
  wrap_s : wrap;
  wrap_t : wrap
}.

(** The texel index a wrap mode sends index [i] of an axis of [n] texels to
    (wrapping the index of the cell is, for the cell a coordinate falls in,
    what wrapping the coordinate is). *)
Definition wrap_index (m : wrap) (n i : Z) : Z :=
  match m with
  | CLAMP_TO_EDGE => Z.max 0 (Z.min (n - 1) i)
  | REPEAT => i mod n
  | MIRRORED_REPEAT =>
      let p := i mod (2 * n) in if (p <? n)%Z then p else (2 * n - 1 - p)%Z
  end.

(** The integer part [floor]. *)
Definition floor (x : R) : Z := Int_part x.

Definition texel (T : t) (i j : Z) : vec4 :=
  pixels T (wrap_index (wrap_s T) (width T) i) (wrap_index (wrap_t T) (height T) j).

(** Nearest-neighbour sampling: the texel whose cell holds the coordinate. *)
Definition nearest (T : t) : sampler2D := fun uv =>
  texel T (floor (vec2_x uv * IZR (width T))) (floor (vec2_y uv * IZR (height T))).

(** Bilinear sampling: the four texels around the coordinate, blended by the
    fractional position between their centres. *)
Definition linear (T : t) : sampler2D := fun uv =>
  let u := vec2_x uv * IZR (width T) - 0.5 in
  let v := vec2_y uv * IZR (height T) - 0.5 in
  let i0 := floor u in
  let j0 := floor v in
  let al := u - IZR i0 in
  let be := v - IZR j0 in
  mix4 (mix4 (texel T i0 j0) (texel T (i0 + 1) j0) al)
       (mix4 (texel T i0 (j0 + 1)) (texel T (i0 + 1) (j0 + 1)) al) be.

(** The sampler of a texture under its current filter parameters.  [Waves]
    always sets the two filters together. *)
Definition sampler (T : t) : sampler2D :=
  match min_filter T, mag_filter T with
  | NEAREST, NEAREST => nearest T
  | _, _ => linear T
  end.

Definition set_min_filter (f : filter) (T : t) : t :=
  Make (width T) (height T) (pixels T) f (mag_filter T) (wrap_s T) (wrap_t T).

Definition set_mag_filter (f : filter) (T : t) : t :=
  Make (width T) (height T) (pixels T) (min_filter T) f (wrap_s T) (wrap_t T).

Definition set_pixels (p : Z -> Z -> vec4) (T : t) : t :=
  Make (width T) (height T) p (min_filter T) (mag_filter T) (wrap_s T) (wrap_t T).

End Texture.

(** The window coordinate of the fragment of pixel [(x, y)]: its centre. *)
Definition frag_coord (x y : Z) : vec2 := Vec2 (IZR x + 0.5) (IZR y + 0.5).

(** ** The WebGL context

    The part of the WebGL 1.0 state machine that [Waves] drives: the program
    in use with its uniforms, the bound framebuffer, the texture units, the
    textures with their images and filters, and the canvas. *)

Module WebGL.

(** Handles of [WebGLTexture], [WebGLBuffer] and [WebGLProgram] objects. *)
Definition texture_id : Type := positive.
Definition buffer_id : Type := positive.
Definition program_id : Type := positive.

(** A uniform location: the program it belongs to and the uniform's name. *)
Definition location : Type := program_id * string.

Inductive value := Float (v : R) | Float2 (x y : R) | Int (i : Z).

(** What a program reads while it runs: its uniforms by name, and the
    sampler of each texture unit. *)
Record env := Env {
  uniform : string -> option value;
  unit_sampler : Z -> sampler2D
}.

(** A uniform that was never set reads as zero. *)
Definition float (e : env) (name : string) : R :=
  match uniform e name with Some (Float v) => v | _ => 0 end.
Definition float2 (e : env) (name : string) : vec2 :=
  match uniform e name with Some (Float2 x y) => Vec2 x y | _ => Vec2 0 0 end.
Definition int (e : env) (name : string) : Z :=
  match uniform e name with Some (Int i) => i | _ => 0%Z end.
Definition sampler (e : env) (name : string) : sampler2D :=
  unit_sampler e (int e name).

(** A linked program: its two shaders as functions of the environment, and
    the names of its [sampler2D] uniforms. *)
Record program := Program {
  program_name : program_id;
  vertex_shader : env -> vec2 -> vec4;
  fragment_shader : env -> vec2 -> vec4;
  sampler_uniforms : list string
}.

Inductive buffer_target := ARRAY_BUFFER | ELEMENT_ARRAY_BUFFER.
Inductive texture_parameter := TEXTURE_MIN_FILTER | TEXTURE_MAG_FILTER.

(** The calls [Waves] makes on the context.  [bindFramebuffer None] binds
    the default framebuffer (the canvas); [bindFramebuffer (Some t)] stands
    for binding the framebuffer whose colour attachment is the texture [t]. *)
Inductive call :=
| useProgram (p : program)
| bindFramebuffer (t : option texture_id)
| clearColor (r g b a : R)
| clear
| uniform1f (l : location) (v : R)
| uniform2f (l : location) (x y : R)
| uniform1i (l : location) (i : Z)
| bindBuffer (target : buffer_target) (b : buffer_id)
| enableVertexAttribArray (attribute : string)
| vertexAttribPointer (attribute : string) (size stride offset : Z)
| activeTexture (unit : Z)
| bindTexture (t : texture_id)
| texParameteri (pname : texture_parameter) (f : Texture.filter)
| drawElements (count : Z).

Record state := State {
  current_program : option program;
  framebuffer : option texture_id;
  clear_color : vec4;
  active_texture : Z;
  texture_binding : gmap Z texture_id;
  textures : gmap texture_id Texture.t;
  canvas : Z -> Z -> vec4;
  uniforms : gmap location value;
  array_buffer : option buffer_id;
  element_array_buffer : option buffer_id
}.

Definition set_current_program (p : option program) (s : state) : state :=
  State p (framebuffer s) (clear_color s) (active_texture s) (texture_binding s)
        (textures s) (canvas s) (uniforms s) (array_buffer s) (element_array_buffer s).
Definition set_framebuffer (t : option texture_id) (s : state) : state :=
  State (current_program s) t (clear_color s) (active_texture s) (texture_binding s)
        (textures s) (canvas s) (uniforms s) (array_buffer s) (element_array_buffer s).
Definition set_clear_color (c : vec4) (s : state) : state :=
  State (current_program s) (framebuffer s) c (active_texture s) (texture_binding s)
        (textures s) (canvas s) (uniforms s) (array_buffer s) (element_array_buffer s).
Definition set_active_texture (u : Z) (s : state) : state :=
  State (current_program s) (framebuffer s) (clear_color s) u (texture_binding s)
        (textures s) (canvas s) (uniforms s) (array_buffer s) (element_array_buffer s).
Definition set_texture_binding (b : gmap Z texture_id) (s : state) : state :=
  State (current_program s) (framebuffer s) (clear_color s) (active_texture s) b
        (textures s) (canvas s) (uniforms s) (array_buffer s) (element_array_buffer s).
Definition set_textures (m : gmap texture_id Texture.t) (s : state) : state :=
  State (current_program s) (framebuffer s) (clear_color s) (active_texture s)
        (texture_binding s) m (canvas s) (uniforms s) (array_buffer s)
        (element_array_buffer s).
Definition set_canvas (c : Z -> Z -> vec4) (s : state) : state :=
  State (current_program s) (framebuffer s) (clear_color s) (active_texture s)
        (texture_binding s) (textures s) c (uniforms s) (array_buffer s)
        (element_array_buffer s).
Definition set_uniforms (u : gmap location value) (s : state) : state :=
  State (current_program s) (framebuffer s) (clear_color s) (active_texture s)
        (texture_binding s) (textures s) (canvas s) u (array_buffer s)
        (element_array_buffer s).
Definition set_buffer (target : buffer_target) (b : buffer_id) (s : state) : state :=
  match target with
  | ARRAY_BUFFER =>
      State (current_program s) (framebuffer s) (clear_color s) (active_texture s)
            (texture_binding s) (textures s) (canvas s) (uniforms s) (Some b)
            (element_array_buffer s)
  | ELEMENT_ARRAY_BUFFER =>
      State (current_program s) (framebuffer s) (clear_color s) (active_texture s)
            (texture_binding s) (textures s) (canvas s) (uniforms s) (array_buffer s)
            (Some b)
  end.

(** A uniform is set through a location of the program in use; a location
    of another program is an [INVALID_OPERATION] and sets nothing. *)
Definition set_uniform (l : location) (v : value) (s : state) : state :=
  match current_program s with
  | Some p =>
      if Pos.eqb (program_name p) (fst l) then set_uniforms (<[l := v]> (uniforms s)) s
      else s
  | None => s
  end.

(** The texture bound to a unit, and what sampling the unit returns: the
    bound texture under its filters, opaque black when none is bound. *)
Definition bound_texture (s : state) (unit : Z) : option texture_id :=
  texture_binding s !! unit.

Definition sampler_of_unit (s : state) (unit : Z) : sampler2D :=
  match bound_texture s unit with
  | Some t =>
      match textures s !! t with
      | Some T => Texture.sampler T
      | None => fun _ => Vec4 0 0 0 1
      end
  | None => fun _ => Vec4 0 0 0 1
  end.

Definition env_of (s : state) (p : program) : env :=
  Env (fun name => uniforms s !! (program_name p, name)) (sampler_of_unit s).

(** The textures the program in use samples: those bound to the units its
    sampler uniforms name. *)
Definition sampled_textures (s : state) (p : program) : list texture_id :=
  omap (fun name => bound_texture s (int (env_of s p) name)) (sampler_uniforms p).

(** A draw whose target texture is also one the program samples is a
    feedback loop: WebGL raises [INVALID_OPERATION] and draws nothing
    (WebGL 1.0, section 6.26). *)
Definition feedback_loop (s : state) (p : program) (target : texture_id) : bool :=
  existsb (Pos.eqb target) (sampled_textures s p).

Section Exec.

(** Rasterisation is a parameter: [covered vs array elements count x y]
    tells whether the triangles of the bound buffers, their vertices placed by
    the vertex shader [vs], cover the pixel [(x, y)] of the target. *)
Variable covered :
  (vec2 -> vec4) -> option buffer_id -> option buffer_id -> Z -> Z -> Z -> bool.

(** The image a draw leaves: the fragment colour on the covered pixels, the
    old image elsewhere. *)
Definition shade (s : state) (p : program) (count : Z) (old : Z -> Z -> vec4)
    : Z -> Z -> vec4 := fun x y =>
  if covered (vertex_shader p (env_of s p)) (array_buffer s) (element_array_buffer s) count x y
  then fragment_shader p (env_of s p) (frag_coord x y)
  else old x y.

(** The canvas is a normalised buffer: each component of a colour written
    to it is clamped to [[0, 1]]. *)
Definition unorm (v : R) : R := Rmax 0 (Rmin v 1).

Definition unorm4 (c : vec4) : vec4 :=
  Vec4 (unorm (vec4_r c)) (unorm (vec4_g c)) (unorm (vec4_b c)) (unorm (vec4_a c)).

(** The image a draw leaves on the canvas: the clamped fragment colour on
    the covered pixels, the old image elsewhere. *)
Definition shade_canvas (s : state) (p : program) (count : Z) (old : Z -> Z -> vec4)
    : Z -> Z -> vec4 := fun x y =>
  if covered (vertex_shader p (env_of s p)) (array_buffer s) (element_array_buffer s) count x y
  then unorm4 (fragment_shader p (env_of s p) (frag_coord x y))
  else old x y.

Definition draw (count : Z) (s : state) : state :=
  match current_program s with
  | None => s
  | Some p =>
      match framebuffer s with
      | None => set_canvas (shade_canvas s p count (canvas s)) s
      | Some t =>
          if feedback_loop s p t then s
          else
            set_textures
              (alter (fun T => Texture.set_pixels (shade s p count (Texture.pixels T)) T)
                     t (textures s))
              s
      end
  end.

Definition exec (c : call) (s : state) : state :=
  match c with
  | useProgram p => set_current_program (Some p) s
  | bindFramebuffer t => set_framebuffer t s
  | clearColor r g b a => set_clear_color (Vec4 r g b a) s
  | clear =>
      match framebuffer s with
      | None => set_canvas (fun _ _ => clear_color s) s
      | Some t =>
          set_textures
            (alter (Texture.set_pixels (fun _ _ => clear_color s)) t (textures s)) s
      end
  | uniform1f l v => set_uniform l (Float v) s
  | uniform2f l x y => set_uniform l (Float2 x y) s
  | uniform1i l i => set_uniform l (Int i) s
  | bindBuffer target b => set_buffer target b s
  | enableVertexAttribArray _ => s
  | vertexAttribPointer _ _ _ _ => s
  | activeTexture unit => set_active_texture unit s
  | bindTexture t => set_texture_binding (<[active_texture s := t]> (texture_binding s)) s
  | texParameteri pname f =>
      match bound_texture s (active_texture s) with
      | None => s
      | Some t =>
          set_textures
            (alter (match pname with
                    | TEXTURE_MIN_FILTER => Texture.set_min_filter f
                    | TEXTURE_MAG_FILTER => Texture.set_mag_filter f
                    end) t (textures s)) s
      end
  | drawElements count => draw count s
  end.

End Exec.

(** Only [clear], [texParameteri] and [drawElements] touch a texture. *)
Definition leaves_textures (c : call) : Prop :=
  match c with
  | clear | texParameteri _ _ | drawElements _ => False
  | _ => True
  end.

End WebGL.

(** ** The objects [Waves] is handed

    [RenderTarget], [WaterPlane], [Mesh], [Shader] and [WavePainter] are
    classes of the repository whose files are not part of the sources at
    hand; what [Waves] uses of them is modelled here. *)

(** Modelled from the spec: [Shader] is missing.  "An immutable compiled GPU
    program plus a fixed set of named uniform and attribute locations
    resolved once at construction": the uniform [name] is resolved to the
    location the field [uName] holds, and [use()] makes the program
    current. *)
Module Shader.

Record t := Make { program : WebGL.program }.

Definition location (s : t) (name : string) : WebGL.location :=
  (WebGL.program_name (program s), name).

Definition use (s : t) : WebGL.call := WebGL.useProgram (program s).

End Shader.

(** Modelled from the spec: [RenderTarget] is missing.  A height-field
    buffer is "a GPU-resident 2D texture"; [target()] makes it the render
    target, [texture] is what a sampler reads it through. *)
Module RenderTarget.

Record t := Make { texture : WebGL.texture_id }.

Definition target (r : t) : WebGL.call := WebGL.bindFramebuffer (Some (texture r)).

End RenderTarget.

(** Modelled from the spec: [WaterPlane] is missing.  It "owns the
    HeightField buffer pair and width/height/scale metadata; exposes
    front()/back() accessors and a flip() operation that swaps which buffer
    is considered front/back": two buffer slots and an index selecting the
    current front. *)
Module WaterPlane.

Record t := Make {
  width : Z;
  height : Z;
  SCALE : R;
  first : RenderTarget.t;
  second : RenderTarget.t;
  front : bool
}.

Definition getFront (w : t) : RenderTarget.t := if front w then second w else first w.
Definition getBack (w : t) : RenderTarget.t := if front w then first w else second w.

Definition flip (w : t) : t :=
  Make (width w) (height w) (SCALE w) (first w) (second w) (negb (front w)).

(** The two slots hold two different buffers. *)
Definition distinct (w : t) : Prop :=
  RenderTarget.texture (first w) <> RenderTarget.texture (second w).

(** The buffer in the front role is not the buffer in the back role. *)
Definition roles_apart (w : t) : Prop :=
  RenderTarget.texture (getFront w) <> RenderTarget.texture (getBack w).

End WaterPlane.

(** Modelled from the spec: [Mesh] is missing.  "A static vertex/index
    buffer describing a rectangle (or grid of rectangles) covering the
    simulated area." *)
Module Mesh.

Record t := Make {
  vertices : WebGL.buffer_id;
  indices : WebGL.buffer_id;
  indexCount : Z
}.

End Mesh.

(** ** The state a driver call runs in *)

(** What a call of [Waves] observably does, in order: the calls it makes on
    the context, on the water plane and on the wave painter. *)
Inductive event :=
| GL (c : WebGL.call)
| Flip
| ApplyInfluences.

Record World := MkWorld {
  gl : WebGL.state;
  water : WaterPlane.t;
  trace : list event
}.

(** A statement of a driver. *)
Definition stmt : Type := World -> World.

Definition run (script : list stmt) (W : World) : World :=
  fold_left (fun W s => s W) script W.

(** Every state the world passes through while a script runs, the first and
    the last included. *)
Fixpoint states (script : list stmt) (W : World) : list World :=
  match script with
  | [] => [W]
  | s :: rest => W :: states rest (s W)
  end.

(** A statement either leaves the water plane alone or flips it. *)
Definition keeps_or_flips (s : stmt) : Prop :=
  forall W, water (s W) = water W \/ water (s W) = WaterPlane.flip (water W).
(** ** [Waves]: constants and shader programs *)

Module Waves.

Definition DAMPING : R := 0.995.
Definition DEPTH : R := 0.1.

(** [SHADER_DISTORT_VERTEX] and [SHADER_PROPAGATE_VERTEX] (the same text):
    [gl_Position = vec4(vec2(2.0, -2.0) * position / size * scale + vec2(-1.0, 1.0), 0.0, 1.0)]. *)
Definition SHADER_DISTORT_VERTEX (scale : R) (size : vec2) (position : vec2) : vec4 :=
  let p := add2 (scale2 scale (div2 (mul2 (Vec2 2 (-2)) position) size)) (Vec2 (-1) 1) in
  Vec4 (vec2_x p) (vec2_y p) 0 1.

Definition SHADER_PROPAGATE_VERTEX (size : vec2) (scale : R) (position : vec2) : vec4 :=
  let p := add2 (scale2 scale (div2 (mul2 (Vec2 2 (-2)) position) size)) (Vec2 (-1) 1) in
  Vec4 (vec2_x p) (vec2_y p) 0 1.

(** [SHADER_DISTORT_FRAGMENT], one definition per local of [main]. *)
Module Distort.
Section Fragment.
Variables background waterBack waterFront : sampler2D.
Variable depth : R.
Variables size waterSize : vec2.
Variable time : R.
Variable gl_FragCoord : vec2.

Definition get (delta : vec2) : R :=
  let uv := add2 (div2 gl_FragCoord size) (div2 delta waterSize) in
  mix (vec4_r (texture2D waterBack uv)) (vec4_r (texture2D waterFront uv)) time * 6 - 3.

Definition dyx : R := get (Vec2 1 0) - get (Vec2 (-1) 0).
Definition dyz : R := get (Vec2 0 1) - get (Vec2 0 (-1)).

Definition normal : vec3 :=
  cross (normalize (Vec3 2 dyx 0)) (normalize (Vec3 0 dyz 2)).

Definition displacement : vec2 := div2 (scale2 depth (vec3_xz normal)) size.

(** [shiny] as line 58 computes it, before the adjustment. *)
Definition shiny_dot : R := dot (normalize (Vec3 1 0 1)) normal.

(** [shiny] after the [if (shiny < 0.0) ... else { if (shiny > 0.5) ... }]. *)
Definition shiny : R :=
  if Rlt_dec shiny_dot 0 then shiny_dot * 0.5
  else if Rgt_dec shiny_dot 0.5 then shiny_dot * 1.5
  else shiny_dot.

Definition filter : vec4 := mul4 (Vec4 0.93 0.98 1 1) (Vec4 0.92 0.97 1 1).
Definition sky : vec4 := Vec4 0.88 0.96 1 1.

(** [pixel] as line 70 samples it. *)
Definition pixel_sample : vec4 :=
  texture2D background (sub2 (div2 gl_FragCoord size) displacement).

(** [pixel] after the [if (pixel.a == 0.0) pixel = vec4(1.0)]. *)
Definition pixel : vec4 :=
  if Req_dec_T (vec4_a pixel_sample) 0 then vec4_all 1 else pixel_sample.

Definition gl_FragColor : vec4 := mix4 (mul4 filter pixel) sky shiny.

End Fragment.
End Distort.

Definition SHADER_DISTORT_FRAGMENT := Distort.gl_FragColor.

(** [SHADER_PROPAGATE_FRAGMENT]. *)
Module Propagate.
Section Fragment.
Variable source : sampler2D.
Variable size : vec2.
Variable damping : R.
Variable gl_FragCoord : vec2.

Definition uv : vec2 := div2 gl_FragCoord size.
Definition step : vec2 := Vec2 (1 / vec2_x size) (1 / vec2_y size).
Definition state : vec3 := vec4_rgb (texture2D source uv).
Definition hLeft : R := vec4_r (texture2D source (Vec2 (vec2_x uv - vec2_x step) (vec2_y uv))).
Definition hRight : R := vec4_r (texture2D source (Vec2 (vec2_x uv + vec2_x step) (vec2_y uv))).
Definition hUp : R := vec4_r (texture2D source (Vec2 (vec2_x uv) (vec2_y uv - vec2_y step))).
Definition hDown : R := vec4_r (texture2D source (Vec2 (vec2_x uv) (vec2_y uv + vec2_y step))).
Definition momentum : R := (vec3_y state + vec3_z state) * 2 - 1.
Definition newHeight : R := (hLeft + hUp + hRight + hDown) - 2.

Definition gl_FragColor : vec4 :=
  Vec4 (((newHeight - momentum) * damping) * 0.5 + 0.5) (vec3_x state) 0 0.

End Fragment.
End Propagate.

Definition SHADER_PROPAGATE_FRAGMENT := Propagate.gl_FragColor.

(** The two programs as the constructor builds them: each shader pair is
    linked to the uniforms its text declares; [source], which no call ever
    sets, keeps its initial unit 0. *)
Definition distort_program (name : WebGL.program_id) : WebGL.program :=
  WebGL.Program name
    (fun e position =>
       SHADER_DISTORT_VERTEX (WebGL.float e "scale") (WebGL.float2 e "size") position)
    (fun e gl_FragCoord =>
       SHADER_DISTORT_FRAGMENT
         (WebGL.sampler e "background") (WebGL.sampler e "waterBack")
         (WebGL.sampler e "waterFront") (WebGL.float e "depth") (WebGL.float2 e "size")
         (WebGL.float2 e "waterSize") (WebGL.float e "time") gl_FragCoord)
    ["background"; "waterBack"; "waterFront"].

Definition propagate_program (name : WebGL.program_id) : WebGL.program :=
  WebGL.Program name
    (fun e position =>
       SHADER_PROPAGATE_VERTEX (WebGL.float2 e "size") (WebGL.float e "scale") position)
    (fun e gl_FragCoord =>
       SHADER_PROPAGATE_FRAGMENT
         (WebGL.sampler e "source") (WebGL.float2 e "size") (WebGL.float e "damping")
         gl_FragCoord)
    ["source"].

Record t := Make {
  programDistort : Shader.t;
  programPropagate : Shader.t
}.

(** [new Waves(gl)], the context having handed out the two program names. *)
Definition create (distort propagate : WebGL.program_id) : t :=
  Make (Shader.Make (distort_program distort)) (Shader.Make (propagate_program propagate)).

Section Drivers.

Variable covered :
  (vec2 -> vec4) -> option WebGL.buffer_id -> option WebGL.buffer_id -> Z -> Z -> Z -> bool.

(** Modelled from the spec: [WavePainter] is missing.  Influence injection
    is given the water plane and "applies zero or more localized height
    perturbations directly into the newly-written front buffer": it acts on
    the context, and has no part in the roles of the buffers. *)
Variable applyInfluences : WaterPlane.t -> WebGL.state -> WebGL.state.

Variable this : t.

(** The three kinds of statement of the drivers. *)
Definition call (c : WebGL.call) : stmt := fun W =>
  MkWorld (WebGL.exec covered c (gl W)) (water W) (trace W ++ [GL c]).

Definition water_flip : stmt := fun W =>
  MkWorld (gl W) (WaterPlane.flip (water W)) (trace W ++ [Flip]).

Definition wavePainter_applyInfluences : stmt := fun W =>
  MkWorld (applyInfluences (water W) (gl W)) (water W) (trace W ++ [ApplyInfluences]).

(** [Waves.prototype.propagate], statement by statement. *)
Definition propagate_script (mesh : Mesh.t) : list stmt :=
  let uSize := Shader.location (programPropagate this) "size" in
  let uScale := Shader.location (programPropagate this) "scale" in
  let uDamping := Shader.location (programPropagate this) "damping" in
  [ call (Shader.use (programPropagate this));
    water_flip;
    (fun W => call (RenderTarget.target (WaterPlane.getFront (water W))) W);
    call (WebGL.clearColor 0.5 0.5 0 0);
    call WebGL.clear;
    (fun W => call (WebGL.uniform2f uSize (IZR (WaterPlane.width (water W)))
                                          (IZR (WaterPlane.height (water W)))) W);
    (fun W => call (WebGL.uniform1f uScale (WaterPlane.SCALE (water W))) W);
    call (WebGL.uniform1f uDamping DAMPING);
    call (WebGL.bindBuffer WebGL.ARRAY_BUFFER (Mesh.vertices mesh));
    call (WebGL.bindBuffer WebGL.ELEMENT_ARRAY_BUFFER (Mesh.indices mesh));
    call (WebGL.enableVertexAttribArray "position");
    call (WebGL.vertexAttribPointer "position" 2 8 0);
    call (WebGL.activeTexture 0);
    (fun W => call (WebGL.bindTexture (RenderTarget.texture (WaterPlane.getBack (water W)))) W);
    call (WebGL.texParameteri WebGL.TEXTURE_MIN_FILTER Texture.NEAREST);
    call (WebGL.texParameteri WebGL.TEXTURE_MAG_FILTER Texture.NEAREST);
    call (WebGL.drawElements (Mesh.indexCount mesh));
    call (WebGL.texParameteri WebGL.TEXTURE_MIN_FILTER Texture.LINEAR);
    call (WebGL.texParameteri WebGL.TEXTURE_MAG_FILTER Texture.LINEAR);
    wavePainter_applyInfluences ].

Definition propagate (mesh : Mesh.t) : stmt := run (propagate_script mesh).

(** The statements of [propagate] before its draw call. *)
Definition before_draw (mesh : Mesh.t) : stmt := run (firstn 16 (propagate_script mesh)).

(** [Waves.prototype.render], statement by statement. *)
Definition render_script (background : WebGL.texture_id) (mesh : Mesh.t)
    (width height scale time : R) : list stmt :=
  let u := Shader.location (programDistort this) in
  [ call (Shader.use (programDistort this));
    call (WebGL.uniform1f (u "scale") scale);
    call (WebGL.uniform1i (u "background") 0);
    call (WebGL.uniform1i (u "waterBack") 1);
    call (WebGL.uniform1i (u "waterFront") 2);
    call (WebGL.uniform1f (u "depth") (DEPTH * scale));
    call (WebGL.uniform2f (u "size") width height);
    (fun W => call (WebGL.uniform2f (u "waterSize") (IZR (WaterPlane.width (water W)))
                                                    (IZR (WaterPlane.height (water W)))) W);
    call (WebGL.uniform1f (u "time") time);
    call (WebGL.bindBuffer WebGL.ARRAY_BUFFER (Mesh.vertices mesh));
    call (WebGL.bindBuffer WebGL.ELEMENT_ARRAY_BUFFER (Mesh.indices mesh));
    call (WebGL.enableVertexAttribArray "position");
    call (WebGL.vertexAttribPointer "position" 2 8 0);
    call (WebGL.activeTexture 0);
    call (WebGL.bindTexture background);
    call (WebGL.activeTexture 1);
    (fun W => call (WebGL.bindTexture (RenderTarget.texture (WaterPlane.getBack (water W)))) W);
    call (WebGL.activeTexture 2);
    (fun W => call (WebGL.bindTexture (RenderTarget.texture (WaterPlane.getFront (water W)))) W);
    call (WebGL.drawElements (Mesh.indexCount mesh)) ].

Definition render (background : WebGL.texture_id) (mesh : Mesh.t)
    (width height scale time : R) : stmt :=
  run (render_script background mesh width height scale time).

(** The context as the draw call of [render] finds it. *)
Definition render_before_draw (background : WebGL.texture_id) (mesh : Mesh.t)
    (width height scale time : R) (W : World) : WebGL.state :=
  gl (run (firstn 19 (render_script background mesh width height scale time)) W).

End Drivers.

End Waves.

(** ** A small scene

    A 4 by 4 water plane at rest, its two buffers, a mesh that covers every
    pixel and a wave painter that paints nothing: the concrete input of the
    checks below. *)
Module Demo.

Definition covered :
  (vec2 -> vec4) -> option WebGL.buffer_id -> option WebGL.buffer_id -> Z -> Z -> Z -> bool :=
  fun _ _ _ _ _ _ => true.

Definition applyInfluences : WaterPlane.t -> WebGL.state -> WebGL.state := fun _ s => s.

Definition waves : Waves.t := Waves.create 1%positive 2%positive.

Definition plane : WaterPlane.t :=
  WaterPlane.Make 4 4 1 (RenderTarget.Make 1%positive) (RenderTarget.Make 2%positive) false.

Definition at_rest : Texture.t :=
  Texture.Make 4 4 (fun _ _ => Vec4 0.5 0.5 0 0) Texture.LINEAR Texture.LINEAR
    Texture.CLAMP_TO_EDGE Texture.CLAMP_TO_EDGE.

Definition context : WebGL.state :=
  WebGL.State None None (Vec4 0 0 0 0) 0 ∅ (<[1%positive := at_rest]> (<[2%positive := at_rest]> ∅))
    (fun _ _ => Vec4 0 0 0 1) ∅ None None.

Definition world : World := MkWorld context plane [].

Definition mesh : Mesh.t := Mesh.Make 1%positive 2%positive 6.

End Demo.
(** ** The height field and its encodings *)

Module Field.

(** The spec's words: [encode(h) = h/6+0.5], [decode(v) = v*6-3]. *)
Definition encode (h : R) : R := h / 6 + 0.5.
Definition decode (v : R) : R := v * 6 - 3.

(** The velocity a propagate fragment computes before it stores it:
    [(newHeight - momentum) * damping]. *)
Definition velocity (source : sampler2D) (size : vec2) (damping : R) (fc : vec2) : R :=
  (Waves.Propagate.newHeight source size fc - Waves.Propagate.momentum source size fc) * damping.

(** One propagation step over a whole height field: every texel of the new
    image is the propagate fragment of its pixel, which reads the old image
    through nearest-neighbour sampling with [size] the field's dimensions. *)
Definition propagation_step (damping : R) (T : Texture.t) : Texture.t :=
  Texture.set_pixels
    (fun x y =>
       Waves.SHADER_PROPAGATE_FRAGMENT (Texture.nearest T)
         (Vec2 (IZR (Texture.width T)) (IZR (Texture.height T))) damping (frag_coord x y))
    T.

Fixpoint propagate_n (n : nat) (damping : R) (T : Texture.t) : Texture.t :=
  match n with
  | O => T
  | S k => propagation_step damping (propagate_n k damping T)
  end.

(** Sums over the cells [0 <= i < n] of an axis, and over a whole field. *)
Fixpoint sum_upto (n : nat) (f : Z -> R) : R :=
  match n with
  | O => 0
  | S k => sum_upto k f + f (Z.of_nat k)
  end.

Definition sum_cells (T : Texture.t) (f : Z -> Z -> R) : R :=
  sum_upto (Z.to_nat (Texture.height T))
    (fun y => sum_upto (Z.to_nat (Texture.width T)) (fun x => f x y)).

(** Total field energy: the sum of the squared decoded heights. *)
Definition energy (T : Texture.t) : R :=
  sum_cells T (fun x y => Rsqr (decode (vec4_r (Texture.pixels T x y)))).

(** The momentum a cell's stored channels reconstruct to. *)
Definition cell_momentum (c : vec4) : R := (vec4_g c + vec4_b c) * 2 - 1.

Definition zero_momentum (T : Texture.t) : Prop :=
  forall x y, cell_momentum (Texture.pixels T x y) = 0.

(** A field at rest but for one cell: [v] in the red channel of cell
    [(i, j)], the neutral 0.5 elsewhere, zero momentum everywhere (the state
    [clearColor(0.5, 0.5, 0, 0)] leaves, with one height written). *)
Definition impulse_field (w h : Z) (ws wt : Texture.wrap) (i j : Z) (v : R) : Texture.t :=
  Texture.Make w h
    (fun x y => if (Z.eqb x i && Z.eqb y j)%bool then Vec4 v 0.5 0 0 else Vec4 0.5 0.5 0 0)
    Texture.NEAREST Texture.NEAREST ws wt.

(** *** The grid of a field

    On a grid of [S kw] by [S kh] cells with wrap modes [ws] and [wt]:
    sums over the cells, the neighbours of a cell, and the quadratic form in
    whose terms the propagation is a damped rotation. *)
Section Grid.
Variables kw kh : nat.
Variables ws wt : Texture.wrap.

Definition gsum (f : Z -> Z -> R) : R :=
  sum_upto (S kh) (fun y => sum_upto (S kw) (fun x => f x y)).

Definition lx (x : Z) : Z := Texture.wrap_index ws (Z.of_nat (S kw)) (x - 1).
Definition rx (x : Z) : Z := Texture.wrap_index ws (Z.of_nat (S kw)) (x + 1).
Definition uy (y : Z) : Z := Texture.wrap_index wt (Z.of_nat (S kh)) (y - 1).
Definition dy (y : Z) : Z := Texture.wrap_index wt (Z.of_nat (S kh)) (y + 1).

(** The sum of a grid function over the four neighbours of a cell. *)
Definition nb (f : Z -> Z -> R) (x y : Z) : R :=
  f (lx x) y + f (rx x) y + f x (uy y) + f x (dy y).

(** Textures laid out on this grid. *)
Definition on_grid (T : Texture.t) : Prop :=
  Texture.width T = Z.of_nat (S kw) /\ Texture.height T = Z.of_nat (S kh) /\
  Texture.wrap_s T = ws /\ Texture.wrap_t T = wt.

(** The stored height on the scale of the propagation ([2 r - 1]) and the
    stored momentum of a cell. *)
Definition hX (T : Texture.t) (x y : Z) : R := 2 * vec4_r (Texture.pixels T x y) - 1.
Definition hY (T : Texture.t) (x y : Z) : R := cell_momentum (Texture.pixels T x y).

(** The quadratic form that one propagation step scales by the damping. *)
Definition lyapunov (d : R) (T : Texture.t) : R :=
  gsum (fun x y => Rsqr (hX T x y) - d / 2 * (hX T x y * nb (hY T) x y)
                   + d * Rsqr (hY T x y)).

End Grid.

(** One axis: the neighbour maps [l] (towards 0) and [r] (away from 0) on
    [0..k] send each cell to the next one, and the two border cells either
    to themselves or to each other. *)
Definition ring_like (k : Z) (l r : Z -> Z) : Prop :=
  (forall i, (0 <= i < k)%Z -> l (i + 1)%Z = i) /\
  (forall i, (0 <= i < k)%Z -> r i = (i + 1)%Z) /\
  ((l 0%Z = 0%Z /\ r k = k) \/ (l 0%Z = k /\ r k = 0%Z)).

End Field.

(** ** [Card]: a koi card

    The card's own state, and what its methods ask of their collaborators
    ([Atlas], [Preview], [Palettes], [URL]), recorded in order.  The DOM
    elements the constructor builds are kept by what the methods later write
    to them: the children of the name element, the background image of the
    preview animation, and the transform of the card element. *)

Module Card.

Record Vector2 := MkVector2 { x : R; y : R }.

(** The functions of a CSS [transform] value. *)
Inductive transform :=
| translate (x y : R)
| rotate (angle : R)
| scale (factor : R).

Definition URL : Type := positive.
Definition Region : Type := positive.

(** The collaborators that [initialize] only hands on. *)
Definition Preview : Type := positive.
Definition Bodies : Type := positive.
Definition RandomSource : Type := positive.

(** What [Card] reads and writes of its [FishBody]: [pattern.region],
    [pattern.base], [pattern.layers], and whether the spine was built. *)
Record Pattern := MkPattern {
  region : option Region;
  base : nat;
  layers : list nat
}.

Record FishBody := MkFishBody {
  pattern : Pattern;
  spine : bool
}.

Record t := Make {
  body : FishBody;
  position : Vector2;
  positionPrevious : Vector2;
  angle : R;
  anglePrevious : R;
  name : list string;
  previewAnimation_backgroundImage : option URL;
  previewURL : option URL;
  element_transform : list transform;
  initialized : bool
}.

(** The calls a card makes on its collaborators. *)
Inductive effect :=
| InitializeSpine
| AtlasWrite (p : Pattern) (randomSource : option RandomSource)
| PreviewRender (preview : Preview) (b : FishBody) (bodies : Bodies)
| AtlasReturnRegion (r : option Region)
| CreateObjectURL (u : URL)
| RevokeObjectURL (u : URL).

Record World := MkWorld {
  card : t;
  effects : list effect
}.

(** The collaborators [initialize] is handed: the region [atlas.write]
    gives the pattern, and the name [palettes.makeName] makes. *)
Record Atlas := MkAtlas { write : Pattern -> Region }.
Record Palettes := MkPalettes { makeName : nat -> list nat -> string }.

Definition set_region (r : option Region) (b : FishBody) : FishBody :=
  MkFishBody (MkPattern r (base (pattern b)) (layers (pattern b))) (spine b).

Definition set_spine (b : FishBody) : FishBody := MkFishBody (pattern b) true.

Definition set_body (b : FishBody) (c : t) : t :=
  Make b (position c) (positionPrevious c) (angle c) (anglePrevious c) (name c)
       (previewAnimation_backgroundImage c) (previewURL c) (element_transform c)
       (initialized c).

Definition set_initialized (i : bool) (c : t) : t :=
  Make (body c) (position c) (positionPrevious c) (angle c) (anglePrevious c) (name c)
       (previewAnimation_backgroundImage c) (previewURL c) (element_transform c) i.

Definition set_preview (u : URL) (c : t) : t :=
  Make (body c) (position c) (positionPrevious c) (angle c) (anglePrevious c) (name c)
       (Some u) (Some u) (element_transform c) (initialized c).

Definition set_transform (f : list transform) (c : t) : t :=
  Make (body c) (position c) (positionPrevious c) (angle c) (anglePrevious c) (name c)
       (previewAnimation_backgroundImage c) (previewURL c) f (initialized c).

Definition set_positions (p q : Vector2) (c : t) : t :=
  Make (body c) p q (angle c) (anglePrevious c) (name c)
       (previewAnimation_backgroundImage c) (previewURL c) (element_transform c)
       (initialized c).

Definition set_angles (a b : R) (c : t) : t :=
  Make (body c) (position c) (positionPrevious c) a b (name c)
       (previewAnimation_backgroundImage c) (previewURL c) (element_transform c)
       (initialized c).

(** [Card.prototype.setName]: one more heading under the name element. *)
Definition setName (n : string) (c : t) : t :=
  Make (body c) (position c) (positionPrevious c) (angle c) (anglePrevious c)
       (name c ++ [n])
       (previewAnimation_backgroundImage c) (previewURL c) (element_transform c)
       (initialized c).

(** [Card.prototype.updatePosition]. *)
Definition updatePosition (time : R) (c : t) : t :=
  let px := x (positionPrevious c) + (x (position c) - x (positionPrevious c)) * time in
  let py := y (positionPrevious c) + (y (position c) - y (positionPrevious c)) * time in
  let a := anglePrevious c + (angle c - anglePrevious c) * time in
  set_transform
    (if Req_dec_T (angle c) 0 then [translate px py] else [translate px py; rotate a]) c.

(** The constructor. *)
Definition create (b : FishBody) (p : Vector2) (a : R) : t :=
  updatePosition 0 (Make b p p a a [] None None [] false).

(** [Card.prototype.initialize]. *)
Definition initialize (preview : Preview) (atlas : Atlas) (bodies : Bodies)
    (palettes : Palettes) (randomSource : option RandomSource) (W : World) : World :=
  if initialized (card W) then W
  else
    let c := set_initialized true (card W) in
    let createdTexture :=
      match region (pattern (body c)) with Some _ => false | None => true end in
    let written := set_region (Some (write atlas (pattern (body c)))) (set_spine (body c)) in
    let b := if createdTexture then written else body c in
    let e_write :=
      if createdTexture then [InitializeSpine; AtlasWrite (pattern (body c)) randomSource]
      else [] in
    let e_return :=
      if createdTexture then [AtlasReturnRegion (region (pattern b))] else [] in
    let b' := if createdTexture then set_region None b else b in
    MkWorld
      (setName (makeName palettes (base (pattern b')) (layers (pattern b'))) (set_body b' c))
      (effects W ++ e_write ++ [PreviewRender preview b bodies] ++ e_return).

(** The callback [initialize] hands to [toBlob], run when the blob is
    ready: on an initialized card it calls [URL.createObjectURL], [u] being
    the URL that call makes for the blob. *)
Definition blob_ready (u : URL) (W : World) : World :=
  if initialized (card W)
  then MkWorld (set_preview u (card W)) (effects W ++ [CreateObjectURL u])
  else W.

(** [Card.prototype.free]. *)
Definition free (W : World) : World :=
  MkWorld (set_initialized false (card W))
          (effects W ++ match previewURL (card W) with
                        | Some u => [RevokeObjectURL u]
                        | None => []
                        end).

(** The other methods. *)
Definition render (time : R) (c : t) : t := updatePosition time c.

Definition moveTo (px py : R) (c : t) : t :=
  set_positions (MkVector2 px py) (MkVector2 px py) c.

Definition move (px py interpolationFactor : R) (c : t) : t :=
  set_positions
    (MkVector2 (x (position c) + (px - x (position c)) * interpolationFactor)
               (y (position c) + (py - y (position c)) * interpolationFactor))
    (position c) c.

Definition rotate_towards (target interpolationFactor : R) (c : t) : t :=
  set_angles (angle c + (target - angle c) * interpolationFactor) (angle c) c.

Definition setPosition (p : Vector2) (c : t) : t := set_positions p p c.

Definition setRotation (rotation : R) (c : t) : t := set_angles rotation rotation c.

(** [WIDTH] is the style sheet's [--card-width]. *)
Definition transformSlot (WIDTH slotWidth : R) (c : t) : t :=
  set_transform [scale (slotWidth / WIDTH)] c.

(** The public interface, as calls. *)
Inductive call :=
| Initialize (preview : Preview) (atlas : Atlas) (bodies : Bodies) (palettes : Palettes)
             (randomSource : option RandomSource)
| Free
| BlobReady (u : URL)
| Render (time : R)
| MoveTo (px py : R)
| Move (px py interpolationFactor : R)
| Rotate (target interpolationFactor : R)
| SetPosition (p : Vector2)
| SetRotation (rotation : R)
| TransformSlot (WIDTH slotWidth : R)
| Serialize.

Definition on_card (f : t -> t) (W : World) : World := MkWorld (f (card W)) (effects W).

Definition exec (c : call) (W : World) : World :=
  match c with
  | Initialize preview atlas bodies palettes randomSource =>
      initialize preview atlas bodies palettes randomSource W
  | Free => free W
  | BlobReady u => blob_ready u W
  | Render time => on_card (render time) W
  | MoveTo px py => on_card (moveTo px py) W
  | Move px py f => on_card (move px py f) W
  | Rotate target f => on_card (rotate_towards target f) W
  | SetPosition p => on_card (setPosition p) W
  | SetRotation r => on_card (setRotation r) W
  | TransformSlot WIDTH w => on_card (transformSlot WIDTH w) W
  | Serialize => W
  end.

Definition run (calls : list call) (W : World) : World :=
  fold_left (fun W c => exec c W) calls W.

(** A card as the constructor leaves it, for the concrete checks. *)
Definition fresh : World :=
  MkWorld (create (MkFishBody (MkPattern None 0 []) false) (MkVector2 0 0) 0) [].

Definition atlas_1 : Atlas := MkAtlas (fun _ => 1%positive).
Definition palettes_koi : Palettes := MkPalettes (fun _ _ => "Koi"%string).
Definition first_call : call := Initialize 1%positive atlas_1 1%positive palettes_koi None.

End Card.

(** ** Uses of a card *)

(** The calls that only place the card. *)
Definition placement (c : Card.call) : bool :=
  match c with
  | Card.Render _ | Card.MoveTo _ _ | Card.Move _ _ _ | Card.Rotate _ _
  | Card.SetPosition _ | Card.SetRotation _ | Card.TransformSlot _ _ | Card.Serialize => true
  | _ => false
  end.

(** One [initialize] and one [free], in this order. *)
Definition show_and_hide (preview : Card.Preview) (atlas : Card.Atlas)
    (bodies : Card.Bodies) (palettes : Card.Palettes)
    (randomSource : option Card.RandomSource) (W : Card.World) : Card.World :=
  Card.free (Card.initialize preview atlas bodies palettes randomSource W).

(** ** The elements of a card

    The DOM elements the constructor of [Card] builds, as trees. *)
Module CardElement.

#[warnings="-register-all"]
Inductive node :=
| Element (tag : string) (className : string) (children : list node)
| Text (data : string).

Definition CLASS : string := "card-shape card".
Definition CLASS_PREVIEW_FRAME : string := "preview-frame".
Definition CLASS_PREVIEW_ANIMATION : string := "preview-animation".
Definition CLASS_NAME : string := "name".
Definition CLASS_INFO : string := "info".
Definition CLASS_INFO_LABEL : string := "label".
Definition CLASS_INFO_VALUE : string := "value".
Definition CLASS_INFO_WEIGHT : string := "weight".
Definition CLASS_INFO_LENGTH : string := "length".

(** [Math.round]: the nearest integer, a half rounded up. *)
Definition Math_round (v : R) : Z := Int_part (v + 0.5).

(** [Card.prototype.createName], [createPreviewAnimation] and
    [createPreviewFrame]. *)
Definition createName : node := Element "div" CLASS_NAME [].
Definition createPreviewAnimation : node := Element "div" CLASS_PREVIEW_ANIMATION [].
Definition createPreviewFrame (previewAnimation : node) : node :=
  Element "div" CLASS_PREVIEW_FRAME [previewAnimation].

(** A string is falsy when it is empty. *)
Definition truthy (s : string) : bool :=
  match s with EmptyString => false | _ => true end.

(** [Card.prototype.createProperty]; [valueClass] is [null] by default, and
    [classList.add] appends the class to the class name after a space. *)
Definition createProperty (name value : string) (valueClass : option string) : node :=
  let spanLabel := Element "span" CLASS_INFO_LABEL [Text name] in
  let spanValue :=
    Element "span"
      (match valueClass with
       | Some c => if truthy c then CLASS_INFO_VALUE +:+ " " +:+ c else CLASS_INFO_VALUE
       | None => CLASS_INFO_VALUE
       end)
      [Text value] in
  Element "p" EmptyString [spanLabel; spanValue].

(** The value of the "Age" property, from [ageMinutes]. *)
Definition ageText (ageMinutes : R) : string :=
  if Rlt_dec ageMinutes 1 then "Fry"
  else if Z.ltb (Math_round ageMinutes) 2 then pretty (Math_round ageMinutes) +:+ " minute"
  else if Rgt_dec ageMinutes 60 then "> 1 hour"
  else pretty (Math_round ageMinutes) +:+ " minutes".

(** [Card.prototype.createInfo].  Of the body it reads [getAge()] (seconds)
    and the two texts [getWeight(size).toFixed(2)] and
    [(getLength() * 100).toFixed(1).toString()], taken as they come. *)
Definition createInfo (age : R) (weightText lengthText : string) : node :=
  let ageMinutes := age / 60 in
  Element "div" CLASS_INFO
    [ createProperty "Weight" weightText (Some CLASS_INFO_WEIGHT);
      createProperty "Length" lengthText (Some CLASS_INFO_LENGTH);
      createProperty "Age" (ageText ageMinutes) None ].

(** [Card.prototype.createElement]. *)
Definition createElement (name previewFrame : node) (age : R) (weightText lengthText : string)
    : node :=
  Element "div" CLASS [name; previewFrame; createInfo age weightText lengthText].

End CardElement.

(** ** Uses of [propagate] *)

(** The statements of [propagate] before the wave painter is called. *)
Definition propagate_before_influences
    (covered : (vec2 -> vec4) -> option WebGL.buffer_id -> option WebGL.buffer_id
               -> Z -> Z -> Z -> bool)
    (applyInfluences : WaterPlane.t -> WebGL.state -> WebGL.state)
    (this : Waves.t) (mesh : Mesh.t) : stmt :=
  run (firstn 19 (Waves.propagate_script covered applyInfluences this mesh)).

(** Two textures that hold the same field: the same grid, the same wrap
    modes and the same texels (the filters may differ). *)
Definition same_field (A B : Texture.t) : Prop :=
  Texture.width A = Texture.width B /\ Texture.height A = Texture.height B /\
  Texture.wrap_s A = Texture.wrap_s B /\ Texture.wrap_t A = Texture.wrap_t B /\
  forall x y, Texture.pixels A x y = Texture.pixels B x y.

(** What a call of [propagate] needs of the world, and hands on: the two
    buffers are apart, the front buffer holds the field [F], the back buffer
    lies on the grid of [F0] (that of the water plane) with its wrap modes,
    and the [source] uniform of the propagate program was never set. *)
Definition holds (propagate : WebGL.program_id) (F0 F : Texture.t) (W : World) : Prop :=
  WaterPlane.distinct (water W) /\
  Texture.width F0 = WaterPlane.width (water W) /\
  Texture.height F0 = WaterPlane.height (water W) /\
  (exists Tf, WebGL.textures (gl W) !! RenderTarget.texture (WaterPlane.getFront (water W))
              = Some Tf /\ same_field Tf F) /\
  (exists Tb, WebGL.textures (gl W) !! RenderTarget.texture (WaterPlane.getBack (water W))
              = Some Tb /\
              Texture.width Tb = Texture.width F0 /\ Texture.height Tb = Texture.height F0 /\
              Texture.wrap_s Tb = Texture.wrap_s F0 /\ Texture.wrap_t Tb = Texture.wrap_t F0) /\
  WebGL.uniforms (gl W) !! (propagate, "source"%string) = None.

(** ** A scene with a ripple

    The water plane of [Demo] with an impulse in the buffer in the front
    role and the other buffer at rest, a background with a gradient, and the
    default framebuffer as the render target; a field of 3 by 3 cells with
    an impulse that moves; and a water surface that slopes evenly. *)
Module Ripple.

Definition impulse : Texture.t :=
  Field.impulse_field 4 4 Texture.CLAMP_TO_EDGE Texture.CLAMP_TO_EDGE 1 1 0.6.

Definition kicked : Texture.t :=
  Texture.Make 3 3
    (fun x y => if (Z.eqb x 1 && Z.eqb y 1)%bool then Vec4 0.6 0.7 0 0 else Vec4 0.5 0.5 0 0)
    Texture.NEAREST Texture.NEAREST Texture.REPEAT Texture.REPEAT.

Definition pebbles : Texture.t :=
  Texture.Make 16 16 (fun x y => Vec4 (IZR x / 16) (IZR y / 16) 0.5 1)
    Texture.LINEAR Texture.LINEAR Texture.CLAMP_TO_EDGE Texture.CLAMP_TO_EDGE.

Definition context : WebGL.state :=
  WebGL.State None None (Vec4 0 0 0 0) 0 ∅
    (<[1%positive := impulse]> (<[2%positive := Demo.at_rest]> (<[3%positive := pebbles]> ∅)))
    (fun _ _ => Vec4 0 0 0 1) ∅ None None.

Definition world : World := MkWorld context Demo.plane [].

Definition slope : sampler2D := fun uv => Vec4 ((vec2_x uv + vec2_y uv) / 3) 0.5 0 0.

End Ripple.
(** * Properties *)

(** ** Arithmetic of the built-ins *)

Lemma vec2_eq (a b c d : R) : a = c -> b = d -> Vec2 a b = Vec2 c d.
Proof. intros -> ->. reflexivity. Qed.

Lemma vec4_eq (a b c d a' b' c' d' : R) :
  a = a' -> b = b' -> c = c' -> d = d' -> Vec4 a b c d = Vec4 a' b' c' d'.
Proof. intros -> -> -> ->. reflexivity. Qed.

Lemma mix_same (x a : R) : mix x x a = x.
Proof. unfold mix. ring. Qed.

Lemma mix_zero (x y : R) : mix x y 0 = x.
Proof. unfold mix. ring. Qed.

Lemma mix4_zero (u v : vec4) : mix4 u v 0 = u.
Proof. destruct u. unfold mix4. cbn. rewrite !mix_zero. reflexivity. Qed.

Lemma sqrt_4 : sqrt (2 * 2 + 0 * 0 + 0 * 0) = 2.
Proof.
  replace (2 * 2 + 0 * 0 + 0 * 0) with (2 * 2) by ring.
  apply sqrt_square. lra.
Qed.

Lemma normalize_x_axis : normalize (Vec3 2 0 0) = Vec3 1 0 0.
Proof.
  unfold normalize, length, dot. cbn. rewrite sqrt_4.
  f_equal; lra.
Qed.

Lemma normalize_z_axis : normalize (Vec3 0 0 2) = Vec3 0 0 1.
Proof.
  unfold normalize, length, dot. cbn.
  replace (0 * 0 + 0 * 0 + 2 * 2) with (2 * 2 + 0 * 0 + 0 * 0) by ring.
  rewrite sqrt_4. f_equal; lra.
Qed.

(** The integer part of a real that lies in the unit cell above an integer. *)
Lemma floor_cell (k : Z) (x : R) : IZR k <= x < IZR k + 1 -> Texture.floor x = k.
Proof.
  intros [Hlo Hhi]. unfold Texture.floor, Int_part.
  assert (H : (k + 1)%Z = up x).
  { apply tech_up; rewrite plus_IZR; lra. }
  rewrite <- H. lia.
Qed.

(** ** The distortion/shading fragment *)

Section DistortFacts.
Variables background waterBack waterFront : sampler2D.
Variable depth : R.
Variables size waterSize : vec2.
Variable time : R.
Variable fc : vec2.

Let normal := Waves.Distort.normal waterBack waterFront size waterSize time fc.
Let displacement := Waves.Distort.displacement waterBack waterFront depth size waterSize time fc.
Let shiny_dot := Waves.Distort.shiny_dot waterBack waterFront size waterSize time fc.
Let shiny := Waves.Distort.shiny waterBack waterFront size waterSize time fc.
Let pixel_sample :=
  Waves.Distort.pixel_sample background waterBack waterFront depth size waterSize time fc.
Let pixel := Waves.Distort.pixel background waterBack waterFront depth size waterSize time fc.
Let gl_FragColor :=
  Waves.SHADER_DISTORT_FRAGMENT background waterBack waterFront depth size waterSize time fc.

(** On a field whose two buffers hold one and the same height [c]
    everywhere, every [get] returns the decoded [c]. *)
Lemma get_flat (c : R) (delta : vec2) :
  (forall uv, vec4_r (waterBack uv) = c) ->
  (forall uv, vec4_r (waterFront uv) = c) ->
  Waves.Distort.get waterBack waterFront size waterSize time fc delta = c * 6 - 3.
Proof.
  intros Hb Hf. unfold Waves.Distort.get, texture2D.
  rewrite Hb, Hf, mix_same. reflexivity.
Qed.

Lemma normal_flat (c : R) :
  (forall uv, vec4_r (waterBack uv) = c) ->
  (forall uv, vec4_r (waterFront uv) = c) ->
  normal = Vec3 0 (-1) 0.
Proof.
  intros Hb Hf. unfold normal, Waves.Distort.normal, Waves.Distort.dyx, Waves.Distort.dyz.
  rewrite !(get_flat c) by assumption.
  replace (c * 6 - 3 - (c * 6 - 3)) with 0 by ring.
  rewrite normalize_x_axis, normalize_z_axis.
  unfold cross. cbn. f_equal; ring.
Qed.

(** C4, amended.  Shading symmetry.  When both height-field buffers hold the
    encoded-neutral value 0.5 everywhere, the surface normal is exactly
    [(0, -1, 0)]: the vertical unit vector that points down.  Its [x] and
    [z] components, the only ones the shader reads, are those of
    [(0, 1, 0)], so the shading term is the one [(0, 1, 0)] gives; the
    displacement is the zero vector, the background is sampled at the
    unshifted [gl_FragCoord / size], and the output colour is
    [filter * pixel], where [pixel] is that background sample (after the
    substitution for a transparent one). *)
Theorem flat_field_shading :
  (forall uv, vec4_r (waterBack uv) = 0.5) ->
  (forall uv, vec4_r (waterFront uv) = 0.5) ->
  normal = Vec3 0 (-1) 0 /\
  vec3_xz normal = vec3_xz (Vec3 0 1 0) /\
  shiny_dot = dot (normalize (Vec3 1 0 1)) (Vec3 0 1 0) /\
  displacement = Vec2 0 0 /\
  pixel_sample = texture2D background (div2 fc size) /\
  gl_FragColor = mul4 (Waves.Distort.filter) pixel.
Proof.
  intros Hb Hf.
  pose proof (normal_flat 0.5 Hb Hf) as Hn.
  assert (Hd : displacement = Vec2 0 0).
  { unfold displacement, Waves.Distort.displacement. fold normal. rewrite Hn.
    unfold div2, scale2, vec3_xz. cbn. apply vec2_eq; unfold Rdiv; ring. }
  assert (Hs : shiny_dot = 0).
  { unfold shiny_dot, Waves.Distort.shiny_dot. fold normal. rewrite Hn.
    unfold dot, normalize. cbn. unfold Rdiv. ring. }
  repeat split.
  - exact Hn.
  - rewrite Hn. reflexivity.
  - rewrite Hs. unfold dot, normalize. cbn. unfold Rdiv. ring.
  - exact Hd.
  - unfold pixel_sample, Waves.Distort.pixel_sample. fold displacement. rewrite Hd.
    f_equal. unfold sub2. destruct (div2 fc size). cbn. apply vec2_eq; ring.
  - unfold gl_FragColor, Waves.SHADER_DISTORT_FRAGMENT, Waves.Distort.gl_FragColor.
    fold pixel.
    assert (Hz : Waves.Distort.shiny waterBack waterFront size waterSize time fc = 0).
    { unfold Waves.Distort.shiny. fold shiny_dot. rewrite Hs.
      destruct (Rlt_dec 0 0); [lra|]. destruct (Rgt_dec 0 0.5); [lra|]. reflexivity. }
    rewrite Hz. apply mix4_zero.
Qed.

(** The output colour, component by component: each channel of the
    background pixel is scaled by the product of the two filter constants
    and blended linearly with the sky colour. *)
Lemma gl_FragColor_components :
  gl_FragColor
  = Vec4 (0.93 * 0.92 * vec4_r pixel * (1 - shiny) + 0.88 * shiny)
         (0.98 * 0.97 * vec4_g pixel * (1 - shiny) + 0.96 * shiny)
         (vec4_b pixel * (1 - shiny) + shiny)
         (vec4_a pixel * (1 - shiny) + shiny).
Proof.
  unfold gl_FragColor, Waves.SHADER_DISTORT_FRAGMENT, Waves.Distort.gl_FragColor.
  fold pixel shiny.
  unfold Waves.Distort.filter, Waves.Distort.sky, mix4, mul4, mix.
  cbn [vec4_r vec4_g vec4_b vec4_a]. apply vec4_eq; ring.
Qed.

Lemma shiny_dot_components :
  shiny_dot = (vec3_x normal + vec3_z normal) / sqrt 2.
Proof.
  unfold shiny_dot, Waves.Distort.shiny_dot. fold normal.
  unfold dot, normalize, length, dot. cbn [vec3_x vec3_y vec3_z].
  replace (1 * 1 + 0 * 0 + 1 * 1) with 2 by ring.
  assert (H : 0 < sqrt 2) by (apply sqrt_lt_R0; lra).
  field. lra.
Qed.

(** C5.  The shading term is the dot product of the normalised [(1, 0, 1)]
    with the normal, that is [(normal.x + normal.z) / sqrt 2], adjusted by
    the two-piece rule: halved when negative, multiplied by 1.5 when above
    0.5, unchanged otherwise; the output colour is the linear blend of
    [filter * pixel] and the sky colour by the adjusted term: in each
    channel, the background pixel times the filter (0.93 * 0.92, 0.98 * 0.97,
    1, 1) times [1 - shiny], plus the sky (0.88, 0.96, 1, 1) times
    [shiny]. *)
Theorem shiny_two_piece_rule :
  shiny_dot = dot (normalize (Vec3 1 0 1)) normal /\
  shiny_dot = (vec3_x normal + vec3_z normal) / sqrt 2 /\
  (shiny_dot < 0 -> shiny = shiny_dot * 0.5) /\
  (shiny_dot > 0.5 -> shiny = shiny_dot * 1.5) /\
  (0 <= shiny_dot <= 0.5 -> shiny = shiny_dot) /\
  Waves.Distort.sky = Vec4 0.88 0.96 1 1 /\
  gl_FragColor = mix4 (mul4 Waves.Distort.filter pixel) Waves.Distort.sky shiny /\
  gl_FragColor
  = Vec4 (0.93 * 0.92 * vec4_r pixel * (1 - shiny) + 0.88 * shiny)
         (0.98 * 0.97 * vec4_g pixel * (1 - shiny) + 0.96 * shiny)
         (vec4_b pixel * (1 - shiny) + shiny)
         (vec4_a pixel * (1 - shiny) + shiny).
Proof.
  split; [reflexivity|]. split; [apply shiny_dot_components|].
  unfold shiny at 1 2 3, Waves.Distort.shiny. fold shiny_dot.
  split; [|split; [|split; [|split; [reflexivity|split;
    [reflexivity | apply gl_FragColor_components]]]]].
  - intros H. destruct (Rlt_dec shiny_dot 0); [reflexivity | lra].
  - intros H. destruct (Rlt_dec shiny_dot 0); [lra|].
    destruct (Rgt_dec shiny_dot 0.5); [reflexivity | lra].
  - intros [H0 H1]. destruct (Rlt_dec shiny_dot 0); [lra|].
    destruct (Rgt_dec shiny_dot 0.5); [lra | reflexivity].
Qed.

(** The point the background is read at, component by component. *)
Lemma pixel_sample_point :
  displacement
  = Vec2 (depth * vec3_x normal / vec2_x size) (depth * vec3_z normal / vec2_y size) /\
  pixel_sample
  = background
      (Vec2 (vec2_x fc / vec2_x size - depth * vec3_x normal / vec2_x size)
            (vec2_y fc / vec2_y size - depth * vec3_z normal / vec2_y size)).
Proof. split; reflexivity. Qed.

(** C7.  The background is sampled at the screen coordinate
    [gl_FragCoord / size] minus the displacement, that is, on each axis, at
    [gl_FragCoord / size - depth * normal / size] with the [x] and [z]
    components of the normal; a sample whose alpha is exactly 0 is replaced
    by opaque white, any other is kept, and that pixel is the one the final
    blend multiplies by the filter, channel by channel. *)
Theorem background_sample_substitution :
  pixel_sample = texture2D background (sub2 (div2 fc size) displacement) /\
  displacement
  = Vec2 (depth * vec3_x normal / vec2_x size) (depth * vec3_z normal / vec2_y size) /\
  pixel_sample
  = background
      (Vec2 (vec2_x fc / vec2_x size - depth * vec3_x normal / vec2_x size)
            (vec2_y fc / vec2_y size - depth * vec3_z normal / vec2_y size)) /\
  (vec4_a pixel_sample = 0 -> pixel = Vec4 1 1 1 1) /\
  (vec4_a pixel_sample <> 0 -> pixel = pixel_sample) /\
  gl_FragColor = mix4 (mul4 Waves.Distort.filter pixel) Waves.Distort.sky shiny /\
  gl_FragColor
  = Vec4 (0.93 * 0.92 * vec4_r pixel * (1 - shiny) + 0.88 * shiny)
         (0.98 * 0.97 * vec4_g pixel * (1 - shiny) + 0.96 * shiny)
         (vec4_b pixel * (1 - shiny) + shiny)
         (vec4_a pixel * (1 - shiny) + shiny).
Proof.
  split; [reflexivity|].
  split; [apply pixel_sample_point|]. split; [apply pixel_sample_point|].
  split; [|split; [|split; [reflexivity | apply gl_FragColor_components]]].
  - intros H. unfold pixel, Waves.Distort.pixel. fold pixel_sample.
    destruct (Req_dec_T (vec4_a pixel_sample) 0); [reflexivity | contradiction].
  - intros H. unfold pixel, Waves.Distort.pixel. fold pixel_sample.
    destruct (Req_dec_T (vec4_a pixel_sample) 0); [contradiction | reflexivity].
Qed.

End DistortFacts.

(** C4 at a concrete frame: both buffers at rest, an opaque grey background,
    the fragment of pixel (3, 5) of a 16 by 16 target. *)
Lemma flat_field_shading_witness :
  let rest : sampler2D := fun _ => Vec4 0.5 0.5 0 0 in
  let grey : sampler2D := fun _ => Vec4 0.5 0.5 0.5 1 in
  Waves.Distort.normal rest rest (Vec2 16 16) (Vec2 4 4) 0.25 (frag_coord 3 5)
  = Vec3 0 (-1) 0 /\
  Waves.Distort.displacement rest rest Waves.DEPTH (Vec2 16 16) (Vec2 4 4) 0.25 (frag_coord 3 5)
  = Vec2 0 0 /\
  Waves.SHADER_DISTORT_FRAGMENT grey rest rest Waves.DEPTH (Vec2 16 16) (Vec2 4 4) 0.25
    (frag_coord 3 5)
  = mul4 Waves.Distort.filter
      (Waves.Distort.pixel grey rest rest Waves.DEPTH (Vec2 16 16) (Vec2 4 4) 0.25
         (frag_coord 3 5)).
Proof.
  intros rest grey.
  destruct (flat_field_shading grey rest rest Waves.DEPTH (Vec2 16 16) (Vec2 4 4) 0.25
              (frag_coord 3 5) ltac:(intros; reflexivity) ltac:(intros; reflexivity))
    as (Hn & _ & _ & Hd & _ & Hc).
  exact (conj Hn (conj Hd Hc)).
Defined.

(** C4, as stated, fails: on a flat field the normal is [(0, -1, 0)], not
    [(0, 1, 0)], and no positive rescaling of it is [(0, 1, 0)]. *)
Lemma flat_normal_points_down :
  let rest : sampler2D := fun _ => Vec4 0.5 0.5 0 0 in
  let n := Waves.Distort.normal rest rest (Vec2 16 16) (Vec2 4 4) 0.25 (frag_coord 3 5) in
  n = Vec3 0 (-1) 0 /\
  n <> Vec3 0 1 0 /\
  ~ (exists k, 0 < k /\ Vec3 (k * vec3_x n) (k * vec3_y n) (k * vec3_z n) = Vec3 0 1 0).
Proof.
  cbv zeta.
  rewrite (normal_flat (fun _ => Vec4 0.5 0.5 0 0) (fun _ => Vec4 0.5 0.5 0 0)
             (Vec2 16 16) (Vec2 4 4) 0.25 (frag_coord 3 5) 0.5)
    by (intros; reflexivity).
  split; [reflexivity|]. split.
  - intros E. injection E as E. lra.
  - intros (k & Hk & E). cbn in E. injection E as _ E _. lra.
Qed.

(** ** The propagation fragment over a texel grid *)

Section NearestFacts.
Variable T : Texture.t.
Hypothesis width_pos : (0 < Texture.width T)%Z.
Hypothesis height_pos : (0 < Texture.height T)%Z.

Let size : vec2 := Vec2 (IZR (Texture.width T)) (IZR (Texture.height T)).

Lemma width_R_pos : 0 < IZR (Texture.width T).
Proof. apply IZR_lt. exact width_pos. Qed.

Lemma height_R_pos : 0 < IZR (Texture.height T).
Proof. apply IZR_lt. exact height_pos. Qed.

(** Scaling a coordinate of the form [(k + 0.5) / n + d / n] back by [n]
    lands in the cell [k + d]. *)
Lemma floor_offset (n k d : Z) :
  (0 < n)%Z ->
  Texture.floor (((IZR k + 0.5) / IZR n + IZR d * (1 / IZR n)) * IZR n) = (k + d)%Z.
Proof.
  intros Hn. apply IZR_lt in Hn.
  replace (((IZR k + 0.5) / IZR n + IZR d * (1 / IZR n)) * IZR n)
    with (IZR (k + d) + 0.5).
  - apply floor_cell. lra.
  - rewrite plus_IZR. field. lra.
Qed.

(** Nearest sampling at the centre of pixel [(x, y)] displaced by whole
    steps [(dx, dy)] reads the texel [(x + dx, y + dy)], wrapped. *)
Lemma nearest_neighbour (x y dx dy : Z) :
  Texture.nearest T
    (Vec2 (vec2_x (div2 (frag_coord x y) size) + IZR dx * (1 / vec2_x size))
          (vec2_y (div2 (frag_coord x y) size) + IZR dy * (1 / vec2_y size)))
  = Texture.texel T (x + dx) (y + dy).
Proof.
  unfold Texture.nearest, size, frag_coord, div2. cbn.
  rewrite !floor_offset by assumption. reflexivity.
Qed.

Lemma propagate_uv (x y : Z) :
  Texture.nearest T (Waves.Propagate.uv size (frag_coord x y)) = Texture.texel T x y.
Proof.
  pose proof (nearest_neighbour x y 0 0) as H.
  rewrite !Z.add_0_r in H. rewrite <- H. f_equal.
  unfold Waves.Propagate.uv. destruct (div2 (frag_coord x y) size). cbn.
  apply vec2_eq; ring.
Qed.

Lemma propagate_hLeft (x y : Z) :
  Waves.Propagate.hLeft (Texture.nearest T) size (frag_coord x y)
  = vec4_r (Texture.texel T (x - 1) y).
Proof.
  pose proof (nearest_neighbour x y (-1) 0) as H.
  rewrite Z.add_0_r in H. replace (x + -1)%Z with (x - 1)%Z in H by lia.
  rewrite <- H. unfold Waves.Propagate.hLeft, texture2D, Waves.Propagate.uv, Waves.Propagate.step.
  do 2 f_equal. cbn. apply vec2_eq; ring.
Qed.

Lemma propagate_hRight (x y : Z) :
  Waves.Propagate.hRight (Texture.nearest T) size (frag_coord x y)
  = vec4_r (Texture.texel T (x + 1) y).
Proof.
  pose proof (nearest_neighbour x y 1 0) as H.
  rewrite Z.add_0_r in H.
  rewrite <- H. unfold Waves.Propagate.hRight, texture2D, Waves.Propagate.uv, Waves.Propagate.step.
  do 2 f_equal. cbn. apply vec2_eq; ring.
Qed.

Lemma propagate_hUp (x y : Z) :
  Waves.Propagate.hUp (Texture.nearest T) size (frag_coord x y)
  = vec4_r (Texture.texel T x (y - 1)).
Proof.
  pose proof (nearest_neighbour x y 0 (-1)) as H.
  rewrite Z.add_0_r in H. replace (y + -1)%Z with (y - 1)%Z in H by lia.
  rewrite <- H. unfold Waves.Propagate.hUp, texture2D, Waves.Propagate.uv, Waves.Propagate.step.
  do 2 f_equal. cbn. apply vec2_eq; ring.
Qed.

Lemma propagate_hDown (x y : Z) :
  Waves.Propagate.hDown (Texture.nearest T) size (frag_coord x y)
  = vec4_r (Texture.texel T x (y + 1)).
Proof.
  pose proof (nearest_neighbour x y 0 1) as H.
  rewrite Z.add_0_r in H.
  rewrite <- H. unfold Waves.Propagate.hDown, texture2D, Waves.Propagate.uv, Waves.Propagate.step.
  do 2 f_equal. cbn. apply vec2_eq; ring.
Qed.

(** The new texel of a propagation step, in terms of the old texels. *)
Lemma propagation_step_pixels (damping : R) (x y : Z) :
  Texture.pixels (Field.propagation_step damping T) x y =
  Vec4 ((((vec4_r (Texture.texel T (x - 1) y) + vec4_r (Texture.texel T x (y - 1))
           + vec4_r (Texture.texel T (x + 1) y) + vec4_r (Texture.texel T x (y + 1))) - 2
          - Field.cell_momentum (Texture.texel T x y)) * damping) * 0.5 + 0.5)
       (vec4_r (Texture.texel T x y)) 0 0.
Proof.
  unfold Field.propagation_step, Texture.set_pixels. cbn. fold size.
  unfold Waves.SHADER_PROPAGATE_FRAGMENT, Waves.Propagate.gl_FragColor,
    Waves.Propagate.newHeight, Waves.Propagate.momentum, Waves.Propagate.state, texture2D.
  rewrite propagate_hLeft, propagate_hRight, propagate_hUp, propagate_hDown, propagate_uv.
  reflexivity.
Qed.

End NearestFacts.

(** Inside the image a wrap mode leaves an index alone. *)
Lemma wrap_index_inside (m : Texture.wrap) (n i : Z) :
  (0 <= i < n)%Z -> Texture.wrap_index m n i = i.
Proof.
  intros H. destruct m; cbn.
  - lia.
  - apply Z.mod_small. lia.
  - rewrite Z.mod_small by lia. destruct (Z.ltb_spec i n); lia.
Qed.

Lemma texel_inside (T : Texture.t) (x y : Z) :
  (0 <= x < Texture.width T)%Z -> (0 <= y < Texture.height T)%Z ->
  Texture.texel T x y = Texture.pixels T x y.
Proof.
  intros Hx Hy. unfold Texture.texel. rewrite !wrap_index_inside by assumption. reflexivity.
Qed.

(** C1.  One propagation step writes, for every cell [(x, y)] of the height
    field, [vec4(((newHeight - momentum) * damping) * 0.5 + 0.5,
    previousHeight, 0, 0)]: [momentum] is [(g + b) * 2 - 1] of the cell's
    stored channels, [newHeight] the sum of the red channels of the four
    axis neighbours minus 2, [previousHeight] the cell's stored red channel,
    and the damping constant is 0.995. *)
Theorem propagation_writes_encoded_state (T : Texture.t) (x y : Z) :
  (0 <= x < Texture.width T)%Z ->
  (0 <= y < Texture.height T)%Z ->
  let cell := Texture.pixels T x y in
  let momentum := (vec4_g cell + vec4_b cell) * 2 - 1 in
  let newHeight :=
    (vec4_r (Texture.texel T (x - 1) y) + vec4_r (Texture.texel T x (y - 1))
     + vec4_r (Texture.texel T (x + 1) y) + vec4_r (Texture.texel T x (y + 1))) - 2 in
  let previousHeight := vec4_r cell in
  Waves.DAMPING = 0.995 /\
  Waves.SHADER_PROPAGATE_FRAGMENT (Texture.nearest T)
    (Vec2 (IZR (Texture.width T)) (IZR (Texture.height T))) Waves.DAMPING (frag_coord x y)
  = Vec4 (((newHeight - momentum) * 0.995) * 0.5 + 0.5) previousHeight 0 0 /\
  Texture.pixels (Field.propagation_step Waves.DAMPING T) x y
  = Vec4 (((newHeight - momentum) * 0.995) * 0.5 + 0.5) previousHeight 0 0.
Proof.
  intros Hx Hy cell momentum newHeight previousHeight.
  assert (Hw : (0 < Texture.width T)%Z) by lia.
  assert (Hh : (0 < Texture.height T)%Z) by lia.
  pose proof (propagation_step_pixels T Hw Hh Waves.DAMPING x y) as H.
  rewrite (texel_inside T x y Hx Hy) in H.
  split; [reflexivity|]. split; exact H.
Qed.

Lemma propagation_writes_encoded_state_witness :
  let T := Field.impulse_field 3 3 Texture.CLAMP_TO_EDGE Texture.CLAMP_TO_EDGE 1 1 1 in
  Texture.pixels (Field.propagation_step Waves.DAMPING T) 0 1
  = Vec4 ((((0.5 + 0.5 + 1 + 0.5) - 2 - ((0.5 + 0) * 2 - 1)) * 0.995) * 0.5 + 0.5) 0.5 0 0.
Proof.
  intros T.
  exact (proj2 (proj2 (propagation_writes_encoded_state T 0 1
    ltac:(cbn; lia) ltac:(cbn; lia)))).
Defined.

(** ** The height encodings *)

(** C8, as stated, fails: the propagation write does not store
    [encode(velocity)].  With every sample [(0.6, 0.5, 0, 0)] the velocity is
    [0.4 * 0.995 = 0.398]; the fragment stores [0.699], not
    [0.398 / 6 + 0.5], and decoding what it stored gives [1.194]. *)
Lemma propagation_write_is_not_encode :
  let source : sampler2D := fun _ => Vec4 0.6 0.5 0 0 in
  let size := Vec2 4 4 in
  let fc := frag_coord 1 1 in
  let stored := vec4_r (Waves.SHADER_PROPAGATE_FRAGMENT source size Waves.DAMPING fc) in
  Field.velocity source size Waves.DAMPING fc = 0.398 /\
  stored = 0.699 /\
  stored <> Field.encode (Field.velocity source size Waves.DAMPING fc) /\
  Field.decode stored <> Field.velocity source size Waves.DAMPING fc.
Proof.
  cbv zeta.
  assert (Hv : Field.velocity (fun _ => Vec4 0.6 0.5 0 0) (Vec2 4 4) Waves.DAMPING (frag_coord 1 1)
               = 0.398).
  { unfold Field.velocity, Waves.Propagate.newHeight, Waves.Propagate.momentum,
      Waves.Propagate.hLeft, Waves.Propagate.hRight, Waves.Propagate.hUp,
      Waves.Propagate.hDown, Waves.Propagate.state, texture2D, Waves.DAMPING.
    cbn. lra. }
  assert (Hs : vec4_r (Waves.SHADER_PROPAGATE_FRAGMENT (fun _ => Vec4 0.6 0.5 0 0) (Vec2 4 4)
                         Waves.DAMPING (frag_coord 1 1)) = 0.699).
  { unfold Waves.SHADER_PROPAGATE_FRAGMENT, Waves.Propagate.gl_FragColor. cbn.
    unfold Field.velocity in Hv. rewrite Hv. lra. }
  rewrite Hv, Hs. unfold Field.encode, Field.decode.
  repeat split; lra.
Qed.

(** C8, amended.  [decode (encode h) = h] for every height [h] of
    [[-3, 3]]; the shading read decodes the stored value by [decode]; the
    propagation write stores its velocity as [velocity * 0.5 + 0.5], which
    is [encode (3 * velocity)], so that the shading read of a written cell
    is three times the velocity. *)
Theorem height_encoding_roundtrip :
  (forall h, -3 <= h <= 3 -> Field.decode (Field.encode h) = h) /\
  (forall waterBack waterFront size waterSize time fc delta,
     Waves.Distort.get waterBack waterFront size waterSize time fc delta
     = Field.decode
         (mix (vec4_r (waterBack (add2 (div2 fc size) (div2 delta waterSize))))
              (vec4_r (waterFront (add2 (div2 fc size) (div2 delta waterSize)))) time)) /\
  (forall source size damping fc,
     let stored := vec4_r (Waves.SHADER_PROPAGATE_FRAGMENT source size damping fc) in
     let velocity := Field.velocity source size damping fc in
     stored = velocity * 0.5 + 0.5 /\
     stored = Field.encode (3 * velocity) /\
     Field.decode stored = 3 * velocity).
Proof.
  split; [|split].
  - intros h _. unfold Field.decode, Field.encode. lra.
  - intros. reflexivity.
  - intros source size damping fc stored velocity.
    assert (H : stored = velocity * 0.5 + 0.5) by reflexivity.
    rewrite H. unfold Field.encode, Field.decode. repeat split; lra.
Qed.

(** ** Energy of the propagation *)

Import Field.

Lemma sum_upto_ext (n : nat) (f g : Z -> R) :
  (forall i, (0 <= i < Z.of_nat n)%Z -> f i = g i) -> sum_upto n f = sum_upto n g.
Proof.
  induction n as [|k IH]; intros H; cbn [sum_upto]; [reflexivity|].
  rewrite IH, (H (Z.of_nat k)) by (try intros; try apply H; lia). reflexivity.
Qed.

Lemma sum_upto_plus (n : nat) (f g : Z -> R) :
  sum_upto n (fun i => f i + g i) = sum_upto n f + sum_upto n g.
Proof. induction n as [|k IH]; cbn [sum_upto]; [|rewrite IH]; ring. Qed.

Lemma sum_upto_scal (n : nat) (c : R) (f : Z -> R) :
  sum_upto n (fun i => c * f i) = c * sum_upto n f.
Proof. induction n as [|k IH]; cbn [sum_upto]; [|rewrite IH]; ring. Qed.

Lemma sum_upto_le (n : nat) (f g : Z -> R) :
  (forall i, (0 <= i < Z.of_nat n)%Z -> f i <= g i) -> sum_upto n f <= sum_upto n g.
Proof.
  induction n as [|k IH]; intros H; cbn [sum_upto]; [lra|].
  assert (sum_upto k f <= sum_upto k g) by (apply IH; intros; apply H; lia).
  assert (f (Z.of_nat k) <= g (Z.of_nat k)) by (apply H; lia).
  lra.
Qed.

Lemma sum_upto_shift (n : nat) (f : Z -> R) :
  sum_upto (S n) f = f 0%Z + sum_upto n (fun i => f (i + 1)%Z).
Proof.
  induction n as [|k IH].
  - cbn. change (Z.of_nat 0) with 0%Z. ring.
  - cbn [sum_upto] in *. rewrite IH.
    replace (Z.of_nat k + 1)%Z with (Z.of_nat (S k)) by lia. ring.
Qed.

Lemma sum_upto_swap (n m : nat) (f : Z -> Z -> R) :
  sum_upto n (fun i => sum_upto m (fun j => f i j))
  = sum_upto m (fun j => sum_upto n (fun i => f i j)).
Proof.
  induction n as [|k IH]; cbn [sum_upto].
  - induction m as [|l IHl]; cbn [sum_upto]; [reflexivity | rewrite <- IHl; ring].
  - rewrite IH, <- sum_upto_plus. reflexivity.
Qed.

Lemma axis_symmetry (k : nat) (l r : Z -> Z) (G : Z -> Z -> R) :
  ring_like (Z.of_nat k) l r ->
  sum_upto (S k) (fun i => G i (l i) + G i (r i))
  = sum_upto (S k) (fun i => G (l i) i + G (r i) i).
Proof.
  intros (Hl & Hr & Hb).
  rewrite !sum_upto_plus.
  rewrite (sum_upto_shift k (fun i => G i (l i))).
  rewrite (sum_upto_shift k (fun i => G (l i) i)).
  cbn [sum_upto].
  rewrite (sum_upto_ext k (fun i => G (i + 1)%Z (l (i + 1)%Z)) (fun i => G (i + 1)%Z i))
    by (intros i Hi; rewrite Hl by lia; reflexivity).
  rewrite (sum_upto_ext k (fun i => G (l (i + 1)%Z) (i + 1)%Z) (fun i => G i (i + 1)%Z))
    by (intros i Hi; rewrite Hl by lia; reflexivity).
  rewrite (sum_upto_ext k (fun i => G i (r i)) (fun i => G i (i + 1)%Z))
    by (intros i Hi; rewrite Hr by lia; reflexivity).
  rewrite (sum_upto_ext k (fun i => G (r i) i) (fun i => G (i + 1)%Z i))
    by (intros i Hi; rewrite Hr by lia; reflexivity).
  destruct Hb as [[-> ->] | [-> ->]]; ring.
Qed.

Lemma wrap_ring_like (m : Texture.wrap) (k : nat) :
  ring_like (Z.of_nat k)
    (fun i => Texture.wrap_index m (Z.of_nat (S k)) (i - 1))
    (fun i => Texture.wrap_index m (Z.of_nat (S k)) (i + 1)).
Proof.
  repeat split.
  - intros i Hi. rewrite wrap_index_inside by lia. lia.
  - intros i Hi. rewrite wrap_index_inside by lia. lia.
  - destruct m; cbn [Texture.wrap_index].
    + left. lia.
    + right. split.
      * replace (0 - 1)%Z with (Z.of_nat k + (-1) * Z.of_nat (S k))%Z by lia.
        rewrite Z_mod_plus_full. apply Z.mod_small. lia.
      * replace (Z.of_nat k + 1)%Z with (Z.of_nat (S k)) by lia.
        apply Z_mod_same_full.
    + left. split.
      * replace (0 - 1)%Z with (2 * Z.of_nat (S k) - 1 + (-1) * (2 * Z.of_nat (S k)))%Z by lia.
        rewrite Z_mod_plus_full, Z.mod_small by lia.
        destruct (Z.ltb_spec (2 * Z.of_nat (S k) - 1) (Z.of_nat (S k))); lia.
      * rewrite Z.mod_small by lia.
        destruct (Z.ltb_spec (Z.of_nat k + 1) (Z.of_nat (S k))); lia.
Qed.

(** The range of a wrapped index. *)
Lemma wrap_index_range (m : Texture.wrap) (n i : Z) :
  (0 < n)%Z -> (0 <= Texture.wrap_index m n i < n)%Z.
Proof.
  intros Hn. destruct m; cbn [Texture.wrap_index].
  - lia.
  - apply Z.mod_pos_bound. lia.
  - pose proof (Z.mod_pos_bound i (2 * n) ltac:(lia)).
    destruct (Z.ltb_spec (i mod (2 * n)) n); lia.
Qed.

Section GridFacts.
Variables kw kh : nat.
Variables ws wt : Texture.wrap.

Local Abbreviation w := (Z.of_nat (S kw)).
Local Abbreviation h := (Z.of_nat (S kh)).

Local Abbreviation gsum := (Field.gsum kw kh).
Local Abbreviation lx := (Field.lx kw ws).
Local Abbreviation rx := (Field.rx kw ws).
Local Abbreviation uy := (Field.uy kh wt).
Local Abbreviation dy := (Field.dy kh wt).
Local Abbreviation nb := (Field.nb kw kh ws wt).
Local Abbreviation on_grid := (Field.on_grid kw kh ws wt).
Local Abbreviation lyapunov := (Field.lyapunov kw kh ws wt).

Lemma gsum_ext (f g : Z -> Z -> R) :
  (forall x y, (0 <= x < w)%Z -> (0 <= y < h)%Z -> f x y = g x y) -> gsum f = gsum g.
Proof.
  intros H. unfold gsum. apply sum_upto_ext. intros y Hy.
  apply sum_upto_ext. intros x Hx. apply H; assumption.
Qed.

Lemma gsum_plus (f g : Z -> Z -> R) :
  gsum (fun x y => f x y + g x y) = gsum f + gsum g.
Proof.
  unfold gsum. rewrite <- sum_upto_plus. apply sum_upto_ext. intros y _.
  apply sum_upto_plus.
Qed.

Lemma gsum_scal (c : R) (f : Z -> Z -> R) :
  gsum (fun x y => c * f x y) = c * gsum f.
Proof.
  unfold gsum. rewrite <- sum_upto_scal. apply sum_upto_ext. intros y _.
  apply sum_upto_scal.
Qed.

Lemma gsum_le (f g : Z -> Z -> R) :
  (forall x y, (0 <= x < w)%Z -> (0 <= y < h)%Z -> f x y <= g x y) -> gsum f <= gsum g.
Proof.
  intros H. unfold gsum. apply sum_upto_le. intros y Hy.
  apply sum_upto_le. intros x Hx. apply H; assumption.
Qed.

Lemma gsum_zero : gsum (fun _ _ => 0) = 0.
Proof.
  transitivity (0 * gsum (fun _ _ => 0)); [|ring].
  rewrite <- gsum_scal. apply gsum_ext. intros. ring.
Qed.

(** The neighbour relation is symmetric, edge by edge: summing a quantity
    over all (cell, neighbour) pairs is summing it over all
    (neighbour, cell) pairs. *)
Lemma edge_symmetry (F : Z -> Z -> Z -> Z -> R) :
  gsum (fun x y => F x y (lx x) y + F x y (rx x) y + F x y x (uy y) + F x y x (dy y))
  = gsum (fun x y => F (lx x) y x y + F (rx x) y x y + F x (uy y) x y + F x (dy y) x y).
Proof.
  transitivity
    (gsum (fun x y => F x y (lx x) y + F x y (rx x) y)
     + gsum (fun x y => F x y x (uy y) + F x y x (dy y))).
  { rewrite <- gsum_plus. apply gsum_ext. intros. ring. }
  transitivity
    (gsum (fun x y => F (lx x) y x y + F (rx x) y x y)
     + gsum (fun x y => F x (uy y) x y + F x (dy y) x y)).
  2: { rewrite <- gsum_plus. apply gsum_ext. intros. ring. }
  f_equal.
  - unfold gsum. apply sum_upto_ext. intros y _.
    apply (axis_symmetry kw lx rx (fun i i' => F i y i' y)).
    apply wrap_ring_like.
  - unfold gsum. rewrite sum_upto_swap.
    rewrite (sum_upto_swap (S kh) (S kw)).
    apply sum_upto_ext. intros x _.
    apply (axis_symmetry kh uy dy (fun j j' => F x j x j')).
    apply wrap_ring_like.
Qed.

Lemma nb_symmetric (a b : Z -> Z -> R) :
  gsum (fun x y => a x y * nb b x y) = gsum (fun x y => b x y * nb a x y).
Proof.
  pose proof (edge_symmetry (fun x y x' y' => a x y * b x' y')) as H.
  cbv beta in H.
  transitivity (gsum (fun x y => a x y * b (lx x) y + a x y * b (rx x) y
                                 + a x y * b x (uy y) + a x y * b x (dy y))).
  { apply gsum_ext. intros. unfold nb. ring. }
  rewrite H. apply gsum_ext. intros. unfold nb. ring.
Qed.

Lemma nb_count (s : Z -> Z -> R) : gsum (nb s) = 4 * gsum s.
Proof.
  pose proof (edge_symmetry (fun x y x' y' => s x' y')) as H.
  cbv beta in H. unfold nb at 1. rewrite H.
  rewrite <- gsum_scal. apply gsum_ext. intros. ring.
Qed.


Lemma on_grid_step (d : R) (T : Texture.t) : on_grid T -> on_grid (propagation_step d T).
Proof. intros H. exact H. Qed.

Lemma w_pos : (0 < w)%Z.
Proof using Type. rewrite Nat2Z.inj_succ. apply Z.lt_succ_r, Nat2Z.is_nonneg. Qed.

Lemma h_pos : (0 < h)%Z.
Proof using Type. rewrite Nat2Z.inj_succ. apply Z.lt_succ_r, Nat2Z.is_nonneg. Qed.

Lemma lx_range (x : Z) : (0 <= lx x < w)%Z.
Proof using Type. apply wrap_index_range, w_pos. Qed.
Lemma rx_range (x : Z) : (0 <= rx x < w)%Z.
Proof using Type. apply wrap_index_range, w_pos. Qed.
Lemma uy_range (y : Z) : (0 <= uy y < h)%Z.
Proof using Type. apply wrap_index_range, h_pos. Qed.
Lemma dy_range (y : Z) : (0 <= dy y < h)%Z.
Proof using Type. apply wrap_index_range, h_pos. Qed.

Lemma step_hX (d : R) (T : Texture.t) (x y : Z) :
  on_grid T -> (0 <= x < w)%Z -> (0 <= y < h)%Z ->
  hX (propagation_step d T) x y = d * (nb (hX T) x y / 2 - hY T x y).
Proof.
  intros (Hw & Hh & Hs & Ht) Hx Hy.
  unfold hX at 1.
  rewrite propagation_step_pixels by (rewrite ?Hw, ?Hh; auto using w_pos, h_pos).
  cbn [vec4_r].
  unfold Texture.texel. rewrite Hw, Hh, Hs, Ht.
  rewrite !(wrap_index_inside ws w x), !(wrap_index_inside wt h y) by assumption.
  fold (lx x) (rx x) (uy y) (dy y).
  unfold nb, hX, hY. lra.
Qed.

Lemma step_hY (d : R) (T : Texture.t) (x y : Z) :
  on_grid T -> (0 <= x < w)%Z -> (0 <= y < h)%Z ->
  hY (propagation_step d T) x y = hX T x y.
Proof.
  intros (Hw & Hh & Hs & Ht) Hx Hy.
  unfold hY at 1.
  rewrite propagation_step_pixels by (rewrite ?Hw, ?Hh; auto using w_pos, h_pos).
  unfold cell_momentum. cbn [vec4_g vec4_b].
  unfold Texture.texel. rewrite Hw, Hh, Hs, Ht.
  rewrite !(wrap_index_inside ws w x), !(wrap_index_inside wt h y) by assumption.
  unfold hX. lra.
Qed.

Lemma step_nb_hY (d : R) (T : Texture.t) (x y : Z) :
  on_grid T -> (0 <= x < w)%Z -> (0 <= y < h)%Z ->
  nb (hY (propagation_step d T)) x y = nb (hX T) x y.
Proof.
  intros HT Hx Hy. unfold nb.
  rewrite !step_hY by auto using lx_range, rx_range, uy_range, dy_range.
  reflexivity.
Qed.

(** One propagation step multiplies the quadratic form by the damping. *)
Lemma lyapunov_step (d : R) (T : Texture.t) :
  on_grid T -> lyapunov d (propagation_step d T) = d * lyapunov d T.
Proof.
  intros HT. unfold lyapunov.
  transitivity
    (gsum (fun x y => d * (Rsqr (hX T x y) + d * Rsqr (hY T x y))
                      + - (d * d / 2) * (hY T x y * nb (hX T) x y))).
  { apply gsum_ext. intros x y Hx Hy.
    rewrite step_nb_hY, step_hX, step_hY by assumption.
    unfold Rsqr. field. }
  rewrite gsum_plus, !gsum_scal, nb_symmetric.
  rewrite <- !gsum_scal, <- gsum_plus.
  apply gsum_ext. intros x y _ _. unfold Rsqr. field.
Qed.

(** The quadratic form dominates the squared heights. *)
Lemma lyapunov_lower (d : R) (T : Texture.t) :
  0 <= d -> (1 - d) * gsum (fun x y => Rsqr (hX T x y)) <= lyapunov d T.
Proof.
  intros Hd.
  pose proof (nb_count (fun x y => Rsqr (hY T x y))) as Hc.
  assert (Hpos : 0 <= gsum (fun x y =>
            4 * Rsqr (hX T x y) - 2 * (hX T x y * nb (hY T) x y)
            + nb (fun x y => Rsqr (hY T x y)) x y)).
  { rewrite <- gsum_zero. apply gsum_le. intros x y _ _. unfold nb, Rsqr.
    replace (4 * (hX T x y * hX T x y)
             - 2 * (hX T x y * (hY T (lx x) y + hY T (rx x) y + hY T x (uy y) + hY T x (dy y)))
             + (hY T (lx x) y * hY T (lx x) y + hY T (rx x) y * hY T (rx x) y
                + hY T x (uy y) * hY T x (uy y) + hY T x (dy y) * hY T x (dy y)))
      with (Rsqr (hX T x y - hY T (lx x) y) + Rsqr (hX T x y - hY T (rx x) y)
            + Rsqr (hX T x y - hY T x (uy y)) + Rsqr (hX T x y - hY T x (dy y)))
      by (unfold Rsqr; ring).
    pose proof (Rle_0_sqr (hX T x y - hY T (lx x) y)).
    pose proof (Rle_0_sqr (hX T x y - hY T (rx x) y)).
    pose proof (Rle_0_sqr (hX T x y - hY T x (uy y))).
    pose proof (Rle_0_sqr (hX T x y - hY T x (dy y))).
    lra. }
  assert (Hsplit : gsum (fun x y =>
            4 * Rsqr (hX T x y) - 2 * (hX T x y * nb (hY T) x y)
            + nb (fun x y => Rsqr (hY T x y)) x y)
          = 4 * gsum (fun x y => Rsqr (hX T x y))
            - 2 * gsum (fun x y => hX T x y * nb (hY T) x y)
            + 4 * gsum (fun x y => Rsqr (hY T x y))).
  { rewrite <- Hc, <- !gsum_scal.
    transitivity (gsum (fun x y => (4 * Rsqr (hX T x y)
                     + -2 * (hX T x y * nb (hY T) x y))
                     + nb (fun x y => Rsqr (hY T x y)) x y)).
    { apply gsum_ext. intros. ring. }
    rewrite !gsum_plus, !gsum_scal. ring. }
  assert (Hl : lyapunov d T
          = gsum (fun x y => Rsqr (hX T x y))
            - d / 2 * gsum (fun x y => hX T x y * nb (hY T) x y)
            + d * gsum (fun x y => Rsqr (hY T x y))).
  { unfold lyapunov.
    transitivity (gsum (fun x y => (Rsqr (hX T x y)
                     + - (d / 2) * (hX T x y * nb (hY T) x y))
                     + d * Rsqr (hY T x y))).
    { apply gsum_ext. intros. ring. }
    rewrite !gsum_plus, !gsum_scal. ring. }
  rewrite Hl. rewrite Hsplit in Hpos. nra.
Qed.

Lemma energy_on_grid (T : Texture.t) :
  on_grid T -> energy T = 9 * gsum (fun x y => Rsqr (hX T x y)).
Proof.
  intros (Hw & Hh & _). unfold energy, sum_cells. rewrite Hw, Hh.
  rewrite !Nat2Z.id. fold (gsum (fun x y => Rsqr (decode (vec4_r (Texture.pixels T x y))))).
  rewrite <- gsum_scal. apply gsum_ext. intros x y _ _.
  unfold decode, hX, Rsqr. ring.
Qed.

Lemma lyapunov_at_rest (d : R) (T : Texture.t) :
  (forall x y, (0 <= x < w)%Z -> (0 <= y < h)%Z -> hY T x y = 0) ->
  lyapunov d T = gsum (fun x y => Rsqr (hX T x y)).
Proof.
  intros H0. unfold lyapunov. apply gsum_ext. intros x y Hx Hy.
  unfold nb. rewrite !H0 by auto using lx_range, rx_range, uy_range, dy_range.
  unfold Rsqr. ring.
Qed.

Lemma lyapunov_propagate_n (n : nat) (d : R) (T : Texture.t) :
  on_grid T ->
  on_grid (propagate_n n d T) /\ lyapunov d (propagate_n n d T) = d ^ n * lyapunov d T.
Proof.
  intros HT. induction n as [|k [IHg IHv]]; cbn [propagate_n].
  - split; [exact HT | cbn; ring].
  - split; [apply on_grid_step, IHg|].
    rewrite lyapunov_step by exact IHg. rewrite IHv. cbn. ring.
Qed.

(** The energy after [n] steps, against the energy at the start. *)
Lemma energy_decay_on_grid (n : nat) (d : R) (T : Texture.t) :
  on_grid T -> 0 < d < 1 ->
  (forall x y, (0 <= x < w)%Z -> (0 <= y < h)%Z -> hY T x y = 0) ->
  energy (propagate_n n d T) <= d ^ n * energy T / (1 - d).
Proof.
  intros HT Hd H0.
  destruct (lyapunov_propagate_n n d T HT) as [Hg Hv].
  rewrite (energy_on_grid _ Hg), (energy_on_grid _ HT).
  pose proof (lyapunov_lower d (propagate_n n d T) ltac:(lra)) as Hlow.
  rewrite Hv, (lyapunov_at_rest d T H0) in Hlow.
  set (E0 := gsum (fun x y => Rsqr (hX T x y))) in *.
  set (En := gsum (fun x y => Rsqr (hX (propagate_n n d T) x y))) in *.
  set (p := d ^ n) in *.
  apply Rmult_le_reg_r with (r := 1 - d); [lra|].
  replace (p * (9 * E0) / (1 - d) * (1 - d)) with (9 * (p * E0)) by (field; lra).
  lra.
Qed.

End GridFacts.

(** Any texture of positive dimensions lies on the grid of its size. *)
Lemma on_own_grid (T : Texture.t) :
  (0 < Texture.width T)%Z -> (0 < Texture.height T)%Z ->
  on_grid (Z.to_nat (Texture.width T - 1)) (Z.to_nat (Texture.height T - 1))
          (Texture.wrap_s T) (Texture.wrap_t T) T.
Proof. intros Hw Hh. unfold on_grid. repeat split; lia. Qed.

(** Energy decay from rest: with zero momentum everywhere at the start and a
    damping [d] of [(0, 1)], the energy after [n] steps is at most
    [d ^ n / (1 - d)] times the energy at the start. *)
Lemma energy_decay (n : nat) (d : R) (T : Texture.t) :
  (0 < Texture.width T)%Z -> (0 < Texture.height T)%Z -> 0 < d < 1 ->
  zero_momentum T ->
  energy (propagate_n n d T) <= d ^ n * energy T / (1 - d).
Proof.
  intros Hw Hh Hd H0.
  apply (energy_decay_on_grid _ _ _ _ n d T (on_own_grid T Hw Hh) Hd).
  intros x y _ _. apply H0.
Qed.

Lemma energy_nonneg (T : Texture.t) : 0 <= energy T.
Proof.
  unfold energy, sum_cells.
  set (f := fun y => sum_upto _ _).
  assert (Hs : forall n (g : Z -> R), (forall i, 0 <= g i) -> 0 <= sum_upto n g).
  { induction n as [|k IH]; intros g Hg; cbn [sum_upto]; [lra|].
    specialize (IH g Hg). specialize (Hg (Z.of_nat k)). lra. }
  apply Hs. intros y. apply Hs. intros x. apply Rle_0_sqr.
Qed.

Lemma pow_le_1 (d : R) (n : nat) : 0 < d < 1 -> 0 < d ^ n <= 1.
Proof.
  intros Hd. induction n as [|k IH]; cbn [pow]; [lra|]. nra.
Qed.

Lemma sum_upto_zero (n : nat) : sum_upto n (fun _ => 0) = 0.
Proof. induction n as [|k IH]; cbn [sum_upto]; [|rewrite IH]; ring. Qed.

(** The sum of a function that vanishes off one index. *)
Lemma sum_upto_single (n : nat) (i : Z) (c : R) :
  (0 <= i < Z.of_nat n)%Z ->
  sum_upto n (fun x => if Z.eqb x i then c else 0) = c.
Proof.
  induction n as [|k IH]; intros Hi; [lia|]. cbn [sum_upto].
  destruct (Z.eqb_spec (Z.of_nat k) i) as [E|E].
  - rewrite (sum_upto_ext k _ (fun _ => 0)).
    + rewrite sum_upto_zero. ring.
    + intros x Hx. destruct (Z.eqb_spec x i); [lia | reflexivity].
  - rewrite IH by lia. ring.
Qed.

Lemma impulse_field_energy (w h : Z) (ws wt : Texture.wrap) (i j : Z) (v : R) :
  (0 <= i < w)%Z -> (0 <= j < h)%Z ->
  energy (impulse_field w h ws wt i j v) = Rsqr (decode v).
Proof.
  intros Hi Hj. unfold energy, sum_cells, impulse_field. cbn [Texture.width Texture.height Texture.pixels].
  rewrite (sum_upto_ext _ _ (fun y => if Z.eqb y j then Rsqr (decode v) else 0)).
  - apply sum_upto_single. lia.
  - intros y Hy. destruct (Z.eqb_spec y j) as [->|E].
    + rewrite (sum_upto_ext _ _ (fun x => if Z.eqb x i then Rsqr (decode v) else 0)).
      * apply sum_upto_single. lia.
      * intros x Hx. rewrite andb_true_r.
        destruct (Z.eqb x i); cbn [vec4_r]; [reflexivity|].
        unfold decode, Rsqr. lra.
    + rewrite (sum_upto_ext _ _ (fun _ => 0)); [apply sum_upto_zero|].
      intros x Hx. rewrite andb_comm.
      destruct (Z.eqb_spec y j) as [|_]; [contradiction|]. cbn [andb vec4_r].
      unfold decode, Rsqr. lra.
Qed.

Lemma impulse_field_at_rest (w h : Z) (ws wt : Texture.wrap) (i j : Z) (v : R) :
  zero_momentum (impulse_field w h ws wt i j v).
Proof.
  intros x y. unfold impulse_field. cbn [Texture.pixels].
  destruct (Z.eqb x i && Z.eqb y j)%bool; unfold cell_momentum; cbn; lra.
Qed.


(** ** A field of a single cell *)

Section SingleCell.
Variables ws wt : Texture.wrap.

Let grid := on_grid 0 0 ws wt.

Lemma nb_single (f : Z -> Z -> R) : nb 0 0 ws wt f 0 0 = 4 * f 0%Z 0%Z.
Proof.
  pose proof (lx_range 0 ws 0%Z). pose proof (rx_range 0 ws 0%Z).
  pose proof (uy_range 0 wt 0%Z). pose proof (dy_range 0 wt 0%Z).
  unfold nb.
  replace (lx 0 ws 0) with 0%Z by lia. replace (rx 0 ws 0) with 0%Z by lia.
  replace (uy 0 wt 0) with 0%Z by lia. replace (dy 0 wt 0) with 0%Z by lia.
  ring.
Qed.

Lemma step_single (d : R) (T : Texture.t) :
  grid T ->
  hX (propagation_step d T) 0 0 = d * (2 * hX T 0 0 - hY T 0 0) /\
  hY (propagation_step d T) 0 0 = hX T 0 0.
Proof.
  intros HT. split.
  - rewrite (step_hX 0 0 ws wt) by (try exact HT; lia).
    rewrite nb_single. lra.
  - apply (step_hY 0 0 ws wt); [exact HT | lia | lia].
Qed.

Lemma energy_single (T : Texture.t) : grid T -> energy T = 9 * Rsqr (hX T 0 0).
Proof.
  intros HT. rewrite (energy_on_grid 0 0 ws wt T HT).
  unfold gsum. cbn [sum_upto]. change (Z.of_nat 0) with 0%Z. ring.
Qed.

Lemma grid_propagate_n (n : nat) (d : R) (T : Texture.t) : grid T -> grid (propagate_n n d T).
Proof. intros HT. apply (lyapunov_propagate_n 0 0 ws wt n d T HT). Qed.

(** With damping 1/2 the single cell returns, every eight steps, to one
    sixteenth of its state. *)
Lemma eight_steps (T : Texture.t) :
  grid T ->
  hX (propagate_n 8 (1 / 2) T) 0 0 = hX T 0 0 / 16 /\
  hY (propagate_n 8 (1 / 2) T) 0 0 = hY T 0 0 / 16.
Proof.
  intros HT. cbn [propagate_n].
  repeat match goal with
  | |- context [hX (propagation_step ?d ?U) 0 0] =>
      rewrite (proj1 (step_single d U
                 ltac:(repeat (apply (on_grid_step 0 0 ws wt)); exact HT)))
  | |- context [hY (propagation_step ?d ?U) 0 0] =>
      rewrite (proj2 (step_single d U
                 ltac:(repeat (apply (on_grid_step 0 0 ws wt)); exact HT)))
  end.
  split; lra.
Qed.

Lemma propagate_n_add (n m : nat) (d : R) (T : Texture.t) :
  propagate_n (n + m) d T = propagate_n n d (propagate_n m d T).
Proof. induction n as [|k IH]; cbn [propagate_n Nat.add]; [|rewrite IH]; reflexivity. Qed.

Lemma period_eight (k : nat) (T : Texture.t) :
  grid T ->
  hX (propagate_n (8 * k) (1 / 2) T) 0 0 = hX T 0 0 * (1 / 16) ^ k /\
  hY (propagate_n (8 * k) (1 / 2) T) 0 0 = hY T 0 0 * (1 / 16) ^ k.
Proof.
  intros HT. induction k as [|k [IHx IHy]].
  - cbn. split; ring.
  - replace (8 * S k)%nat with (8 + 8 * k)%nat by lia.
    rewrite propagate_n_add.
    destruct (eight_steps (propagate_n (8 * k) (1 / 2) T)) as [-> ->];
      [apply grid_propagate_n, HT|].
    rewrite IHx, IHy. cbn [pow]. split; lra.
Qed.

(** From a state [(a, 0)] the cell passes through height 0 at the third step
    and through [- a / 4] at the fourth. *)
Lemma third_and_fourth (T : Texture.t) :
  grid T -> hY T 0 0 = 0 ->
  hX (propagate_n 3 (1 / 2) T) 0 0 = 0 /\
  hX (propagate_n 4 (1 / 2) T) 0 0 = - (hX T 0 0) / 4.
Proof.
  intros HT H0. cbn [propagate_n].
  repeat match goal with
  | |- context [hX (propagation_step ?d ?U) 0 0] =>
      rewrite (proj1 (step_single d U
                 ltac:(repeat (apply (on_grid_step 0 0 ws wt)); exact HT)))
  | |- context [hY (propagation_step ?d ?U) 0 0] =>
      rewrite (proj2 (step_single d U
                 ltac:(repeat (apply (on_grid_step 0 0 ws wt)); exact HT)))
  end.
  rewrite H0. split; lra.
Qed.

Lemma single_cell_energy_rises (k : nat) (v : R) :
  v <> 0.5 ->
  let T0 := impulse_field 1 1 ws wt 0 0 v in
  energy (propagate_n (3 + 8 * k) (1 / 2) T0)
  < energy (propagate_n (S (3 + 8 * k)) (1 / 2) T0).
Proof.
  intros Hv T0.
  assert (HT0 : grid T0) by (repeat split).
  assert (Hg : grid (propagate_n (8 * k) (1 / 2) T0)) by apply grid_propagate_n, HT0.
  destruct (period_eight k T0 HT0) as [Hx Hy].
  assert (Hy0 : hY T0 0 0 = 0) by (unfold hY, cell_momentum; cbn; lra).
  assert (Hx0 : hX T0 0 0 = 2 * v - 1) by (unfold hX; cbn; lra).
  rewrite Hy0 in Hy. rewrite Hx0 in Hx.
  destruct (third_and_fourth (propagate_n (8 * k) (1 / 2) T0) Hg) as [H3 H4];
    [rewrite Hy; ring|].
  change (S (3 + 8 * k)) with (4 + 8 * k)%nat.
  rewrite !propagate_n_add.
  rewrite !energy_single by apply grid_propagate_n, Hg.
  rewrite H3, H4, Hx.
  assert (Hp : 0 < (1 / 16) ^ k) by (apply pow_lt; lra).
  unfold Rsqr.
  assert (Hne : (2 * v - 1) * (1 / 16) ^ k <> 0) by (apply Rmult_integral_contrapositive; split; lra).
  set (a := (2 * v - 1) * (1 / 16) ^ k) in *.
  assert (0 < a * a) by (destruct (Rtotal_order a 0) as [|[|]]; [nra | contradiction | nra]).
  lra.
Qed.

End SingleCell.

(** The neighbour indices of a concrete cell, computed. *)
Ltac neighbours :=
  unfold Field.nb;
  repeat match goal with
  | |- context [Field.lx ?k ?m ?i] =>
      let t := eval vm_compute in (Field.lx k m i) in change (Field.lx k m i) with t
  | |- context [Field.rx ?k ?m ?i] =>
      let t := eval vm_compute in (Field.rx k m i) in change (Field.rx k m i) with t
  | |- context [Field.uy ?k ?m ?i] =>
      let t := eval vm_compute in (Field.uy k m i) in change (Field.uy k m i) with t
  | |- context [Field.dy ?k ?m ?i] =>
      let t := eval vm_compute in (Field.dy k m i) in change (Field.dy k m i) with t
  end.

(** On a 3 by 3 field with the impulse 0.6 at its centre, under the damping
    of [Waves], the energy of the second step exceeds the energy of the
    first step, and the energy of the impulse itself. *)
Lemma energy_rises_3x3 :
  let T0 := impulse_field 3 3 Texture.CLAMP_TO_EDGE Texture.CLAMP_TO_EDGE 1 1 0.6 in
  energy (propagate_n 1 Waves.DAMPING T0) < energy (propagate_n 2 Waves.DAMPING T0) /\
  energy T0 < energy (propagate_n 2 Waves.DAMPING T0).
Proof.
  intros T0. cbn [propagate_n].
  set (d := Waves.DAMPING).
  assert (G0 : Field.on_grid 2 2 Texture.CLAMP_TO_EDGE Texture.CLAMP_TO_EDGE T0)
    by (repeat split).
  assert (G1 : Field.on_grid 2 2 Texture.CLAMP_TO_EDGE Texture.CLAMP_TO_EDGE
                 (propagation_step d T0)) by (repeat split).
  assert (G2 : Field.on_grid 2 2 Texture.CLAMP_TO_EDGE Texture.CLAMP_TO_EDGE
                 (propagation_step d (propagation_step d T0))) by (repeat split).
  rewrite (energy_on_grid _ _ _ _ _ G0), (energy_on_grid _ _ _ _ _ G1),
    (energy_on_grid _ _ _ _ _ G2).
  unfold Field.gsum. cbn [sum_upto].
  change (Z.of_nat 0) with 0%Z. change (Z.of_nat 1) with 1%Z. change (Z.of_nat 2) with 2%Z.
  rewrite !(step_hX 2 2 Texture.CLAMP_TO_EDGE Texture.CLAMP_TO_EDGE d (propagation_step d T0))
    by (try exact G1; lia).
  neighbours.
  rewrite !(step_hY 2 2 Texture.CLAMP_TO_EDGE Texture.CLAMP_TO_EDGE d T0)
    by (try exact G0; lia).
  rewrite !(step_hX 2 2 Texture.CLAMP_TO_EDGE Texture.CLAMP_TO_EDGE d T0)
    by (try exact G0; lia).
  neighbours.
  unfold hX, hY, cell_momentum, T0, impulse_field. cbn [Texture.pixels].
  cbn [Z.eqb Pos.eqb andb vec4_r vec4_g vec4_b].
  unfold Rsqr, d, Waves.DAMPING. split; lra.
Qed.



(** ** The drivers *)

Section DriverFacts.
Variable covered :
  (vec2 -> vec4) -> option WebGL.buffer_id -> option WebGL.buffer_id -> Z -> Z -> Z -> bool.
Variable applyInfluences : WaterPlane.t -> WebGL.state -> WebGL.state.
Variable this : Waves.t.

Local Abbreviation call := (Waves.call covered).
Local Abbreviation propagate := (Waves.propagate covered applyInfluences this).
Local Abbreviation propagate_script := (Waves.propagate_script covered applyInfluences this).
Local Abbreviation render := (Waves.render covered this).
Local Abbreviation render_script := (Waves.render_script covered this).
Local Abbreviation before_draw := (Waves.before_draw covered applyInfluences this).

Lemma states_invariant (P : WaterPlane.t -> Prop) (script : list stmt) :
  (forall p, P p -> P (WaterPlane.flip p)) ->
  Forall keeps_or_flips script ->
  forall W, P (water W) -> Forall (fun S => P (water S)) (states script W).
Proof.
  intros Hflip Hs. induction Hs as [|s rest Hk _ IH]; intros W HW; cbn [states].
  - constructor; [exact HW | constructor].
  - constructor; [exact HW|]. apply IH.
    destruct (Hk W) as [-> | ->]; [exact HW | apply Hflip, HW].
Qed.

Lemma propagate_script_keeps_or_flips (mesh : Mesh.t) :
  Forall keeps_or_flips (propagate_script mesh).
Proof.
  unfold Waves.propagate_script.
  (repeat (apply List.Forall_cons; [intros W; first [left; reflexivity | right; reflexivity] |])).
  apply List.Forall_nil.
Qed.

Lemma render_script_keeps (bg : WebGL.texture_id) (mesh : Mesh.t) (width height scale time : R) :
  Forall (fun s : stmt => forall W, water (s W) = water W)
         (render_script bg mesh width height scale time).
Proof. repeat constructor. Qed.

Lemma propagate_water (mesh : Mesh.t) (W : World) :
  water (propagate mesh W) = WaterPlane.flip (water W).
Proof. reflexivity. Qed.

Lemma render_water (bg : WebGL.texture_id) (mesh : Mesh.t) (width height scale time : R) (W : World) :
  water (render bg mesh width height scale time W) = water W.
Proof. reflexivity. Qed.

(** What a call does to the bindings of the context. *)
Lemma exec_framebuffer (c : WebGL.call) (s : WebGL.state) :
  WebGL.framebuffer (WebGL.exec covered c s)
  = match c with WebGL.bindFramebuffer t => t | _ => WebGL.framebuffer s end.
Proof.
  destruct c; cbn [WebGL.exec]; unfold WebGL.set_uniform, WebGL.set_buffer, WebGL.draw;
    repeat case_match; cbn; congruence.
Qed.

Lemma exec_active_texture (c : WebGL.call) (s : WebGL.state) :
  WebGL.active_texture (WebGL.exec covered c s)
  = match c with WebGL.activeTexture u => u | _ => WebGL.active_texture s end.
Proof.
  destruct c; cbn [WebGL.exec]; unfold WebGL.set_uniform, WebGL.set_buffer, WebGL.draw;
    repeat case_match; cbn; congruence.
Qed.

Lemma exec_texture_binding (c : WebGL.call) (s : WebGL.state) :
  WebGL.texture_binding (WebGL.exec covered c s)
  = match c with
    | WebGL.bindTexture t => <[WebGL.active_texture s := t]> (WebGL.texture_binding s)
    | _ => WebGL.texture_binding s
    end.
Proof.
  destruct c; cbn [WebGL.exec]; unfold WebGL.set_uniform, WebGL.set_buffer, WebGL.draw;
    repeat case_match; cbn; congruence.
Qed.

(** The three components of the world after each kind of statement. *)
Lemma gl_call (c : WebGL.call) (W : World) : gl (call c W) = WebGL.exec covered c (gl W).
Proof. reflexivity. Qed.
Lemma water_call (c : WebGL.call) (W : World) : water (call c W) = water W.
Proof. reflexivity. Qed.
Lemma trace_call (c : WebGL.call) (W : World) : trace (call c W) = trace W ++ [GL c].
Proof. reflexivity. Qed.
Lemma gl_water_flip (W : World) : gl (Waves.water_flip W) = gl W.
Proof. reflexivity. Qed.
Lemma water_water_flip (W : World) : water (Waves.water_flip W) = WaterPlane.flip (water W).
Proof. reflexivity. Qed.
Lemma trace_water_flip (W : World) : trace (Waves.water_flip W) = trace W ++ [Flip].
Proof. reflexivity. Qed.
Lemma gl_applyInfluences (W : World) :
  gl (Waves.wavePainter_applyInfluences applyInfluences W) = applyInfluences (water W) (gl W).
Proof. reflexivity. Qed.
Lemma water_applyInfluences (W : World) :
  water (Waves.wavePainter_applyInfluences applyInfluences W) = water W.
Proof. reflexivity. Qed.
Lemma trace_applyInfluences (W : World) :
  trace (Waves.wavePainter_applyInfluences applyInfluences W) = trace W ++ [ApplyInfluences].
Proof. reflexivity. Qed.

Lemma propagate_trace (mesh : Mesh.t) (W : World) :
  let front := WaterPlane.getFront (WaterPlane.flip (water W)) in
  let back := WaterPlane.getBack (WaterPlane.flip (water W)) in
  let p := Waves.programPropagate this in
  trace (propagate mesh W) =
    trace W ++
    [ GL (Shader.use p);
      Flip;
      GL (RenderTarget.target front);
      GL (WebGL.clearColor 0.5 0.5 0 0);
      GL WebGL.clear;
      GL (WebGL.uniform2f (Shader.location p "size")
            (IZR (WaterPlane.width (water W))) (IZR (WaterPlane.height (water W))));
      GL (WebGL.uniform1f (Shader.location p "scale") (WaterPlane.SCALE (water W)));
      GL (WebGL.uniform1f (Shader.location p "damping") Waves.DAMPING);
      GL (WebGL.bindBuffer WebGL.ARRAY_BUFFER (Mesh.vertices mesh));
      GL (WebGL.bindBuffer WebGL.ELEMENT_ARRAY_BUFFER (Mesh.indices mesh));
      GL (WebGL.enableVertexAttribArray "position");
      GL (WebGL.vertexAttribPointer "position" 2 8 0);
      GL (WebGL.activeTexture 0);
      GL (WebGL.bindTexture (RenderTarget.texture back));
      GL (WebGL.texParameteri WebGL.TEXTURE_MIN_FILTER Texture.NEAREST);
      GL (WebGL.texParameteri WebGL.TEXTURE_MAG_FILTER Texture.NEAREST);
      GL (WebGL.drawElements (Mesh.indexCount mesh));
      GL (WebGL.texParameteri WebGL.TEXTURE_MIN_FILTER Texture.LINEAR);
      GL (WebGL.texParameteri WebGL.TEXTURE_MAG_FILTER Texture.LINEAR);
      ApplyInfluences ].
Proof.
  intros front back p.
  unfold Waves.propagate, run, Waves.propagate_script. cbn [fold_left].
  repeat rewrite ?trace_call, ?trace_water_flip, ?trace_applyInfluences,
    ?water_call, ?water_water_flip, ?water_applyInfluences.
  rewrite <- !app_assoc. reflexivity.
Qed.

Lemma before_draw_framebuffer (mesh : Mesh.t) (W : World) :
  WebGL.framebuffer (gl (before_draw mesh W))
  = Some (RenderTarget.texture (WaterPlane.getFront (WaterPlane.flip (water W)))).
Proof.
  unfold Waves.before_draw, run, Waves.propagate_script. cbn [firstn fold_left].
  repeat rewrite ?gl_call, ?gl_water_flip, ?water_call, ?water_water_flip.
  repeat (rewrite exec_framebuffer; cbv beta iota).
  reflexivity.
Qed.

Lemma before_draw_unit_0 (mesh : Mesh.t) (W : World) :
  WebGL.bound_texture (gl (before_draw mesh W)) 0
  = Some (RenderTarget.texture (WaterPlane.getBack (WaterPlane.flip (water W)))).
Proof.
  unfold Waves.before_draw, run, Waves.propagate_script. cbn [firstn fold_left].
  repeat rewrite ?gl_call, ?gl_water_flip, ?water_call, ?water_water_flip.
  unfold WebGL.bound_texture.
  repeat (rewrite exec_texture_binding; cbv beta iota).
  repeat (rewrite exec_active_texture; cbv beta iota).
  apply lookup_insert_eq.
Qed.

(** C6, amended.  [propagate] calls [flip()] first, before anything is bound
    or drawn; with the roles as that flip leaves them, it makes the front
    buffer the render target and binds the back buffer's texture to unit 0
    for the reads, and only then draws.  Between the flip and the end of the
    call the roles do not change again. *)
Theorem propagate_flips_then_binds_then_draws (mesh : Mesh.t) (W : World) :
  let front := WaterPlane.getFront (WaterPlane.flip (water W)) in
  let back := WaterPlane.getBack (WaterPlane.flip (water W)) in
  (exists bound drawn,
     trace (propagate mesh W) =
       trace W ++ [GL (Shader.use (Waves.programPropagate this)); Flip]
       ++ bound ++ [GL (WebGL.drawElements (Mesh.indexCount mesh))] ++ drawn /\
     In (GL (RenderTarget.target front)) bound /\
     In (GL (WebGL.bindTexture (RenderTarget.texture back))) bound /\
     ~ In Flip bound /\ ~ In Flip drawn) /\
  water (before_draw mesh W) = WaterPlane.flip (water W) /\
  WebGL.framebuffer (gl (before_draw mesh W)) = Some (RenderTarget.texture front) /\
  WebGL.bound_texture (gl (before_draw mesh W)) 0 = Some (RenderTarget.texture back) /\
  water (propagate mesh W) = WaterPlane.flip (water W).
Proof.
  intros front back. split; [|split; [|split; [|split]]].
  - pose proof (propagate_trace mesh W) as H. cbv zeta in H.
    exists
      [ GL (RenderTarget.target front);
        GL (WebGL.clearColor 0.5 0.5 0 0);
        GL WebGL.clear;
        GL (WebGL.uniform2f (Shader.location (Waves.programPropagate this) "size")
              (IZR (WaterPlane.width (water W))) (IZR (WaterPlane.height (water W))));
        GL (WebGL.uniform1f (Shader.location (Waves.programPropagate this) "scale")
              (WaterPlane.SCALE (water W)));
        GL (WebGL.uniform1f (Shader.location (Waves.programPropagate this) "damping")
              Waves.DAMPING);
        GL (WebGL.bindBuffer WebGL.ARRAY_BUFFER (Mesh.vertices mesh));
        GL (WebGL.bindBuffer WebGL.ELEMENT_ARRAY_BUFFER (Mesh.indices mesh));
        GL (WebGL.enableVertexAttribArray "position");
        GL (WebGL.vertexAttribPointer "position" 2 8 0);
        GL (WebGL.activeTexture 0);
        GL (WebGL.bindTexture (RenderTarget.texture back));
        GL (WebGL.texParameteri WebGL.TEXTURE_MIN_FILTER Texture.NEAREST);
        GL (WebGL.texParameteri WebGL.TEXTURE_MAG_FILTER Texture.NEAREST) ],
      [ GL (WebGL.texParameteri WebGL.TEXTURE_MIN_FILTER Texture.LINEAR);
        GL (WebGL.texParameteri WebGL.TEXTURE_MAG_FILTER Texture.LINEAR);
        ApplyInfluences ].
    split; [exact H|].
    cbn [In]. repeat split.
    + auto.
    + do 11 right. left. reflexivity.
    + intros Hin. repeat (destruct Hin as [Hin | Hin]; [discriminate Hin|]). exact Hin.
    + intros Hin. repeat (destruct Hin as [Hin | Hin]; [discriminate Hin|]). exact Hin.
  - reflexivity.
  - apply before_draw_framebuffer.
  - apply before_draw_unit_0.
  - reflexivity.
Qed.

(** What one flip does to the roles. *)
Lemma getFront_flip (p : WaterPlane.t) :
  WaterPlane.getFront (WaterPlane.flip p) = WaterPlane.getBack p.
Proof. destruct p as [? ? ? ? ? []]; reflexivity. Qed.

Lemma getBack_flip (p : WaterPlane.t) :
  WaterPlane.getBack (WaterPlane.flip p) = WaterPlane.getFront p.
Proof. destruct p as [? ? ? ? ? []]; reflexivity. Qed.

Lemma roles_apart_flip (p : WaterPlane.t) :
  WaterPlane.roles_apart p -> WaterPlane.roles_apart (WaterPlane.flip p).
Proof.
  unfold WaterPlane.roles_apart. rewrite getFront_flip, getBack_flip. intros H E. auto.
Qed.

Lemma distinct_roles_apart (p : WaterPlane.t) :
  WaterPlane.distinct p -> WaterPlane.roles_apart p.
Proof.
  unfold WaterPlane.distinct, WaterPlane.roles_apart, WaterPlane.getFront, WaterPlane.getBack.
  destruct (WaterPlane.front p); intros H E; auto.
Qed.

(** C2.  After [propagate] the buffer that was the front is the back and
    the buffer that was the back is the front; and in every state the world
    passes through during a [propagate] or a [render], and after a [flip],
    the front buffer and the back buffer are two different buffers. *)
Theorem propagate_swaps_front_and_back (mesh : Mesh.t) (background : WebGL.texture_id)
    (width height scale time : R) (W : World) :
  WaterPlane.distinct (water W) ->
  WaterPlane.getFront (water (propagate mesh W)) = WaterPlane.getBack (water W) /\
  WaterPlane.getBack (water (propagate mesh W)) = WaterPlane.getFront (water W) /\
  Forall (fun S => WaterPlane.roles_apart (water S)) (states (propagate_script mesh) W) /\
  Forall (fun S => WaterPlane.roles_apart (water S))
         (states (render_script background mesh width height scale time) W) /\
  WaterPlane.roles_apart (WaterPlane.flip (water W)).
Proof.
  intros Hd. pose proof (distinct_roles_apart _ Hd) as Hr.
  rewrite propagate_water, getFront_flip, getBack_flip.
  repeat split.
  - apply states_invariant;
      [exact roles_apart_flip | apply propagate_script_keeps_or_flips | exact Hr].
  - apply states_invariant; [exact roles_apart_flip | | exact Hr].
    eapply List.Forall_impl; [|apply render_script_keeps].
    intros s Hs W0. left. apply Hs.
  - apply roles_apart_flip, Hr.
Qed.

Lemma exec_current_program (c : WebGL.call) (s : WebGL.state) :
  WebGL.current_program (WebGL.exec covered c s)
  = match c with WebGL.useProgram p => Some p | _ => WebGL.current_program s end.
Proof.
  destruct c; cbn [WebGL.exec]; unfold WebGL.set_uniform, WebGL.set_buffer, WebGL.draw;
    repeat case_match; cbn; congruence.
Qed.

Lemma exec_textures (c : WebGL.call) (s : WebGL.state) :
  WebGL.leaves_textures c -> WebGL.textures (WebGL.exec covered c s) = WebGL.textures s.
Proof.
  destruct c; cbn [WebGL.leaves_textures WebGL.exec]; intros H; try contradiction;
    unfold WebGL.set_uniform, WebGL.set_buffer; repeat case_match; reflexivity.
Qed.

Lemma exec_canvas (c : WebGL.call) (s : WebGL.state) :
  WebGL.framebuffer s <> None -> WebGL.canvas (WebGL.exec covered c s) = WebGL.canvas s.
Proof.
  intros H.
  destruct c; cbn [WebGL.exec]; unfold WebGL.set_uniform, WebGL.set_buffer, WebGL.draw;
    repeat case_match; cbn; congruence.
Qed.

Lemma exec_uniforms (c : WebGL.call) (s : WebGL.state) :
  WebGL.uniforms (WebGL.exec covered c s)
  = match c with
    | WebGL.uniform1f l v => WebGL.uniforms (WebGL.set_uniform l (WebGL.Float v) s)
    | WebGL.uniform2f l x y => WebGL.uniforms (WebGL.set_uniform l (WebGL.Float2 x y) s)
    | WebGL.uniform1i l i => WebGL.uniforms (WebGL.set_uniform l (WebGL.Int i) s)
    | _ => WebGL.uniforms s
    end.
Proof.
  destruct c; cbn [WebGL.exec]; unfold WebGL.set_buffer, WebGL.draw;
    repeat case_match; cbn; congruence.
Qed.

Lemma uniforms_set_uniform (l : WebGL.location) (v : WebGL.value) (s : WebGL.state)
    (p : WebGL.program) :
  WebGL.current_program s = Some p -> WebGL.program_name p = fst l ->
  WebGL.uniforms (WebGL.set_uniform l v s) = <[l := v]> (WebGL.uniforms s).
Proof.
  intros Hp Hl. unfold WebGL.set_uniform. rewrite Hp, Hl, Pos.eqb_refl. reflexivity.
Qed.

(** What a draw does to the textures. *)
Lemma draw_textures (count : Z) (s : WebGL.state) (t : WebGL.texture_id) :
  WebGL.framebuffer s <> Some t ->
  WebGL.textures (WebGL.draw covered count s) !! t = WebGL.textures s !! t.
Proof.
  intros H. unfold WebGL.draw. repeat case_match; cbn; try reflexivity.
  apply lookup_alter_ne. congruence.
Qed.

Lemma draw_textures_feedback (count : Z) (s : WebGL.state) (p : WebGL.program)
    (t : WebGL.texture_id) :
  WebGL.current_program s = Some p -> WebGL.framebuffer s = Some t ->
  WebGL.feedback_loop s p t = true ->
  WebGL.draw covered count s = s.
Proof. intros Hp Hf Hl. unfold WebGL.draw. rewrite Hp, Hf, Hl. reflexivity. Qed.

Lemma draw_framebuffer (count : Z) (s : WebGL.state) :
  WebGL.framebuffer (WebGL.draw covered count s) = WebGL.framebuffer s.
Proof. exact (exec_framebuffer (WebGL.drawElements count) s). Qed.

Lemma draw_canvas (count : Z) (s : WebGL.state) :
  WebGL.framebuffer s <> None ->
  WebGL.canvas (WebGL.draw covered count s) = WebGL.canvas s.
Proof. exact (exec_canvas (WebGL.drawElements count) s). Qed.

Lemma draw_to_canvas (count : Z) (s : WebGL.state) :
  WebGL.framebuffer s = None ->
  WebGL.textures (WebGL.draw covered count s) = WebGL.textures s.
Proof. intros Hf. unfold WebGL.draw. rewrite Hf. case_match; reflexivity. Qed.

Lemma exec_clear_color (c : WebGL.call) (s : WebGL.state) :
  WebGL.clear_color (WebGL.exec covered c s)
  = match c with WebGL.clearColor r g b a => Vec4 r g b a | _ => WebGL.clear_color s end.
Proof.
  destruct c; cbn [WebGL.exec]; unfold WebGL.set_uniform, WebGL.set_buffer, WebGL.draw;
    repeat case_match; cbn; congruence.
Qed.

Lemma exec_clear_textures (s : WebGL.state) (t : WebGL.texture_id) :
  WebGL.framebuffer s = Some t ->
  WebGL.textures (WebGL.exec covered WebGL.clear s)
  = alter (Texture.set_pixels (fun _ _ => WebGL.clear_color s)) t (WebGL.textures s).
Proof. intros H. cbn [WebGL.exec]. rewrite H. reflexivity. Qed.

Lemma exec_texParameteri_textures (pname : WebGL.texture_parameter) (f : Texture.filter)
    (s : WebGL.state) (t : WebGL.texture_id) :
  WebGL.bound_texture s (WebGL.active_texture s) = Some t ->
  WebGL.textures (WebGL.exec covered (WebGL.texParameteri pname f) s)
  = alter (match pname with
           | WebGL.TEXTURE_MIN_FILTER => Texture.set_min_filter f
           | WebGL.TEXTURE_MAG_FILTER => Texture.set_mag_filter f
           end) t (WebGL.textures s).
Proof. intros H. cbn [WebGL.exec]. rewrite H. reflexivity. Qed.

End DriverFacts.

(** ** [render] *)

Section RenderFacts.
Variable covered :
  (vec2 -> vec4) -> option WebGL.buffer_id -> option WebGL.buffer_id -> Z -> Z -> Z -> bool.
Variables distort propagate : WebGL.program_id.
Variable background : WebGL.texture_id.
Variable mesh : Mesh.t.
Variables width height scale time : R.
Variable W : World.

Let this : Waves.t := Waves.create distort propagate.
Let p : WebGL.program := Waves.distort_program distort.
Let front : WebGL.texture_id := RenderTarget.texture (WaterPlane.getFront (water W)).
Let back : WebGL.texture_id := RenderTarget.texture (WaterPlane.getBack (water W)).

Local Abbreviation render_before_draw :=
  (Waves.render_before_draw covered this background mesh width height scale time W).

Lemma render_is_draw :
  gl (Waves.render covered this background mesh width height scale time W)
  = WebGL.draw covered (Mesh.indexCount mesh) render_before_draw.
Proof. reflexivity. Qed.

Ltac open_render :=
  unfold Waves.render_before_draw, run, Waves.render_script; cbn [firstn fold_left];
  repeat rewrite ?gl_call, ?water_call.

Lemma render_before_draw_program : WebGL.current_program render_before_draw = Some p.
Proof.
  open_render. repeat (rewrite exec_current_program; cbv beta iota). reflexivity.
Qed.

Lemma render_before_draw_framebuffer :
  WebGL.framebuffer render_before_draw = WebGL.framebuffer (gl W).
Proof.
  open_render. repeat (rewrite exec_framebuffer; cbv beta iota). reflexivity.
Qed.

Lemma render_before_draw_textures :
  WebGL.textures render_before_draw = WebGL.textures (gl W).
Proof.
  open_render. repeat (rewrite exec_textures by exact I). reflexivity.
Qed.

Lemma render_before_draw_binding :
  WebGL.texture_binding render_before_draw
  = <[2%Z := front]> (<[1%Z := back]> (<[0%Z := background]> (WebGL.texture_binding (gl W)))).
Proof.
  open_render.
  repeat (rewrite ?exec_texture_binding, ?exec_active_texture; cbv beta iota).
  reflexivity.
Qed.

Lemma render_before_draw_uniforms :
  WebGL.uniforms render_before_draw
  = <[(distort, "time") := WebGL.Float time]>
    (<[(distort, "waterSize") :=
         WebGL.Float2 (IZR (WaterPlane.width (water W))) (IZR (WaterPlane.height (water W)))]>
    (<[(distort, "size") := WebGL.Float2 width height]>
    (<[(distort, "depth") := WebGL.Float (Waves.DEPTH * scale)]>
    (<[(distort, "waterFront") := WebGL.Int 2]>
    (<[(distort, "waterBack") := WebGL.Int 1]>
    (<[(distort, "background") := WebGL.Int 0]>
    (<[(distort, "scale") := WebGL.Float scale]> (WebGL.uniforms (gl W))))))))).
Proof.
  open_render.
  repeat first
    [ rewrite exec_uniforms; cbv beta iota
    | rewrite (uniforms_set_uniform _ _ _ p)
        by (try reflexivity; repeat (rewrite exec_current_program; cbv beta iota); reflexivity) ].
  reflexivity.
Qed.

Lemma render_sampled_textures :
  WebGL.sampled_textures render_before_draw p = [background; back; front].
Proof.
  unfold WebGL.sampled_textures, WebGL.bound_texture, WebGL.int, WebGL.env_of.
  cbn [WebGL.sampler_uniforms WebGL.uniform WebGL.program_name p Waves.distort_program omap
       list_omap].
  rewrite render_before_draw_uniforms, render_before_draw_binding.
  set (U := <[(distort, "time") := _]> _).
  set (B := <[2%Z := front]> _).
  assert (H0 : U !! (distort, "background") = Some (WebGL.Int 0)).
  { unfold U. repeat (rewrite lookup_insert_ne by (intros [=])). apply lookup_insert_eq. }
  assert (H1 : U !! (distort, "waterBack") = Some (WebGL.Int 1)).
  { unfold U. repeat (rewrite lookup_insert_ne by (intros [=])). apply lookup_insert_eq. }
  assert (H2 : U !! (distort, "waterFront") = Some (WebGL.Int 2)).
  { unfold U. repeat (rewrite lookup_insert_ne by (intros [=])). apply lookup_insert_eq. }
  assert (B0 : B !! 0%Z = Some background).
  { unfold B. repeat (rewrite lookup_insert_ne by lia). apply lookup_insert_eq. }
  assert (B1 : B !! 1%Z = Some back).
  { unfold B. repeat (rewrite lookup_insert_ne by lia). apply lookup_insert_eq. }
  assert (B2 : B !! 2%Z = Some front).
  { unfold B. apply lookup_insert_eq. }
  rewrite H0, H1, H2, B0, B1, B2. reflexivity.
Qed.

(** C9.  [render] mutates no simulation state: the roles of the water
    plane's buffers and the contents of its two height-field buffers are as
    before, the bound framebuffer is as before, and no texture other than the
    one attached to the bound framebuffer is written; with a texture bound as
    the target the canvas is not written either.  (Were one of the two
    height-field buffers itself the bound target, the draw would sample its
    own target, and the context rejects such a draw.) *)
Theorem render_mutates_no_simulation_state :
  let W' := Waves.render covered this background mesh width height scale time W in
  water W' = water W /\
  WebGL.framebuffer (gl W') = WebGL.framebuffer (gl W) /\
  WebGL.textures (gl W') !! front = WebGL.textures (gl W) !! front /\
  WebGL.textures (gl W') !! back = WebGL.textures (gl W) !! back /\
  (forall t, WebGL.framebuffer (gl W) <> Some t ->
             WebGL.textures (gl W') !! t = WebGL.textures (gl W) !! t) /\
  (WebGL.framebuffer (gl W) <> None -> WebGL.canvas (gl W') = WebGL.canvas (gl W)).
Proof.
  intros W'.
  assert (Hother : forall t, WebGL.framebuffer (gl W) <> Some t ->
            WebGL.textures (gl W') !! t = WebGL.textures (gl W) !! t).
  { intros t Ht. unfold W'. rewrite render_is_draw, draw_textures.
    - rewrite render_before_draw_textures. reflexivity.
    - rewrite render_before_draw_framebuffer. exact Ht. }
  assert (Hsampled : forall t, In t [background; back; front] ->
            WebGL.textures (gl W') !! t = WebGL.textures (gl W) !! t).
  { intros t Ht.
    destruct (decide (WebGL.framebuffer (gl W) = Some t)) as [E|E]; [|apply Hother, E].
    unfold W'. rewrite render_is_draw.
    rewrite (draw_textures_feedback covered _ _ p t).
    - rewrite render_before_draw_textures. reflexivity.
    - apply render_before_draw_program.
    - rewrite render_before_draw_framebuffer. exact E.
    - unfold WebGL.feedback_loop. rewrite render_sampled_textures.
      apply existsb_exists. exists t. split; [exact Ht | apply Pos.eqb_refl]. }
  repeat split.
  - unfold W'. rewrite render_is_draw.
    rewrite draw_framebuffer. apply render_before_draw_framebuffer.
  - apply Hsampled. cbn. auto.
  - apply Hsampled. cbn. auto.
  - exact Hother.
  - intros Hf. unfold W'. rewrite render_is_draw.
    rewrite draw_canvas by (rewrite render_before_draw_framebuffer; exact Hf).
    unfold Waves.render_before_draw, run, Waves.render_script. cbn [firstn fold_left].
    repeat rewrite ?gl_call, ?water_call.
    repeat (rewrite exec_canvas
              by (repeat (rewrite exec_framebuffer; cbv beta iota); exact Hf)).
    reflexivity.
Qed.

End RenderFacts.

(** ** The draw call of [propagate] *)

Section PropagateDraw.
Variable covered :
  (vec2 -> vec4) -> option WebGL.buffer_id -> option WebGL.buffer_id -> Z -> Z -> Z -> bool.
Variable applyInfluences : WaterPlane.t -> WebGL.state -> WebGL.state.
Variables distort propagate : WebGL.program_id.
Variable mesh : Mesh.t.
Variable W : World.
Variables Tb Tf : Texture.t.

Let this : Waves.t := Waves.create distort propagate.
Let p : WebGL.program := Waves.propagate_program propagate.
Let front : WebGL.texture_id :=
  RenderTarget.texture (WaterPlane.getFront (WaterPlane.flip (water W))).
Let back : WebGL.texture_id :=
  RenderTarget.texture (WaterPlane.getBack (WaterPlane.flip (water W))).

Hypothesis buffers_distinct : WaterPlane.distinct (water W).
Hypothesis back_texture : WebGL.textures (gl W) !! back = Some Tb.
Hypothesis front_texture : WebGL.textures (gl W) !! front = Some Tf.
Hypothesis back_width : Texture.width Tb = WaterPlane.width (water W).
Hypothesis back_height : Texture.height Tb = WaterPlane.height (water W).
Hypothesis source_unset : WebGL.uniforms (gl W) !! (propagate, "source"%string) = None.

Local Abbreviation at_draw := (gl (Waves.before_draw covered applyInfluences this mesh W)).

Ltac open_before_draw :=
  unfold Waves.before_draw, run, Waves.propagate_script; cbn [firstn fold_left];
  repeat rewrite ?gl_call, ?gl_water_flip, ?water_call, ?water_water_flip.

Lemma front_back_differ : front <> back.
Proof.
  apply (roles_apart_flip (water W)), distinct_roles_apart, buffers_distinct.
Qed.

Lemma before_draw_program : WebGL.current_program at_draw = Some p.
Proof.
  open_before_draw. repeat (rewrite exec_current_program; cbv beta iota). reflexivity.
Qed.

Lemma before_draw_uniforms :
  WebGL.uniforms at_draw
  = <[(propagate, "damping"%string) := WebGL.Float Waves.DAMPING]>
    (<[(propagate, "scale"%string) := WebGL.Float (WaterPlane.SCALE (water W))]>
    (<[(propagate, "size"%string) :=
         WebGL.Float2 (IZR (WaterPlane.width (water W))) (IZR (WaterPlane.height (water W)))]>
       (WebGL.uniforms (gl W)))).
Proof.
  open_before_draw.
  repeat first
    [ rewrite exec_uniforms; cbv beta iota
    | rewrite (uniforms_set_uniform _ _ _ p)
        by (try reflexivity; repeat (rewrite exec_current_program; cbv beta iota); reflexivity) ].
  reflexivity.
Qed.

Lemma before_draw_textures :
  WebGL.textures at_draw
  = alter (Texture.set_mag_filter Texture.NEAREST) back
      (alter (Texture.set_min_filter Texture.NEAREST) back
         (alter (Texture.set_pixels (fun _ _ => Vec4 0.5 0.5 0 0)) front
            (WebGL.textures (gl W)))).
Proof.
  open_before_draw.
  rewrite (exec_texParameteri_textures _ _ _ _ back).
  2: { unfold WebGL.bound_texture.
       repeat (rewrite exec_texture_binding; cbv beta iota).
       repeat (rewrite exec_active_texture; cbv beta iota).
       apply lookup_insert_eq. }
  rewrite (exec_texParameteri_textures _ _ _ _ back).
  2: { unfold WebGL.bound_texture.
       repeat (rewrite exec_texture_binding; cbv beta iota).
       repeat (rewrite exec_active_texture; cbv beta iota).
       apply lookup_insert_eq. }
  repeat (rewrite exec_textures by exact I).
  rewrite (exec_clear_textures _ _ front)
    by (repeat (rewrite exec_framebuffer; cbv beta iota); reflexivity).
  repeat (rewrite exec_clear_color; cbv beta iota).
  repeat (rewrite exec_textures by exact I).
  reflexivity.
Qed.

Lemma before_draw_back : WebGL.textures at_draw !! back
  = Some (Texture.set_mag_filter Texture.NEAREST (Texture.set_min_filter Texture.NEAREST Tb)).
Proof.
  pose proof front_back_differ as Hne.
  rewrite before_draw_textures, !lookup_alter_eq, lookup_alter_ne, back_texture by exact Hne.
  reflexivity.
Qed.

Lemma before_draw_front : WebGL.textures at_draw !! front
  = Some (Texture.set_pixels (fun _ _ => Vec4 0.5 0.5 0 0) Tf).
Proof.
  pose proof front_back_differ as Hne.
  rewrite before_draw_textures, !lookup_alter_ne, lookup_alter_eq, front_texture by congruence.
  reflexivity.
Qed.

Lemma before_draw_source : WebGL.sampler (WebGL.env_of at_draw p) "source" = Texture.nearest Tb.
Proof.
  unfold WebGL.sampler, WebGL.int, WebGL.env_of.
  cbn [WebGL.uniform WebGL.unit_sampler WebGL.program_name p Waves.propagate_program].
  rewrite before_draw_uniforms.
  rewrite !lookup_insert_ne by (intros [=]). rewrite source_unset.
  unfold WebGL.sampler_of_unit.
  rewrite (before_draw_unit_0 covered applyInfluences this mesh W).
  fold back. rewrite before_draw_back. reflexivity.
Qed.

Lemma before_draw_size :
  WebGL.float2 (WebGL.env_of at_draw p) "size" = Vec2 (IZR (Texture.width Tb)) (IZR (Texture.height Tb)).
Proof.
  unfold WebGL.float2, WebGL.env_of.
  cbn [WebGL.uniform WebGL.program_name p Waves.propagate_program].
  rewrite before_draw_uniforms.
  rewrite !lookup_insert_ne by (intros [=]). rewrite lookup_insert_eq.
  rewrite back_width, back_height. reflexivity.
Qed.

Lemma before_draw_damping : WebGL.float (WebGL.env_of at_draw p) "damping" = Waves.DAMPING.
Proof.
  unfold WebGL.float, WebGL.env_of.
  cbn [WebGL.uniform WebGL.program_name p Waves.propagate_program].
  rewrite before_draw_uniforms, lookup_insert_eq. reflexivity.
Qed.

Lemma before_draw_no_feedback : WebGL.feedback_loop at_draw p front = false.
Proof.
  unfold WebGL.feedback_loop, WebGL.sampled_textures, WebGL.int, WebGL.env_of.
  cbn [WebGL.sampler_uniforms WebGL.uniform WebGL.program_name p Waves.propagate_program
       omap list_omap].
  rewrite before_draw_uniforms.
  rewrite !lookup_insert_ne by (intros [=]). rewrite source_unset.
  rewrite (before_draw_unit_0 covered applyInfluences this mesh W). fold back.
  cbn [existsb]. rewrite orb_false_r. apply Pos.eqb_neq, front_back_differ.
Qed.

(** The draw call of [propagate] is one propagation step: on the pixels the
    mesh covers, the render target receives the step of the field it reads,
    under the damping of [Waves]; elsewhere it keeps the cleared, neutral
    state. *)
Lemma propagate_draw_is_propagation_step :
  exists T',
    WebGL.textures (WebGL.draw covered (Mesh.indexCount mesh) at_draw) !! front = Some T' /\
    forall x y,
      Texture.pixels T' x y =
      if covered (WebGL.vertex_shader p (WebGL.env_of at_draw p)) (WebGL.array_buffer at_draw)
                 (WebGL.element_array_buffer at_draw) (Mesh.indexCount mesh) x y
      then Texture.pixels (Field.propagation_step Waves.DAMPING Tb) x y
      else Vec4 0.5 0.5 0 0.
Proof.
  unfold WebGL.draw.
  rewrite before_draw_program, (before_draw_framebuffer covered applyInfluences this mesh W).
  fold front. rewrite before_draw_no_feedback.
  cbn [WebGL.textures WebGL.set_textures].
  rewrite lookup_alter_eq, before_draw_front. cbn [fmap option_fmap option_map].
  eexists. split; [reflexivity|].
  intros x y. cbn [Texture.pixels Texture.set_pixels]. unfold WebGL.shade.
  destruct (covered _ _ _ _ x y); [|reflexivity].
  cbn [WebGL.fragment_shader p Waves.propagate_program].
  rewrite before_draw_source, before_draw_size, before_draw_damping.
  reflexivity.
Qed.

End PropagateDraw.

(** C2 at the scene: its two buffers are the textures 1 and 2. *)
Lemma propagate_swaps_front_and_back_witness :
  WaterPlane.getFront (water (Waves.propagate Demo.covered Demo.applyInfluences Demo.waves
                                Demo.mesh Demo.world))
  = RenderTarget.Make 2%positive.
Proof.
  exact (proj1 (propagate_swaps_front_and_back Demo.covered Demo.applyInfluences Demo.waves
                  Demo.mesh 3%positive 4 4 1 0 Demo.world
                  ltac:(unfold WaterPlane.distinct; cbn; discriminate))).
Defined.

(** C6, as stated, fails: in the trace of a [propagate] call the flip is the
    second event and the draw the seventeenth, so the flip is not "only
    after the draw". *)
Lemma flip_precedes_draw :
  let tr := trace (Waves.propagate Demo.covered Demo.applyInfluences Demo.waves
                     Demo.mesh Demo.world) in
  tr !! 1%nat = Some Flip /\
  tr !! 16%nat = Some (GL (WebGL.drawElements 6)) /\
  ~ (forall i j : nat,
       tr !! i = Some Flip -> tr !! j = Some (GL (WebGL.drawElements 6)) -> (j < i)%nat).
Proof.
  cbv zeta.
  rewrite (propagate_trace Demo.covered Demo.applyInfluences Demo.waves Demo.mesh Demo.world).
  cbn [trace Demo.world app].
  split; [reflexivity|]. split; [reflexivity|].
  intros H. specialize (H 1%nat 16%nat eq_refl eq_refl). lia.
Qed.

(** ** [Card.initialize] *)

Lemma initialize_when_initialized (preview : Card.Preview) (atlas : Card.Atlas)
    (bodies : Card.Bodies) (palettes : Card.Palettes)
    (randomSource : option Card.RandomSource) (W : Card.World) :
  Card.initialized (Card.card W) = true ->
  Card.initialize preview atlas bodies palettes randomSource W = W.
Proof. intros H. unfold Card.initialize. rewrite H. reflexivity. Qed.

Lemma initialize_sets_initialized (preview : Card.Preview) (atlas : Card.Atlas)
    (bodies : Card.Bodies) (palettes : Card.Palettes)
    (randomSource : option Card.RandomSource) (W : Card.World) :
  Card.initialized (Card.card (Card.initialize preview atlas bodies palettes randomSource W))
  = true.
Proof.
  unfold Card.initialize. destruct (Card.initialized (Card.card W)) eqn:E; [exact E|].
  reflexivity.
Qed.

(** No call but [free] clears the flag. *)
Lemma exec_keeps_initialized (c : Card.call) (W : Card.World) :
  c <> Card.Free ->
  Card.initialized (Card.card W) = true ->
  Card.initialized (Card.card (Card.exec c W)) = true.
Proof.
  intros Hc H. destruct c; cbn [Card.exec]; try exact H; try contradiction.
  - apply initialize_sets_initialized.
  - unfold Card.blob_ready. rewrite H. exact H.
Qed.

Lemma run_keeps_initialized (calls : list Card.call) (W : Card.World) :
  ~ In Card.Free calls ->
  Card.initialized (Card.card W) = true ->
  Card.initialized (Card.card (Card.run calls W)) = true.
Proof.
  revert W. induction calls as [|c rest IH]; intros W Hfree H; [exact H|].
  cbn [Card.run fold_left]. apply IH.
  - intros Hin. apply Hfree. right. exact Hin.
  - apply exec_keeps_initialized; [|exact H].
    intros ->. apply Hfree. left. reflexivity.
Qed.

(** C10, amended.  Once [initialize] has run, and for as long as [free] has
    not been called since, every further call of [initialize], whatever its
    arguments, returns at once and leaves the card and its collaborators as
    they are: no atlas write, no preview render, no further name element. *)
Theorem initialize_idempotent_until_free
    (first again : Card.call) (calls : list Card.call) (W : Card.World) :
  (exists preview atlas bodies palettes randomSource,
     first = Card.Initialize preview atlas bodies palettes randomSource) ->
  (exists preview atlas bodies palettes randomSource,
     again = Card.Initialize preview atlas bodies palettes randomSource) ->
  ~ In Card.Free calls ->
  let W' := Card.run (first :: calls) W in
  Card.exec again W' = W' /\
  Card.name (Card.card (Card.exec again W')) = Card.name (Card.card W') /\
  Card.effects (Card.exec again W') = Card.effects W'.
Proof.
  intros (p1 & a1 & b1 & l1 & r1 & ->) (p2 & a2 & b2 & l2 & r2 & ->) Hfree W'.
  assert (H : Card.exec (Card.Initialize p2 a2 b2 l2 r2) W' = W').
  { cbn [Card.exec]. apply initialize_when_initialized.
    unfold W'. cbn [Card.run fold_left Card.exec].
    apply (run_keeps_initialized calls); [exact Hfree|].
    apply initialize_sets_initialized. }
  rewrite H. repeat split.
Qed.

Lemma initialize_idempotent_until_free_witness :
  let W' := Card.run [Card.first_call; Card.MoveTo 1 2; Card.BlobReady 7%positive]
                     Card.fresh in
  Card.exec (Card.Initialize 2%positive Card.atlas_1 2%positive Card.palettes_koi
                             (Some 5%positive)) W' = W'.
Proof.
  exact (proj1 (initialize_idempotent_until_free Card.first_call
           (Card.Initialize 2%positive Card.atlas_1 2%positive Card.palettes_koi
                            (Some 5%positive))
           [Card.MoveTo 1 2; Card.BlobReady 7%positive] Card.fresh
           ltac:(do 5 eexists; reflexivity) ltac:(do 5 eexists; reflexivity)
           ltac:(cbn; intros [H|[H|[]]]; discriminate H))).
Defined.

(** C10, as stated, fails: [free] clears the flag, and [initialize] after
    [initialize] and [free] runs in full again: it writes the atlas and
    renders the preview a second time and appends a second name element. *)
Lemma initialize_after_free_runs_again :
  let W1 := Card.run [Card.first_call; Card.Free] Card.fresh in
  let W2 := Card.exec Card.first_call W1 in
  Card.name (Card.card W1) = ["Koi"%string] /\
  Card.name (Card.card W2) = ["Koi"%string; "Koi"%string] /\
  List.length (Card.effects W1) = 4%nat /\
  List.length (Card.effects W2) = 8%nat /\
  W2 <> W1.
Proof.
  cbv zeta.
  assert (H1 : Card.name (Card.card (Card.run [Card.first_call; Card.Free] Card.fresh))
               = ["Koi"%string]) by reflexivity.
  assert (H2 : Card.name (Card.card (Card.exec Card.first_call
                 (Card.run [Card.first_call; Card.Free] Card.fresh)))
               = ["Koi"%string; "Koi"%string]) by reflexivity.
  repeat split; try assumption; try reflexivity.
  intros E. rewrite E in H2. rewrite H1 in H2. discriminate H2.
Qed.

(** * Further properties of [Waves] *)

(** ** The vertex shaders *)

(** X1.  The two vertex shaders are the same map.  For a positive [size],
    a vertex lies in the clip-space square [[-1, 1]] on an axis exactly when
    its scaled position lies in [[0, size]] on that axis; the origin of the
    plane goes to the corner [(-1, 1)] and the far corner [size / scale] to
    [(1, -1)] (the vertical axis is flipped); [z] is 0 and [w] is 1. *)
Theorem vertex_shaders_map_the_plane (scale sx sy px py : R) :
  0 < sx -> 0 < sy ->
  let v := Waves.SHADER_DISTORT_VERTEX scale (Vec2 sx sy) (Vec2 px py) in
  Waves.SHADER_PROPAGATE_VERTEX (Vec2 sx sy) scale (Vec2 px py) = v /\
  vec4_b v = 0 /\ vec4_a v = 1 /\
  (-1 <= vec4_r v <= 1 <-> 0 <= scale * px <= sx) /\
  (-1 <= vec4_g v <= 1 <-> 0 <= scale * py <= sy) /\
  (scale * px = 0 -> vec4_r v = -1) /\ (scale * px = sx -> vec4_r v = 1) /\
  (scale * py = 0 -> vec4_g v = 1) /\ (scale * py = sy -> vec4_g v = -1).
Proof.
  intros Hx Hy v.
  assert (Er : vec4_r v = 2 * (scale * px) / sx - 1).
  { unfold v, Waves.SHADER_DISTORT_VERTEX. cbn. field. lra. }
  assert (Eg : vec4_g v = 1 - 2 * (scale * py) / sy).
  { unfold v, Waves.SHADER_DISTORT_VERTEX. cbn. field. lra. }
  assert (Dx : forall a, a / sx * sx = a) by (intros; field; lra).
  assert (Dy : forall a, a / sy * sy = a) by (intros; field; lra).
  assert (Px : 0 < / sx) by (apply Rinv_0_lt_compat; exact Hx).
  assert (Py : 0 < / sy) by (apply Rinv_0_lt_compat; exact Hy).
  split; [reflexivity|]. split; [reflexivity|]. split; [reflexivity|].
  rewrite Er, Eg. clear Er Eg. unfold Rdiv in *.
  set (qx := scale * px) in *. set (qy := scale * py) in *.
  assert (Ix : qx = qx * / sx * sx) by (symmetry; apply Dx).
  assert (Iy : qy = qy * / sy * sy) by (symmetry; apply Dy).
  assert (Qx : 2 * qx * / sx = 2 * (qx * / sx)) by ring.
  assert (Qy : 2 * qy * / sy = 2 * (qy * / sy)) by ring.
  rewrite Qx, Qy.
  split; [|split; [|split; [|split; [|split]]]].
  - split.
    + intros [H1 H2]. split.
      * rewrite Ix. apply Rmult_le_pos; lra.
      * assert (H : qx * / sx <= 1) by lra.
        apply (Rmult_le_compat_r sx) in H; lra.
    + intros [H1 H2].
      assert (H0 : 0 <= qx * / sx) by (apply Rmult_le_pos; lra).
      assert (H : qx * / sx <= sx * / sx) by (apply Rmult_le_compat_r; lra).
      rewrite Rinv_r in H by lra. lra.
  - split.
    + intros [H1 H2]. split.
      * rewrite Iy. apply Rmult_le_pos; lra.
      * assert (H : qy * / sy <= 1) by lra.
        apply (Rmult_le_compat_r sy) in H; lra.
    + intros [H1 H2].
      assert (H0 : 0 <= qy * / sy) by (apply Rmult_le_pos; lra).
      assert (H : qy * / sy <= sy * / sy) by (apply Rmult_le_compat_r; lra).
      rewrite Rinv_r in H by lra. lra.
  - intros E. rewrite E. ring.
  - intros E. rewrite E. field. lra.
  - intros E. rewrite E. ring.
  - intros E. rewrite E. field. lra.
Qed.

Lemma vertex_shaders_map_the_plane_witness :
  Waves.SHADER_PROPAGATE_VERTEX (Vec2 4 4) 2 (Vec2 1 2)
  = Waves.SHADER_DISTORT_VERTEX 2 (Vec2 4 4) (Vec2 1 2).
Proof.
  exact (proj1 (vertex_shaders_map_the_plane 2 4 4 1 2 ltac:(lra) ltac:(lra))).
Defined.

(** ** The water at rest *)

(** X2.  Water at rest stays at rest: when every texel holds the neutral
    state [(0.5, 0.5, 0, 0)], one propagation step writes the neutral state
    at every pixel again, for every damping, grid size and wrap mode. *)
Theorem rest_is_a_fixed_point (d : R) (T : Texture.t) :
  (forall x y, Texture.pixels T x y = Vec4 0.5 0.5 0 0) ->
  forall x y, Texture.pixels (Field.propagation_step d T) x y = Vec4 0.5 0.5 0 0.
Proof.
  intros H x y. unfold Field.propagation_step. cbn [Texture.pixels Texture.set_pixels].
  unfold Waves.SHADER_PROPAGATE_FRAGMENT, Waves.Propagate.gl_FragColor,
    Waves.Propagate.newHeight, Waves.Propagate.momentum, Waves.Propagate.state,
    Waves.Propagate.hLeft, Waves.Propagate.hRight, Waves.Propagate.hUp,
    Waves.Propagate.hDown, texture2D, Texture.nearest, Texture.texel.
  rewrite !H. cbn. apply vec4_eq; try reflexivity. lra.
Qed.

Lemma rest_is_a_fixed_point_witness :
  Texture.pixels (Field.propagation_step Waves.DAMPING Demo.at_rest) 1 2 = Vec4 0.5 0.5 0 0.
Proof.
  exact (rest_is_a_fixed_point Waves.DAMPING Demo.at_rest ltac:(intros; reflexivity) 1%Z 2%Z).
Defined.

(** ** The water-surface shading *)

Section ShadingFacts.
Variables background waterBack waterFront : sampler2D.
Variable depth : R.
Variables size waterSize : vec2.
Variable fc : vec2.

Lemma get_at_time_0 (front' : sampler2D) (delta : vec2) :
  Waves.Distort.get waterBack waterFront size waterSize 0 fc delta
  = Waves.Distort.get waterBack front' size waterSize 0 fc delta.
Proof. unfold Waves.Distort.get. rewrite !mix_zero. reflexivity. Qed.

Lemma get_at_time_1 (back' : sampler2D) (delta : vec2) :
  Waves.Distort.get waterBack waterFront size waterSize 1 fc delta
  = Waves.Distort.get back' waterFront size waterSize 1 fc delta.
Proof. unfold Waves.Distort.get, mix. ring. Qed.

(** X3.  At [time = 0] the distort fragment reads the back buffer only,
    and at [time = 1] the front buffer only: the output colour does not
    change when the other buffer is replaced by any other sampler. *)
Theorem frame_endpoints_read_one_buffer (other : sampler2D) :
  Waves.SHADER_DISTORT_FRAGMENT background waterBack waterFront depth size waterSize 0 fc
  = Waves.SHADER_DISTORT_FRAGMENT background waterBack other depth size waterSize 0 fc /\
  Waves.SHADER_DISTORT_FRAGMENT background waterBack waterFront depth size waterSize 1 fc
  = Waves.SHADER_DISTORT_FRAGMENT background other waterFront depth size waterSize 1 fc.
Proof.
  split.
  - assert (N : Waves.Distort.normal waterBack waterFront size waterSize 0 fc
                = Waves.Distort.normal waterBack other size waterSize 0 fc).
    { unfold Waves.Distort.normal, Waves.Distort.dyx, Waves.Distort.dyz.
      rewrite !(get_at_time_0 other). reflexivity. }
    unfold Waves.SHADER_DISTORT_FRAGMENT, Waves.Distort.gl_FragColor, Waves.Distort.pixel,
      Waves.Distort.pixel_sample, Waves.Distort.displacement, Waves.Distort.shiny,
      Waves.Distort.shiny_dot.
    rewrite N. reflexivity.
  - assert (N : Waves.Distort.normal waterBack waterFront size waterSize 1 fc
                = Waves.Distort.normal other waterFront size waterSize 1 fc).
    { unfold Waves.Distort.normal, Waves.Distort.dyx, Waves.Distort.dyz.
      rewrite !(get_at_time_1 other). reflexivity. }
    unfold Waves.SHADER_DISTORT_FRAGMENT, Waves.Distort.gl_FragColor, Waves.Distort.pixel,
      Waves.Distort.pixel_sample, Waves.Distort.displacement, Waves.Distort.shiny,
      Waves.Distort.shiny_dot.
    rewrite N. reflexivity.
Qed.

Variable time : R.

Local Abbreviation dyx := (Waves.Distort.dyx waterBack waterFront size waterSize time fc).
Local Abbreviation dyz := (Waves.Distort.dyz waterBack waterFront size waterSize time fc).
Local Abbreviation normal := (Waves.Distort.normal waterBack waterFront size waterSize time fc).
Local Abbreviation shiny_dot :=
  (Waves.Distort.shiny_dot waterBack waterFront size waterSize time fc).
Local Abbreviation shiny := (Waves.Distort.shiny waterBack waterFront size waterSize time fc).

Lemma slope_length_pos (a : R) : 0 < sqrt (2 * 2 + a * a + 0 * 0).
Proof. apply sqrt_lt_R0. nra. Qed.

Lemma slope_length_sqr (a : R) :
  sqrt (2 * 2 + a * a + 0 * 0) * sqrt (2 * 2 + a * a + 0 * 0) = 4 + a * a.
Proof. rewrite sqrt_sqrt by nra. ring. Qed.

Lemma normal_closed_form :
  let la := sqrt (2 * 2 + dyx * dyx + 0 * 0) in
  let lb := sqrt (2 * 2 + dyz * dyz + 0 * 0) in
  normal = Vec3 (2 * dyx / (la * lb)) (-4 / (la * lb)) (2 * dyz / (la * lb)).
Proof.
  intros la lb.
  pose proof (slope_length_pos dyx) as Ha. pose proof (slope_length_pos dyz) as Hb.
  fold la in Ha. fold lb in Hb.
  unfold Waves.Distort.normal, cross, normalize, length, dot.
  cbn [vec3_x vec3_y vec3_z].
  replace (2 * 2 + dyx * dyx + 0 * 0) with (2 * 2 + dyx * dyx + 0 * 0) by reflexivity.
  replace (0 * 0 + dyz * dyz + 2 * 2) with (2 * 2 + dyz * dyz + 0 * 0) by ring.
  fold la lb. f_equal; field; lra.
Qed.

Lemma shiny_dot_closed_form :
  let la := sqrt (2 * 2 + dyx * dyx + 0 * 0) in
  let lb := sqrt (2 * 2 + dyz * dyz + 0 * 0) in
  let lc := sqrt (1 * 1 + 0 * 0 + 1 * 1) in
  shiny_dot = 2 * (dyx + dyz) / (la * lb * lc).
Proof.
  intros la lb lc.
  pose proof (slope_length_pos dyx) as Ha. pose proof (slope_length_pos dyz) as Hb.
  fold la in Ha. fold lb in Hb.
  assert (Hc : 0 < lc) by (apply sqrt_lt_R0; lra).
  unfold Waves.Distort.shiny_dot. rewrite normal_closed_form. fold la lb.
  unfold dot, normalize, length, dot. cbn [vec3_x vec3_y vec3_z]. fold lc.
  field. lra.
Qed.

Lemma shine_bounds :
  vec3_y normal < 0 /\
  (0 < shiny_dot <-> 0 < dyx + dyz) /\
  (shiny_dot < 0 <-> dyx + dyz < 0) /\
  Rsqr shiny_dot <= 1 / 2 /\
  -0.36 <= shiny <= 1.07.
Proof.
  pose proof (slope_length_pos dyx) as Ha. pose proof (slope_length_pos dyz) as Hb.
  pose proof (slope_length_sqr dyx) as Sa. pose proof (slope_length_sqr dyz) as Sb.
  assert (Hc : 0 < sqrt (1 * 1 + 0 * 0 + 1 * 1)) by (apply sqrt_lt_R0; lra).
  assert (Sc : sqrt (1 * 1 + 0 * 0 + 1 * 1) * sqrt (1 * 1 + 0 * 0 + 1 * 1) = 2)
    by (rewrite sqrt_sqrt by lra; ring).
  pose proof shiny_dot_closed_form as Es. cbv zeta in Es.
  pose proof normal_closed_form as En. cbv zeta in En.
  set (la := sqrt (2 * 2 + dyx * dyx + 0 * 0)) in *.
  set (lb := sqrt (2 * 2 + dyz * dyz + 0 * 0)) in *.
  set (lc := sqrt (1 * 1 + 0 * 0 + 1 * 1)) in *.
  set (a := dyx) in *. set (b := dyz) in *.
  assert (HD : 0 < la * lb * lc) by (repeat apply Rmult_lt_0_compat; assumption).
  assert (HI : 0 < / (la * lb * lc)) by (apply Rinv_0_lt_compat; exact HD).
  assert (Hsq : Rsqr shiny_dot <= 1 / 2).
  { rewrite Es. unfold Rsqr.
    replace (2 * (a + b) / (la * lb * lc) * (2 * (a + b) / (la * lb * lc)))
      with (4 * (a + b) * (a + b) / ((la * la) * (lb * lb) * (lc * lc))) by (field; lra).
    rewrite Sa, Sb, Sc.
    apply Rmult_le_reg_r with (r := (4 + a * a) * (4 + b * b) * 2); [nra|].
    unfold Rdiv. rewrite Rmult_assoc, Rinv_l by nra.
    pose proof (Rle_0_sqr (a * b - 4)) as Q. unfold Rsqr in Q. nra. }
  assert (Hlo : -0.7072 <= shiny_dot <= 0.7072).
  { unfold Rsqr in Hsq. split; nra. }
  assert (Back : 2 * (a + b) * / (la * lb * lc) * (la * lb * lc) = 2 * (a + b))
    by (rewrite Rmult_assoc, Rinv_l, Rmult_1_r by lra; reflexivity).
  split; [|split; [|split; [|split; [exact Hsq|]]]].
  - rewrite En. cbn [vec3_y]. unfold Rdiv.
    assert (0 < / (la * lb)) by (apply Rinv_0_lt_compat, Rmult_lt_0_compat; assumption).
    nra.
  - rewrite Es. unfold Rdiv. split; intros H.
    + assert (H1 : 0 < 2 * (a + b) * / (la * lb * lc) * (la * lb * lc))
        by (apply Rmult_lt_0_compat; assumption).
      rewrite Back in H1. lra.
    + apply Rmult_lt_0_compat; lra.
  - rewrite Es. unfold Rdiv. split; intros H.
    + assert (H1 : 2 * (a + b) * / (la * lb * lc) * (la * lb * lc) < 0 * (la * lb * lc))
        by (apply Rmult_lt_compat_r; assumption).
      rewrite Back in H1. lra.
    + assert (H1 : 0 < (- (2 * (a + b))) * / (la * lb * lc))
        by (apply Rmult_lt_0_compat; lra).
      lra.
  - unfold Waves.Distort.shiny.
    destruct (Rlt_dec shiny_dot 0); [lra|].
    destruct (Rgt_dec shiny_dot 0.5); lra.
Qed.

Local Abbreviation displacement :=
  (Waves.Distort.displacement waterBack waterFront depth size waterSize time fc).
Local Abbreviation pixel_sample :=
  (Waves.Distort.pixel_sample background waterBack waterFront depth size waterSize time fc).

Lemma normal_within_unit : -1 <= vec3_x normal <= 1 /\ -1 <= vec3_z normal <= 1.
Proof.
  pose proof (slope_length_pos dyx) as Ha. pose proof (slope_length_pos dyz) as Hb.
  pose proof (slope_length_sqr dyx) as Sa. pose proof (slope_length_sqr dyz) as Sb.
  pose proof normal_closed_form as En. cbv zeta in En. rewrite En. cbn [vec3_x vec3_z].
  set (la := sqrt (2 * 2 + dyx * dyx + 0 * 0)) in *.
  set (lb := sqrt (2 * 2 + dyz * dyz + 0 * 0)) in *.
  set (a := dyx) in *. set (b := dyz) in *.
  assert (HD : 0 < la * lb) by (apply Rmult_lt_0_compat; assumption).
  assert (Hsq : forall c, c * c <= 4 + c * c) by (intros; lra).
  assert (Bound : forall c, 4 * (c * c) <= (la * lb) * (la * lb) ->
                            -1 <= 2 * c / (la * lb) <= 1).
  { intros c Hc.
    assert (Q : Rsqr (2 * c / (la * lb)) <= 1).
    { unfold Rsqr.
      replace (2 * c / (la * lb) * (2 * c / (la * lb)))
        with (4 * (c * c) / ((la * lb) * (la * lb))) by (field; lra).
      apply Rmult_le_reg_r with (r := (la * lb) * (la * lb)); [nra|].
      unfold Rdiv. rewrite Rmult_assoc, Rinv_l by nra. lra. }
    unfold Rsqr in Q. split; nra. }
  assert (Prod : (la * lb) * (la * lb) = (4 + a * a) * (4 + b * b)).
  { rewrite <- Sa, <- Sb. ring. }
  split; apply Bound; rewrite Prod.
  - pose proof (Rle_0_sqr b) as Qb. pose proof (Rle_0_sqr a) as Qa. unfold Rsqr in *. nra.
  - pose proof (Rle_0_sqr b) as Qb. pose proof (Rle_0_sqr a) as Qa. unfold Rsqr in *. nra.
Qed.

(** X5.  The refraction is bounded by the depth: for a positive [size] and
    a depth that is not negative, the background is sampled at most [depth]
    pixels away from the fragment's own position on each axis. *)
Theorem refraction_stays_within_depth :
  0 < vec2_x size -> 0 < vec2_y size -> 0 <= depth ->
  Rabs (vec2_x displacement * vec2_x size) <= depth /\
  Rabs (vec2_y displacement * vec2_y size) <= depth.
Proof.
  intros Hx Hy Hd.
  destruct normal_within_unit as [Nx Nz].
  unfold Waves.Distort.displacement, div2, scale2, vec3_xz. cbn [vec2_x vec2_y].
  split.
  - replace (depth * vec3_x normal / vec2_x size * vec2_x size) with (depth * vec3_x normal)
      by (field; lra).
    apply Rabs_le. split; nra.
  - replace (depth * vec3_z normal / vec2_y size * vec2_y size) with (depth * vec3_z normal)
      by (field; lra).
    apply Rabs_le. split; nra.
Qed.

(** X6.  When the sampled background pixel is fully transparent (and so
    replaced by white) or fully opaque, the output colour is fully opaque,
    whatever the shading term is. *)
Theorem opaque_background_gives_opaque_water :
  vec4_a pixel_sample = 0 \/ vec4_a pixel_sample = 1 ->
  vec4_a (Waves.SHADER_DISTORT_FRAGMENT background waterBack waterFront depth size waterSize
            time fc) = 1.
Proof.
  intros H.
  unfold Waves.SHADER_DISTORT_FRAGMENT, Waves.Distort.gl_FragColor, Waves.Distort.pixel.
  destruct (Req_dec_T (vec4_a pixel_sample) 0) as [E|E].
  - unfold Waves.Distort.filter, Waves.Distort.sky, vec4_all, mix4, mul4, mix.
    cbn [vec4_a]. ring.
  - destruct H as [H|H]; [contradiction|].
    unfold Waves.Distort.filter, Waves.Distort.sky, mix4, mul4, mix.
    cbn [vec4_a]. rewrite H. ring.
Qed.

End ShadingFacts.

(** *** An evenly sloping surface *)

Lemma slope_get (size : vec2) (time : R) (fc delta : vec2) :
  Waves.Distort.get Ripple.slope Ripple.slope size (Vec2 2 2) time fc delta
  = (vec2_x fc / vec2_x size + vec2_x delta / 2
     + (vec2_y fc / vec2_y size + vec2_y delta / 2)) / 3 * 6 - 3.
Proof. unfold Waves.Distort.get, texture2D. rewrite mix_same. reflexivity. Qed.

Lemma slope_dyx (size : vec2) (time : R) (fc : vec2) :
  Waves.Distort.dyx Ripple.slope Ripple.slope size (Vec2 2 2) time fc = 2 /\
  Waves.Distort.dyz Ripple.slope Ripple.slope size (Vec2 2 2) time fc = 2.
Proof.
  unfold Waves.Distort.dyx, Waves.Distort.dyz. rewrite !slope_get.
  cbn [vec2_x vec2_y]. split; lra.
Qed.

Lemma slope_normal (size : vec2) (time : R) (fc : vec2) :
  Waves.Distort.normal Ripple.slope Ripple.slope size (Vec2 2 2) time fc
  = Vec3 0.5 (-0.5) 0.5.
Proof.
  pose proof (normal_closed_form Ripple.slope Ripple.slope size (Vec2 2 2) fc time) as E.
  cbv zeta in E. rewrite E. clear E.
  destruct (slope_dyx size time fc) as [-> ->].
  pose proof (slope_length_sqr 2) as S. pose proof (slope_length_pos 2) as P.
  set (l := sqrt (2 * 2 + 2 * 2 + 0 * 0)) in *.
  assert (I : / (l * l) = / 8) by (rewrite S; f_equal; ring).
  unfold Rdiv. rewrite I. f_equal; lra.
Qed.

Lemma slope_shiny (size : vec2) (time : R) (fc : vec2) :
  1 < Waves.Distort.shiny Ripple.slope Ripple.slope size (Vec2 2 2) time fc.
Proof.
  assert (Hc : 0 < sqrt 2) by (apply sqrt_lt_R0; lra).
  assert (Sc : sqrt 2 * sqrt 2 = 2) by (apply sqrt_sqrt; lra).
  assert (Hi : 0 < / sqrt 2) by (apply Rinv_0_lt_compat, Hc).
  assert (Ii : sqrt 2 * / sqrt 2 = 1) by (apply Rinv_r; lra).
  assert (E : Waves.Distort.shiny_dot Ripple.slope Ripple.slope size (Vec2 2 2) time fc
              = / sqrt 2).
  { unfold Waves.Distort.shiny_dot. rewrite slope_normal.
    unfold dot, normalize, length, dot. cbn [vec3_x vec3_y vec3_z].
    replace (1 * 1 + 0 * 0 + 1 * 1) with 2 by ring. unfold Rdiv. lra. }
  unfold Waves.Distort.shiny. rewrite E.
  destruct (Rlt_dec (/ sqrt 2) 0); [lra|].
  destruct (Rgt_dec (/ sqrt 2) 0.5) as [_|N]; nra.
Qed.

(** X4.  Whatever the two buffers hold, the [y] component of the surface
    normal is negative, the shading term before its adjustment has the sign
    of [dyx + dyz] (positive with it, negative with it) and a square of at
    most 1/2, and the adjusted term lies between -0.36 and 1.07.  It does
    exceed 1: on a surface that slopes evenly with [dyx = dyz = 2] the
    adjusted term is above 1, so the blend towards the sky colour
    overshoots. *)
Theorem water_normal_and_shine_bounds
    (waterBack waterFront : sampler2D) (size waterSize fc : vec2) (time : R) :
  let dyx := Waves.Distort.dyx waterBack waterFront size waterSize time fc in
  let dyz := Waves.Distort.dyz waterBack waterFront size waterSize time fc in
  let normal := Waves.Distort.normal waterBack waterFront size waterSize time fc in
  let shiny_dot := Waves.Distort.shiny_dot waterBack waterFront size waterSize time fc in
  let shiny := Waves.Distort.shiny waterBack waterFront size waterSize time fc in
  vec3_y normal < 0 /\
  (0 < shiny_dot <-> 0 < dyx + dyz) /\
  (shiny_dot < 0 <-> dyx + dyz < 0) /\
  Rsqr shiny_dot <= 1 / 2 /\
  -0.36 <= shiny <= 1.07 /\
  (Waves.Distort.dyx Ripple.slope Ripple.slope size (Vec2 2 2) time fc = 2 /\
   Waves.Distort.dyz Ripple.slope Ripple.slope size (Vec2 2 2) time fc = 2 /\
   1 < Waves.Distort.shiny Ripple.slope Ripple.slope size (Vec2 2 2) time fc).
Proof.
  cbv zeta.
  destruct (shine_bounds waterBack waterFront size waterSize fc time)
    as (H1 & H2 & H3 & H4 & H5).
  destruct (slope_dyx size time fc) as [D1 D2].
  pose proof (slope_shiny size time fc) as S.
  repeat (split; [assumption|]). repeat split; assumption.
Qed.

(** The background behind an evenly sloping surface is read exactly half
    the depth away on each axis. *)
Lemma refraction_stays_within_depth_witness :
  let d := Waves.Distort.displacement Ripple.slope Ripple.slope Waves.DEPTH (Vec2 16 16)
             (Vec2 2 2) 0.25 (frag_coord 3 5) in
  vec2_x d * vec2_x (Vec2 16 16) = 0.05 /\
  Rabs (vec2_x d * vec2_x (Vec2 16 16)) <= Waves.DEPTH /\
  Rabs (vec2_y d * vec2_y (Vec2 16 16)) <= Waves.DEPTH.
Proof.
  cbv zeta. split.
  - unfold Waves.Distort.displacement. rewrite slope_normal.
    unfold div2, scale2, vec3_xz, Waves.DEPTH. cbn [vec2_x vec2_y vec3_x vec3_z]. lra.
  - exact (refraction_stays_within_depth Ripple.slope Ripple.slope Waves.DEPTH (Vec2 16 16)
             (Vec2 2 2) (frag_coord 3 5) 0.25
             ltac:(cbn; lra) ltac:(cbn; lra) ltac:(unfold Waves.DEPTH; lra)).
Defined.

Lemma opaque_background_gives_opaque_water_witness :
  let rest : sampler2D := fun _ => Vec4 0.5 0.5 0 0 in
  let grey : sampler2D := fun _ => Vec4 0.5 0.5 0.5 1 in
  vec4_a (Waves.SHADER_DISTORT_FRAGMENT grey rest rest Waves.DEPTH (Vec2 16 16) (Vec2 4 4)
            0.25 (frag_coord 3 5)) = 1.
Proof.
  exact (opaque_background_gives_opaque_water (fun _ => Vec4 0.5 0.5 0.5 1)
           (fun _ => Vec4 0.5 0.5 0 0) (fun _ => Vec4 0.5 0.5 0 0) Waves.DEPTH (Vec2 16 16)
           (Vec2 4 4) (frag_coord 3 5) 0.25 (or_intror eq_refl)).
Defined.

(** ** The damped wave from any start *)

Section AnyStart.
Variable T : Texture.t.
Hypothesis width_pos : (0 < Texture.width T)%Z.
Hypothesis height_pos : (0 < Texture.height T)%Z.

Local Abbreviation kw := (Z.to_nat (Texture.width T - 1)).
Local Abbreviation kh := (Z.to_nat (Texture.height T - 1)).
Local Abbreviation V := (Field.lyapunov kw kh (Texture.wrap_s T) (Texture.wrap_t T)).

Lemma energy_below_invariant (n : nat) (d : R) :
  0 < d < 1 ->
  0 <= V d T /\
  Field.energy (Field.propagate_n n d T) <= 9 * (d ^ n * V d T) / (1 - d).
Proof.
  intros Hd.
  pose proof (on_own_grid T width_pos height_pos) as HT.
  destruct (lyapunov_propagate_n _ _ _ _ n d T HT) as [Hg Hv].
  pose proof (lyapunov_lower kw kh (Texture.wrap_s T) (Texture.wrap_t T) d
                (Field.propagate_n n d T) ltac:(lra)) as Hn.
  pose proof (lyapunov_lower kw kh (Texture.wrap_s T) (Texture.wrap_t T) d T ltac:(lra)) as H0.
  pose proof (energy_nonneg T) as E0. pose proof (energy_nonneg (Field.propagate_n n d T)) as En.
  rewrite (energy_on_grid _ _ _ _ _ HT) in E0.
  rewrite (energy_on_grid _ _ _ _ _ Hg) in En |- *.
  rewrite Hv in Hn.
  set (G0 := Field.gsum kw kh (fun x y => Rsqr (Field.hX T x y))) in *.
  set (Gn := Field.gsum kw kh (fun x y => Rsqr (Field.hX (Field.propagate_n n d T) x y))) in *.
  set (L := V d T) in *. set (p := d ^ n) in *.
  split; [nra|].
  apply Rmult_le_reg_r with (r := 1 - d); [lra|].
  replace (9 * (p * L) / (1 - d) * (1 - d)) with (9 * (p * L)) by (field; lra).
  lra.
Qed.

(** X7.  From any start, momentum included: on a field of positive
    dimensions, [n] propagation steps multiply the quadratic form
    [lyapunov] by exactly [d ^ n], and for a damping [d] of [(0, 1)] the
    total energy after [n] steps is at most [9 * d ^ n / (1 - d)] times the
    quadratic form of the start. *)
Theorem propagation_scales_the_invariant (n : nat) (d : R) :
  V d (Field.propagate_n n d T) = d ^ n * V d T /\
  (0 < d < 1 ->
   Field.energy (Field.propagate_n n d T) <= 9 * (d ^ n * V d T) / (1 - d)).
Proof.
  split.
  - apply lyapunov_propagate_n, on_own_grid; assumption.
  - intros Hd. apply energy_below_invariant, Hd.
Qed.

(** X8.  With a damping of [(0, 1)] the waves die out: from any start on a
    field of positive dimensions, the total energy falls below every
    positive bound after finitely many propagation steps and stays below
    it. *)
Theorem energy_dies_out (d eps : R) :
  0 < d < 1 -> 0 < eps ->
  exists N : nat, forall n : nat, (N <= n)%nat ->
    Field.energy (Field.propagate_n n d T) < eps.
Proof.
  intros Hd He.
  destruct (energy_below_invariant 0 d Hd) as [HL _].
  set (L := V d T) in *.
  assert (Hy : 0 < eps * (1 - d) / (9 * (L + 1))).
  { unfold Rdiv. apply Rmult_lt_0_compat; [nra|]. apply Rinv_0_lt_compat. lra. }
  destruct (pow_lt_1_zero d ltac:(rewrite Rabs_pos_eq; lra) _ Hy) as [N HN].
  exists N. intros n Hn.
  destruct (energy_below_invariant n d Hd) as [_ Hb]. fold L in Hb.
  specialize (HN n ltac:(lia)).
  rewrite Rabs_pos_eq in HN by (apply pow_le; lra).
  eapply Rle_lt_trans; [exact Hb|].
  apply Rmult_lt_reg_r with (r := 1 - d); [lra|].
  replace (9 * (d ^ n * L) / (1 - d) * (1 - d)) with (9 * (d ^ n * L)) by (field; lra).
  apply (Rmult_lt_compat_r (9 * (L + 1))) in HN; [|lra].
  replace (eps * (1 - d) / (9 * (L + 1)) * (9 * (L + 1))) with (eps * (1 - d)) in HN
    by (field; lra).
  assert (0 <= d ^ n) by (apply pow_le; lra).
  nra.
Qed.

End AnyStart.

(** The quadratic form of the 3 by 3 field with an impulse that moves. *)
Lemma kicked_lyapunov :
  Field.lyapunov 2 2 Texture.REPEAT Texture.REPEAT Waves.DAMPING Ripple.kicked = 0.1992.
Proof.
  unfold Field.lyapunov, Field.gsum. cbn [Field.sum_upto].
  change (Z.of_nat 0) with 0%Z. change (Z.of_nat 1) with 1%Z. change (Z.of_nat 2) with 2%Z.
  neighbours.
  unfold Field.hX, Field.hY, Field.cell_momentum, Ripple.kicked. cbn [Texture.pixels].
  cbn [Z.eqb Pos.eqb andb vec4_r vec4_g vec4_b].
  unfold Rsqr, Waves.DAMPING. lra.
Qed.

Lemma propagation_scales_the_invariant_witness :
  Field.lyapunov 2 2 Texture.REPEAT Texture.REPEAT Waves.DAMPING
    (Field.propagate_n 5 Waves.DAMPING Ripple.kicked)
  = Waves.DAMPING ^ 5 * 0.1992.
Proof.
  rewrite <- kicked_lyapunov.
  exact (proj1 (propagation_scales_the_invariant Ripple.kicked eq_refl eq_refl 5
                  Waves.DAMPING)).
Defined.

Lemma energy_dies_out_witness :
  exists N : nat, forall n : nat, (N <= n)%nat ->
    Field.energy (Field.propagate_n n Waves.DAMPING
                    (Field.impulse_field 3 3 Texture.REPEAT Texture.REPEAT 1 1 1)) < 0.001.
Proof.
  apply (energy_dies_out (Field.impulse_field 3 3 Texture.REPEAT Texture.REPEAT 1 1 1)
           eq_refl eq_refl Waves.DAMPING 0.001).
  - unfold Waves.DAMPING. lra.
  - lra.
Defined.

(** ** The buffers across [propagate] and [render] *)

Section BufferFacts.
Variable covered :
  (vec2 -> vec4) -> option WebGL.buffer_id -> option WebGL.buffer_id -> Z -> Z -> Z -> bool.

Lemma exec_array_buffer (c : WebGL.call) (s : WebGL.state) :
  WebGL.array_buffer (WebGL.exec covered c s)
  = match c with
    | WebGL.bindBuffer WebGL.ARRAY_BUFFER b => Some b
    | _ => WebGL.array_buffer s
    end.
Proof.
  destruct c; cbn [WebGL.exec]; unfold WebGL.set_uniform, WebGL.set_buffer, WebGL.draw;
    repeat case_match; cbn; congruence.
Qed.

Lemma exec_element_array_buffer (c : WebGL.call) (s : WebGL.state) :
  WebGL.element_array_buffer (WebGL.exec covered c s)
  = match c with
    | WebGL.bindBuffer WebGL.ELEMENT_ARRAY_BUFFER b => Some b
    | _ => WebGL.element_array_buffer s
    end.
Proof.
  destruct c; cbn [WebGL.exec]; unfold WebGL.set_uniform, WebGL.set_buffer, WebGL.draw;
    repeat case_match; cbn; congruence.
Qed.

Lemma exec_canvas_kept (c : WebGL.call) (s : WebGL.state) :
  WebGL.leaves_textures c -> WebGL.canvas (WebGL.exec covered c s) = WebGL.canvas s.
Proof.
  destruct c; cbn [WebGL.leaves_textures WebGL.exec]; intros H; try contradiction;
    unfold WebGL.set_uniform, WebGL.set_buffer; repeat case_match; reflexivity.
Qed.

Lemma draw_texture_binding (count : Z) (s : WebGL.state) :
  WebGL.texture_binding (WebGL.draw covered count s) = WebGL.texture_binding s.
Proof. exact (exec_texture_binding covered (WebGL.drawElements count) s). Qed.

Lemma draw_active_texture (count : Z) (s : WebGL.state) :
  WebGL.active_texture (WebGL.draw covered count s) = WebGL.active_texture s.
Proof. exact (exec_active_texture covered (WebGL.drawElements count) s). Qed.

Lemma some_eq {A : Type} (a b : A) : Some a = Some b -> a = b.
Proof. intros [=]. assumption. Qed.

Lemma draw_bound_texture (count : Z) (s : WebGL.state) (unit : Z) :
  WebGL.bound_texture (WebGL.draw covered count s) unit = WebGL.bound_texture s unit.
Proof. unfold WebGL.bound_texture. rewrite draw_texture_binding. reflexivity. Qed.

Lemma texParameteri_bound_texture (pname : WebGL.texture_parameter) (f : Texture.filter)
    (s : WebGL.state) (unit : Z) :
  WebGL.bound_texture (WebGL.exec covered (WebGL.texParameteri pname f) s) unit
  = WebGL.bound_texture s unit.
Proof. unfold WebGL.bound_texture. rewrite exec_texture_binding. reflexivity. Qed.

Lemma texParameteri_active_texture (pname : WebGL.texture_parameter) (f : Texture.filter)
    (s : WebGL.state) :
  WebGL.active_texture (WebGL.exec covered (WebGL.texParameteri pname f) s)
  = WebGL.active_texture s.
Proof. rewrite exec_active_texture. reflexivity. Qed.

Lemma draw_uniforms (count : Z) (s : WebGL.state) :
  WebGL.uniforms (WebGL.draw covered count s) = WebGL.uniforms s.
Proof. exact (exec_uniforms covered (WebGL.drawElements count) s). Qed.

Lemma propagate_vertex_shader (propagate : WebGL.program_id) (s : WebGL.state) :
  WebGL.vertex_shader (Waves.propagate_program propagate)
    (WebGL.env_of s (Waves.propagate_program propagate))
  = Waves.SHADER_PROPAGATE_VERTEX
      (WebGL.float2 (WebGL.env_of s (Waves.propagate_program propagate)) "size")
      (WebGL.float (WebGL.env_of s (Waves.propagate_program propagate)) "scale").
Proof. reflexivity. Qed.

End BufferFacts.

Section PropagateCall.
Variable covered :
  (vec2 -> vec4) -> option WebGL.buffer_id -> option WebGL.buffer_id -> Z -> Z -> Z -> bool.
Variable applyInfluences : WaterPlane.t -> WebGL.state -> WebGL.state.
Variables distort propagate : WebGL.program_id.
Variable mesh : Mesh.t.
Variable W : World.
Variables Tb Tf : Texture.t.

Local Abbreviation this := (Waves.create distort propagate).
Local Abbreviation p := (Waves.propagate_program propagate).
Local Abbreviation front :=
  (RenderTarget.texture (WaterPlane.getFront (WaterPlane.flip (water W)))).
Local Abbreviation back :=
  (RenderTarget.texture (WaterPlane.getBack (WaterPlane.flip (water W)))).

Hypothesis buffers_distinct : WaterPlane.distinct (water W).
Hypothesis back_texture : WebGL.textures (gl W) !! back = Some Tb.
Hypothesis front_texture : WebGL.textures (gl W) !! front = Some Tf.
Hypothesis back_width : Texture.width Tb = WaterPlane.width (water W).
Hypothesis back_height : Texture.height Tb = WaterPlane.height (water W).
Hypothesis source_unset : WebGL.uniforms (gl W) !! (propagate, "source"%string) = None.

Local Abbreviation at_draw := (gl (Waves.before_draw covered applyInfluences this mesh W)).
Local Abbreviation drawn := (WebGL.draw covered (Mesh.indexCount mesh) at_draw).
Local Abbreviation W1 := (propagate_before_influences covered applyInfluences this mesh W).

Ltac open_draw :=
  unfold Waves.before_draw, run, Waves.propagate_script; cbn [firstn fold_left];
  repeat rewrite ?gl_call, ?gl_water_flip, ?water_call, ?water_water_flip.

Lemma before_influences_gl :
  gl W1
  = WebGL.exec covered (WebGL.texParameteri WebGL.TEXTURE_MAG_FILTER Texture.LINEAR)
      (WebGL.exec covered (WebGL.texParameteri WebGL.TEXTURE_MIN_FILTER Texture.LINEAR) drawn).
Proof. reflexivity. Qed.

Lemma propagate_gl :
  gl (Waves.propagate covered applyInfluences this mesh W)
  = applyInfluences (WaterPlane.flip (water W)) (gl W1).
Proof. reflexivity. Qed.

Lemma before_draw_active_texture : WebGL.active_texture at_draw = 0%Z.
Proof.
  open_draw. repeat (rewrite exec_active_texture; cbv beta iota). reflexivity.
Qed.

Lemma before_draw_array_buffer : WebGL.array_buffer at_draw = Some (Mesh.vertices mesh).
Proof.
  open_draw. repeat (rewrite exec_array_buffer; cbv beta iota). reflexivity.
Qed.

Lemma before_draw_element_array_buffer :
  WebGL.element_array_buffer at_draw = Some (Mesh.indices mesh).
Proof.
  open_draw. repeat (rewrite exec_element_array_buffer; cbv beta iota). reflexivity.
Qed.

Lemma before_draw_scale :
  WebGL.float (WebGL.env_of at_draw p) "scale" = WaterPlane.SCALE (water W).
Proof.
  unfold WebGL.float, WebGL.env_of.
  cbn [WebGL.uniform WebGL.program_name Waves.propagate_program].
  rewrite before_draw_uniforms.
  rewrite lookup_insert_ne by (intros [=]). rewrite lookup_insert_eq. reflexivity.
Qed.

Lemma before_draw_canvas : WebGL.canvas at_draw = WebGL.canvas (gl W).
Proof.
  open_draw.
  do 2 (rewrite exec_canvas
          by (repeat (rewrite exec_framebuffer; cbv beta iota); discriminate)).
  repeat (rewrite exec_canvas_kept by exact I).
  rewrite exec_canvas by (repeat (rewrite exec_framebuffer; cbv beta iota); discriminate).
  repeat (rewrite exec_canvas_kept by exact I).
  reflexivity.
Qed.

Lemma drawn_textures :
  WebGL.textures drawn
  = alter (fun T => Texture.set_pixels
                      (WebGL.shade covered at_draw p (Mesh.indexCount mesh) (Texture.pixels T)) T)
          front (WebGL.textures at_draw).
Proof.
  unfold WebGL.draw.
  rewrite before_draw_program, (before_draw_framebuffer covered applyInfluences this mesh W).
  rewrite before_draw_no_feedback by assumption.
  reflexivity.
Qed.

Lemma before_influences_textures :
  WebGL.textures (gl W1)
  = alter (Texture.set_mag_filter Texture.LINEAR) back
      (alter (Texture.set_min_filter Texture.LINEAR) back (WebGL.textures drawn)).
Proof.
  rewrite before_influences_gl.
  assert (B : WebGL.bound_texture drawn (WebGL.active_texture drawn) = Some back).
  { rewrite draw_active_texture, before_draw_active_texture, draw_bound_texture.
    apply before_draw_unit_0. }
  rewrite (exec_texParameteri_textures _ _ _ _ back).
  2: { rewrite texParameteri_active_texture, texParameteri_bound_texture. exact B. }
  rewrite (exec_texParameteri_textures _ _ _ _ back) by exact B.
  reflexivity.
Qed.

Lemma before_influences_framebuffer : WebGL.framebuffer (gl W1) = Some front.
Proof.
  rewrite before_influences_gl.
  rewrite !exec_framebuffer. cbv beta iota. rewrite draw_framebuffer.
  apply (before_draw_framebuffer covered applyInfluences this mesh W).
Qed.

Lemma before_influences_canvas : WebGL.canvas (gl W1) = WebGL.canvas (gl W).
Proof.
  pose proof (before_draw_framebuffer covered applyInfluences this mesh W) as F.
  rewrite before_influences_gl.
  rewrite exec_canvas
    by (rewrite exec_framebuffer; cbv beta iota; rewrite draw_framebuffer, F; discriminate).
  rewrite exec_canvas by (rewrite draw_framebuffer, F; discriminate).
  rewrite draw_canvas by (rewrite F; discriminate).
  apply before_draw_canvas.
Qed.

Lemma before_influences_uniforms :
  WebGL.uniforms (gl W1)
  = <[(propagate, "damping"%string) := WebGL.Float Waves.DAMPING]>
    (<[(propagate, "scale"%string) := WebGL.Float (WaterPlane.SCALE (water W))]>
    (<[(propagate, "size"%string) :=
         WebGL.Float2 (IZR (WaterPlane.width (water W))) (IZR (WaterPlane.height (water W)))]>
       (WebGL.uniforms (gl W)))).
Proof.
  rewrite before_influences_gl.
  rewrite !exec_uniforms. cbv beta iota. rewrite draw_uniforms.
  apply before_draw_uniforms.
Qed.

Lemma before_influences_front :
  exists T',
    WebGL.textures (gl W1) !! front = Some T' /\
    Texture.width T' = Texture.width Tf /\ Texture.height T' = Texture.height Tf /\
    Texture.wrap_s T' = Texture.wrap_s Tf /\ Texture.wrap_t T' = Texture.wrap_t Tf /\
    Texture.min_filter T' = Texture.min_filter Tf /\
    Texture.mag_filter T' = Texture.mag_filter Tf /\
    forall x y,
      Texture.pixels T' x y =
      if covered
           (Waves.SHADER_PROPAGATE_VERTEX
              (Vec2 (IZR (WaterPlane.width (water W))) (IZR (WaterPlane.height (water W))))
              (WaterPlane.SCALE (water W)))
           (Some (Mesh.vertices mesh)) (Some (Mesh.indices mesh)) (Mesh.indexCount mesh) x y
      then Texture.pixels (Field.propagation_step Waves.DAMPING Tb) x y
      else Vec4 0.5 0.5 0 0.
Proof.
  pose proof (front_back_differ W buffers_distinct) as Hne.
  assert (Hne' : back <> front) by (intros E; apply Hne; symmetry; exact E).
  destruct (propagate_draw_is_propagation_step covered applyInfluences distort propagate mesh
              W Tb Tf buffers_distinct back_texture front_texture back_width back_height
              source_unset) as (T' & HT' & Hpix).
  rewrite drawn_textures, lookup_alter_eq in HT'.
  rewrite (before_draw_front covered applyInfluences distort propagate mesh W Tf
             buffers_distinct front_texture) in HT'.
  cbn [fmap option_fmap option_map] in HT'. apply some_eq in HT'.
  exists T'. split.
  - rewrite before_influences_textures, !lookup_alter_ne by exact Hne'.
    rewrite drawn_textures, lookup_alter_eq.
    rewrite (before_draw_front covered applyInfluences distort propagate mesh W Tf
               buffers_distinct front_texture).
    cbn [fmap option_fmap option_map]. rewrite HT'. reflexivity.
  - rewrite <- HT' at 1 2 3 4 5 6. repeat (split; [reflexivity|]).
    intros x y. rewrite Hpix.
    rewrite propagate_vertex_shader, before_draw_scale,
      (before_draw_size covered applyInfluences distort propagate mesh W Tb back_width
         back_height),
      before_draw_array_buffer, before_draw_element_array_buffer.
    rewrite back_width, back_height. reflexivity.
Qed.

Lemma before_influences_back :
  WebGL.textures (gl W1) !! back
  = Some (Texture.set_mag_filter Texture.LINEAR (Texture.set_min_filter Texture.LINEAR Tb)).
Proof.
  pose proof (front_back_differ W buffers_distinct) as Hne.
  rewrite before_influences_textures, !lookup_alter_eq.
  rewrite drawn_textures, lookup_alter_ne by exact Hne.
  rewrite (before_draw_back covered applyInfluences distort propagate mesh W Tb
             buffers_distinct back_texture).
  reflexivity.
Qed.

Lemma before_influences_others (t : WebGL.texture_id) :
  t <> front -> t <> back ->
  WebGL.textures (gl W1) !! t = WebGL.textures (gl W) !! t.
Proof.
  intros Hf Hb.
  rewrite before_influences_textures, !lookup_alter_ne by congruence.
  rewrite drawn_textures, lookup_alter_ne by congruence.
  rewrite before_draw_textures, !lookup_alter_ne by congruence.
  reflexivity.
Qed.

(** X9.  One call of [propagate], up to the wave painter's turn.  With two
    different buffers, the read buffer of the size of the water plane, and
    the [source] uniform never set: the buffer in the front role after the
    flip holds, on the pixels the mesh covers, one propagation step (under
    [DAMPING]) of the buffer in the back role, and the neutral state
    elsewhere; the back buffer keeps its texels and is left with LINEAR
    filters; no other texture and no canvas pixel changes; the front buffer
    stays bound as the render target; the wave painter then gets the
    context in this state. *)
Theorem propagate_writes_one_step :
  gl (Waves.propagate covered applyInfluences this mesh W)
  = applyInfluences (WaterPlane.flip (water W)) (gl W1) /\
  (exists T',
    WebGL.textures (gl W1) !! front = Some T' /\
    Texture.width T' = Texture.width Tf /\ Texture.height T' = Texture.height Tf /\
    Texture.wrap_s T' = Texture.wrap_s Tf /\ Texture.wrap_t T' = Texture.wrap_t Tf /\
    Texture.min_filter T' = Texture.min_filter Tf /\
    Texture.mag_filter T' = Texture.mag_filter Tf /\
    forall x y,
      Texture.pixels T' x y =
      if covered
           (Waves.SHADER_PROPAGATE_VERTEX
              (Vec2 (IZR (WaterPlane.width (water W))) (IZR (WaterPlane.height (water W))))
              (WaterPlane.SCALE (water W)))
           (Some (Mesh.vertices mesh)) (Some (Mesh.indices mesh)) (Mesh.indexCount mesh) x y
      then Texture.pixels (Field.propagation_step Waves.DAMPING Tb) x y
      else Vec4 0.5 0.5 0 0) /\
  WebGL.textures (gl W1) !! back
  = Some (Texture.set_mag_filter Texture.LINEAR (Texture.set_min_filter Texture.LINEAR Tb)) /\
  (forall t, t <> front -> t <> back ->
     WebGL.textures (gl W1) !! t = WebGL.textures (gl W) !! t) /\
  WebGL.canvas (gl W1) = WebGL.canvas (gl W) /\
  WebGL.framebuffer (gl W1) = Some front.
Proof.
  split; [apply propagate_gl|]. split; [apply before_influences_front|].
  split; [apply before_influences_back|]. split; [apply before_influences_others|].
  split; [apply before_influences_canvas | apply before_influences_framebuffer].
Qed.

End PropagateCall.

(** ** Calls of [propagate] in a row *)

Lemma same_field_refl (A : Texture.t) : same_field A A.
Proof. repeat split. Qed.

Lemma same_field_trans (A B C : Texture.t) :
  same_field A B -> same_field B C -> same_field A C.
Proof.
  intros (a1 & a2 & a3 & a4 & a5) (b1 & b2 & b3 & b4 & b5).
  split; [congruence|]. split; [congruence|]. split; [congruence|]. split; [congruence|].
  intros x y. rewrite a5. apply b5.
Qed.

Lemma step_same_field (d : R) (A B : Texture.t) :
  same_field A B -> same_field (Field.propagation_step d A) (Field.propagation_step d B).
Proof.
  intros (Hw & Hh & Hs & Ht & Hp).
  repeat split; try assumption.
  intros x y. unfold Field.propagation_step. cbn [Texture.pixels Texture.set_pixels].
  unfold Waves.SHADER_PROPAGATE_FRAGMENT, Waves.Propagate.gl_FragColor,
    Waves.Propagate.newHeight, Waves.Propagate.momentum, Waves.Propagate.state,
    Waves.Propagate.hLeft, Waves.Propagate.hRight, Waves.Propagate.hUp,
    Waves.Propagate.hDown, Waves.Propagate.uv, Waves.Propagate.step, texture2D,
    Texture.nearest, Texture.texel.
  rewrite Hw, Hh, Hs, Ht, !Hp. reflexivity.
Qed.

Lemma energy_same_field (A B : Texture.t) :
  same_field A B -> Field.energy A = Field.energy B.
Proof.
  intros (Hw & Hh & _ & _ & Hp). unfold Field.energy, Field.sum_cells.
  rewrite Hw, Hh. apply sum_upto_ext. intros y _. apply sum_upto_ext. intros x _.
  rewrite Hp. reflexivity.
Qed.

Lemma propagate_n_grid (n : nat) (d : R) (T : Texture.t) :
  Texture.width (Field.propagate_n n d T) = Texture.width T /\
  Texture.height (Field.propagate_n n d T) = Texture.height T /\
  Texture.wrap_s (Field.propagate_n n d T) = Texture.wrap_s T /\
  Texture.wrap_t (Field.propagate_n n d T) = Texture.wrap_t T.
Proof.
  induction n as [|k IH]; [repeat split|]. exact IH.
Qed.

Section PropagateCalls.
Variable covered :
  (vec2 -> vec4) -> option WebGL.buffer_id -> option WebGL.buffer_id -> Z -> Z -> Z -> bool.
Variable applyInfluences : WaterPlane.t -> WebGL.state -> WebGL.state.
Variables distort propagate : WebGL.program_id.
Variable mesh : Mesh.t.
Variable F0 : Texture.t.

Hypothesis covered_all : forall vs a e c x y, covered vs a e c x y = true.
Hypothesis no_influences : forall p s, applyInfluences p s = s.

Local Abbreviation this := (Waves.create distort propagate).
Local Abbreviation call_propagate := (Waves.propagate covered applyInfluences this mesh).

Local Abbreviation inv := (holds propagate F0).

Lemma holds_step (F : Texture.t) (W : World) :
  Texture.width F = Texture.width F0 -> Texture.height F = Texture.height F0 ->
  Texture.wrap_s F = Texture.wrap_s F0 -> Texture.wrap_t F = Texture.wrap_t F0 ->
  inv F W -> inv (Field.propagation_step Waves.DAMPING F) (call_propagate W).
Proof.
  intros Gw Gh Gs Gt (Hd & Hw & Hh & (Tf & Hf & Sf) & (Tb & Hb & Bw & Bh & Bs & Bt) & Hu).
  destruct Sf as (Sw & Sh & Ss & St & Sp).
  assert (Hback : WebGL.textures (gl W)
            !! RenderTarget.texture (WaterPlane.getBack (WaterPlane.flip (water W))) = Some Tf)
    by (rewrite getBack_flip; exact Hf).
  assert (Hfront : WebGL.textures (gl W)
            !! RenderTarget.texture (WaterPlane.getFront (WaterPlane.flip (water W))) = Some Tb)
    by (rewrite getFront_flip; exact Hb).
  assert (Hbw : Texture.width Tf = WaterPlane.width (water W)) by congruence.
  assert (Hbh : Texture.height Tf = WaterPlane.height (water W)) by congruence.
  pose proof (propagate_gl covered applyInfluences distort propagate mesh W) as Hgl.
  rewrite no_influences in Hgl.
  assert (Hwater : water (call_propagate W) = WaterPlane.flip (water W)) by reflexivity.
  unfold holds. rewrite Hwater, Hgl.
  split; [exact Hd|]. split; [exact Hw|]. split; [exact Hh|]. split; [|split].
  - destruct (before_influences_front covered applyInfluences distort propagate mesh W Tf Tb
                Hd Hback Hfront Hbw Hbh Hu)
      as (T' & HT' & Tw & Th & Ts & Tt & _ & _ & Hpix).
    exists T'. split; [exact HT'|].
    apply (same_field_trans _ (Field.propagation_step Waves.DAMPING Tf)).
    + repeat split; cbn [Field.propagation_step Texture.width Texture.height Texture.wrap_s
                           Texture.wrap_t Texture.set_pixels]; try congruence.
      intros x y. rewrite Hpix, covered_all. reflexivity.
    + apply step_same_field. repeat split; assumption.
  - exists (Texture.set_mag_filter Texture.LINEAR (Texture.set_min_filter Texture.LINEAR Tf)).
    split.
    + apply (before_influences_back covered applyInfluences distort propagate mesh W Tf);
        assumption.
    + cbn [Texture.width Texture.height Texture.wrap_s Texture.wrap_t Texture.set_mag_filter
           Texture.set_min_filter].
      repeat split; congruence.
  - rewrite before_influences_uniforms.
    rewrite !lookup_insert_ne by (intros [=]). exact Hu.
Qed.

Lemma holds_iter (n : nat) (W : World) :
  inv F0 W -> inv (Field.propagate_n n Waves.DAMPING F0) (Nat.iter n call_propagate W).
Proof.
  intros H. induction n as [|k IH]; [exact H|].
  rewrite Nat.iter_succ. cbn [Field.propagate_n].
  destruct (propagate_n_grid k Waves.DAMPING F0) as (g1 & g2 & g3 & g4).
  apply holds_step; assumption.
Qed.


End PropagateCalls.

(** *** The ripple of the scene

    The impulse 0.6 at the cell (1, 1) of the 4 by 4 field, one and two
    propagation steps later. *)

Ltac texels :=
  unfold Texture.texel;
  repeat match goal with
  | |- context [Texture.wrap_index ?m ?n ?i] =>
      let t := eval vm_compute in (Texture.wrap_index m n i) in
      change (Texture.wrap_index m n i) with t
  end.

Lemma impulse_after_one_step :
  let T1 := Field.propagation_step Waves.DAMPING Ripple.impulse in
  Texture.pixels T1 1 1 = Vec4 0.5 0.6 0 0 /\
  Texture.pixels T1 0 1 = Vec4 0.54975 0.5 0 0 /\
  Texture.pixels T1 2 1 = Vec4 0.54975 0.5 0 0 /\
  Texture.pixels T1 1 0 = Vec4 0.54975 0.5 0 0 /\
  Texture.pixels T1 1 2 = Vec4 0.54975 0.5 0 0.
Proof.
  cbv zeta. rewrite !(propagation_step_pixels Ripple.impulse eq_refl eq_refl).
  texels.
  unfold Field.cell_momentum, Ripple.impulse, Field.impulse_field. cbn [Texture.pixels].
  cbn [Z.eqb Pos.eqb andb vec4_r vec4_g vec4_b].
  unfold Waves.DAMPING. repeat split; apply vec4_eq; lra.
Qed.

Lemma impulse_after_two_steps :
  Texture.pixels (Field.propagate_n 2 Waves.DAMPING Ripple.impulse) 1 1
  = Vec4 0.4995025 0.5 0 0.
Proof.
  cbn [Field.propagate_n].
  rewrite (propagation_step_pixels (Field.propagation_step Waves.DAMPING Ripple.impulse)
             eq_refl eq_refl).
  texels.
  destruct impulse_after_one_step as (E11 & E01 & E21 & E10 & E12). cbv zeta in *.
  rewrite E11, E01, E21, E10, E12.
  unfold Field.cell_momentum. cbn [vec4_r vec4_g vec4_b].
  unfold Waves.DAMPING. apply vec4_eq; lra.
Qed.


(** ** The draw call of [render] *)

Lemma distort_shaders (distort : WebGL.program_id) (s : WebGL.state) (fc : vec2) :
  let p := Waves.distort_program distort in
  let e := WebGL.env_of s p in
  WebGL.vertex_shader p e
  = Waves.SHADER_DISTORT_VERTEX (WebGL.float e "scale") (WebGL.float2 e "size") /\
  WebGL.fragment_shader p e fc
  = Waves.SHADER_DISTORT_FRAGMENT
      (WebGL.sampler e "background") (WebGL.sampler e "waterBack")
      (WebGL.sampler e "waterFront") (WebGL.float e "depth") (WebGL.float2 e "size")
      (WebGL.float2 e "waterSize") (WebGL.float e "time") fc.
Proof. split; reflexivity. Qed.

Section RenderDraw.
Variable covered :
  (vec2 -> vec4) -> option WebGL.buffer_id -> option WebGL.buffer_id -> Z -> Z -> Z -> bool.
Variables distort propagate : WebGL.program_id.
Variable background : WebGL.texture_id.
Variable mesh : Mesh.t.
Variables width height scale time : R.
Variable W : World.
Variables Tbg Tb Tf : Texture.t.

Local Abbreviation this := (Waves.create distort propagate).
Local Abbreviation p := (Waves.distort_program distort).
Local Abbreviation front := (RenderTarget.texture (WaterPlane.getFront (water W))).
Local Abbreviation back := (RenderTarget.texture (WaterPlane.getBack (water W))).
Local Abbreviation at_draw :=
  (Waves.render_before_draw covered this background mesh width height scale time W).

Hypothesis to_canvas : WebGL.framebuffer (gl W) = None.
Hypothesis background_texture : WebGL.textures (gl W) !! background = Some Tbg.
Hypothesis back_texture : WebGL.textures (gl W) !! back = Some Tb.
Hypothesis front_texture : WebGL.textures (gl W) !! front = Some Tf.

Ltac open_render_draw :=
  unfold Waves.render_before_draw, run, Waves.render_script; cbn [firstn fold_left];
  repeat rewrite ?gl_call, ?water_call.

Lemma render_before_draw_canvas : WebGL.canvas at_draw = WebGL.canvas (gl W).
Proof. open_render_draw. repeat (rewrite exec_canvas_kept by exact I). reflexivity. Qed.

Lemma render_before_draw_array_buffer :
  WebGL.array_buffer at_draw = Some (Mesh.vertices mesh).
Proof. open_render_draw. repeat (rewrite exec_array_buffer; cbv beta iota). reflexivity. Qed.

Lemma render_before_draw_element_array_buffer :
  WebGL.element_array_buffer at_draw = Some (Mesh.indices mesh).
Proof.
  open_render_draw. repeat (rewrite exec_element_array_buffer; cbv beta iota). reflexivity.
Qed.

Lemma render_uniform (name : string) :
  WebGL.uniform (WebGL.env_of at_draw p) name
  = (<[(distort, "time"%string) := WebGL.Float time]>
    (<[(distort, "waterSize"%string) :=
         WebGL.Float2 (IZR (WaterPlane.width (water W))) (IZR (WaterPlane.height (water W)))]>
    (<[(distort, "size"%string) := WebGL.Float2 width height]>
    (<[(distort, "depth"%string) := WebGL.Float (Waves.DEPTH * scale)]>
    (<[(distort, "waterFront"%string) := WebGL.Int 2]>
    (<[(distort, "waterBack"%string) := WebGL.Int 1]>
    (<[(distort, "background"%string) := WebGL.Int 0]>
    (<[(distort, "scale"%string) := WebGL.Float scale]> (WebGL.uniforms (gl W))))))))))
    !! (distort, name).
Proof.
  unfold WebGL.env_of. cbn [WebGL.uniform WebGL.program_name Waves.distort_program].
  rewrite render_before_draw_uniforms. reflexivity.
Qed.

Lemma render_floats :
  let e := WebGL.env_of at_draw p in
  WebGL.float e "scale" = scale /\
  WebGL.float e "depth" = Waves.DEPTH * scale /\
  WebGL.float e "time" = time /\
  WebGL.float2 e "size" = Vec2 width height /\
  WebGL.float2 e "waterSize"
  = Vec2 (IZR (WaterPlane.width (water W))) (IZR (WaterPlane.height (water W))) /\
  WebGL.int e "background" = 0%Z /\
  WebGL.int e "waterBack" = 1%Z /\
  WebGL.int e "waterFront" = 2%Z.
Proof.
  cbv zeta. unfold WebGL.float, WebGL.float2, WebGL.int. rewrite !render_uniform.
  repeat split;
    repeat (rewrite lookup_insert_ne by (intros [=])); rewrite lookup_insert_eq; reflexivity.
Qed.

Lemma render_samplers :
  let e := WebGL.env_of at_draw p in
  WebGL.sampler e "background" = Texture.sampler Tbg /\
  WebGL.sampler e "waterBack" = Texture.sampler Tb /\
  WebGL.sampler e "waterFront" = Texture.sampler Tf.
Proof.
  destruct render_floats as (_ & _ & _ & _ & _ & I0 & I1 & I2).
  cbv zeta. unfold WebGL.sampler. rewrite I0, I1, I2.
  unfold WebGL.env_of. cbn [WebGL.unit_sampler].
  unfold WebGL.sampler_of_unit, WebGL.bound_texture.
  rewrite render_before_draw_binding, render_before_draw_textures.
  repeat split.
  - rewrite !lookup_insert_ne by lia. rewrite lookup_insert_eq, background_texture.
    reflexivity.
  - rewrite lookup_insert_ne by lia. rewrite lookup_insert_eq, back_texture. reflexivity.
  - rewrite lookup_insert_eq, front_texture. reflexivity.
Qed.

(** X11.  The draw call of [render].  With the canvas as the render
    target and the three textures present, [render] leaves every texture as
    it is, and each canvas pixel the mesh covers receives the colour of the
    distort fragment, clamped to [[0, 1]] in each component: the fragment
    of the background (unit 0), the back buffer (unit 1) and the front
    buffer (unit 2), each under its own filters, with
    [depth = DEPTH * scale], [size] the given width and height and
    [waterSize] the dimensions of the water plane; the other pixels keep
    their colour. *)
Theorem render_draws_the_distorted_background :
  let W' := Waves.render covered this background mesh width height scale time W in
  WebGL.textures (gl W') = WebGL.textures (gl W) /\
  forall x y,
    WebGL.canvas (gl W') x y =
    if covered (Waves.SHADER_DISTORT_VERTEX scale (Vec2 width height))
               (Some (Mesh.vertices mesh)) (Some (Mesh.indices mesh)) (Mesh.indexCount mesh) x y
    then WebGL.unorm4
           (Waves.SHADER_DISTORT_FRAGMENT
              (Texture.sampler Tbg) (Texture.sampler Tb) (Texture.sampler Tf)
              (Waves.DEPTH * scale) (Vec2 width height)
              (Vec2 (IZR (WaterPlane.width (water W))) (IZR (WaterPlane.height (water W))))
              time (frag_coord x y))
    else WebGL.canvas (gl W) x y.
Proof.
  intros W'. unfold W'. rewrite render_is_draw.
  assert (F : WebGL.framebuffer at_draw = None)
    by (rewrite render_before_draw_framebuffer; exact to_canvas).
  split.
  - rewrite draw_to_canvas by exact F. apply render_before_draw_textures.
  - intros x y. unfold WebGL.draw. rewrite render_before_draw_program, F.
    cbn [WebGL.canvas WebGL.set_canvas]. unfold WebGL.shade_canvas.
    destruct (distort_shaders distort at_draw (frag_coord x y)) as [Ev Ef].
    rewrite Ev, Ef.
    destruct render_floats as (E1 & E2 & E3 & E4 & E5 & _).
    destruct render_samplers as (S0 & S1 & S2).
    rewrite E1, E2, E3, E4, E5, S0, S1, S2.
    rewrite render_before_draw_array_buffer, render_before_draw_element_array_buffer,
      render_before_draw_canvas.
    reflexivity.
Qed.

End RenderDraw.

(** One call on the scene with the ripple: the buffer drawn to holds the
    impulse one step later, the old height of the centre in its green
    channel and the raised neighbours. *)
Lemma propagate_writes_one_step_witness :
  exists T',
    WebGL.textures
      (gl (propagate_before_influences Demo.covered Demo.applyInfluences Demo.waves Demo.mesh
             Ripple.world)) !! 2%positive = Some T' /\
    Texture.pixels T' 1 1 = Vec4 0.5 0.6 0 0 /\
    Texture.pixels T' 0 1 = Vec4 0.54975 0.5 0 0 /\
    Texture.pixels T' 1 2 = Vec4 0.54975 0.5 0 0.
Proof.
  assert (Hf : WebGL.textures (gl Ripple.world)
               !! RenderTarget.texture (WaterPlane.getFront (WaterPlane.flip (water Ripple.world)))
               = Some Demo.at_rest).
  { cbn [water Ripple.world Demo.plane WaterPlane.flip WaterPlane.getFront WaterPlane.front
         WaterPlane.second WaterPlane.first negb RenderTarget.texture gl Ripple.context
         WebGL.textures].
    rewrite lookup_insert_ne by discriminate. apply lookup_insert_eq. }
  destruct (proj1 (proj2
    (propagate_writes_one_step Demo.covered Demo.applyInfluences 1%positive 2%positive
       Demo.mesh Ripple.world Ripple.impulse Demo.at_rest
       ltac:(unfold WaterPlane.distinct; cbn; discriminate)
       ltac:(apply lookup_insert_eq) Hf ltac:(reflexivity) ltac:(reflexivity)
       ltac:(apply lookup_empty))))
    as (T' & HT & _ & _ & _ & _ & _ & _ & Hpix).
  exists T'. split; [exact HT|].
  destruct impulse_after_one_step as (E11 & E01 & _ & _ & E12). cbv zeta in *.
  rewrite !Hpix. unfold Demo.covered. rewrite E11, E01, E12. repeat split.
Defined.

(** [render] on the scene with the ripple: three different textures, the
    gradient as the background, the buffer at rest in the back role and the
    impulse in the front role. *)
Lemma render_draws_the_distorted_background_witness :
  WebGL.canvas
    (gl (Waves.render Demo.covered Demo.waves 3%positive Demo.mesh 16 16 2 0.25 Ripple.world))
    3 5
  = WebGL.unorm4
      (Waves.SHADER_DISTORT_FRAGMENT
         (Texture.sampler Ripple.pebbles) (Texture.sampler Demo.at_rest)
         (Texture.sampler Ripple.impulse) (Waves.DEPTH * 2) (Vec2 16 16) (Vec2 4 4) 0.25
         (frag_coord 3 5)).
Proof.
  refine (proj2
    (render_draws_the_distorted_background Demo.covered 1%positive 2%positive 3%positive
       Demo.mesh 16 16 2 0.25 Ripple.world Ripple.pebbles Demo.at_rest Ripple.impulse
       _ _ _ _) 3%Z 5%Z).
  - reflexivity.
  - cbn [gl Ripple.world Ripple.context WebGL.textures].
    rewrite !lookup_insert_ne by discriminate. apply lookup_insert_eq.
  - cbn [water Ripple.world Demo.plane WaterPlane.getBack WaterPlane.front
         WaterPlane.second WaterPlane.first RenderTarget.texture gl Ripple.context
         WebGL.textures].
    rewrite lookup_insert_ne by discriminate. apply lookup_insert_eq.
  - apply lookup_insert_eq.
Defined.

(** * Further properties of [Card] *)

Lemma Math_round_cell (k : Z) (v : R) :
  IZR k - 0.5 <= v < IZR k + 0.5 -> CardElement.Math_round v = k.
Proof. intros H. unfold CardElement.Math_round. apply (floor_cell k). lra. Qed.

Lemma Math_round_bounds (v : R) :
  IZR (CardElement.Math_round v) - 0.5 <= v < IZR (CardElement.Math_round v) + 0.5.
Proof.
  unfold CardElement.Math_round.
  pose proof (base_Int_part (v + 0.5)) as [H1 H2]. lra.
Qed.

Lemma ageText_cases (ageMinutes : R) :
  (ageMinutes < 1 -> CardElement.ageText ageMinutes = "Fry"%string) /\
  (1 <= ageMinutes < 1.5 -> CardElement.ageText ageMinutes = "1 minute"%string) /\
  (1.5 <= ageMinutes <= 60 ->
   exists k : Z, (2 <= k <= 60)%Z /\ IZR k - 0.5 <= ageMinutes < IZR k + 0.5 /\
                 CardElement.ageText ageMinutes = (pretty k +:+ " minutes")%string) /\
  (60 < ageMinutes -> CardElement.ageText ageMinutes = "> 1 hour"%string).
Proof.
  unfold CardElement.ageText.
  split; [|split; [|split]].
  - intros H. destruct (Rlt_dec ageMinutes 1); [reflexivity | lra].
  - intros H. destruct (Rlt_dec ageMinutes 1); [lra|].
    rewrite (Math_round_cell 1) by lra. reflexivity.
  - intros H. exists (CardElement.Math_round ageMinutes).
    pose proof (Math_round_bounds ageMinutes) as Hb.
    assert (Hk : (2 <= CardElement.Math_round ageMinutes <= 60)%Z).
    { split.
      - apply le_IZR. destruct (Z_lt_le_dec (CardElement.Math_round ageMinutes) 2) as [L|L];
          [|apply IZR_le, L].
        assert (L1 : (CardElement.Math_round ageMinutes <= 1)%Z) by lia.
        apply IZR_le in L1. lra.
      - apply le_IZR. destruct (Z_lt_le_dec 60 (CardElement.Math_round ageMinutes)) as [L|L];
          [|apply IZR_le, L].
        assert (L1 : (61 <= CardElement.Math_round ageMinutes)%Z) by lia.
        apply IZR_le in L1. lra. }
    split; [exact Hk|]. split; [exact Hb|].
    destruct (Rlt_dec ageMinutes 1); [lra|].
    destruct (Z.ltb_spec (CardElement.Math_round ageMinutes) 2); [lia|].
    destruct (Rgt_dec ageMinutes 60); [lra | reflexivity].
  - intros H. destruct (Rlt_dec ageMinutes 1); [lra|].
    pose proof (Math_round_bounds ageMinutes) as Hb.
    destruct (Z.ltb_spec (CardElement.Math_round ageMinutes) 2) as [L|L].
    + assert (L1 : (CardElement.Math_round ageMinutes <= 1)%Z) by lia.
      apply IZR_le in L1. lra.
    + destruct (Rgt_dec ageMinutes 60); [reflexivity | lra].
Qed.

(** X12.  The info element holds the three properties Weight, Length and
    Age, in this order.  The age text is "Fry" below 60 seconds, "1 minute"
    from 60 up to (not including) 90 seconds, "k minutes" from 90 seconds to
    one hour included, [k] being the age in minutes rounded to the nearest
    integer (between 2 and 60), and "> 1 hour" above one hour. *)
Theorem info_shows_the_age (age : R) (weightText lengthText : string) :
  exists ageText : string,
    CardElement.createInfo age weightText lengthText
    = CardElement.Element "div" "info"
        [ CardElement.createProperty "Weight" weightText (Some "weight"%string);
          CardElement.createProperty "Length" lengthText (Some "length"%string);
          CardElement.createProperty "Age" ageText None ] /\
    (age < 60 -> ageText = "Fry"%string) /\
    (60 <= age < 90 -> ageText = "1 minute"%string) /\
    (90 <= age <= 3600 ->
     exists k : Z, (2 <= k <= 60)%Z /\ IZR k - 0.5 <= age / 60 < IZR k + 0.5 /\
                   ageText = (pretty k +:+ " minutes")%string) /\
    (3600 < age -> ageText = "> 1 hour"%string).
Proof.
  destruct (ageText_cases (age / 60)) as (H1 & H2 & H3 & H4).
  exists (CardElement.ageText (age / 60)).
  split; [reflexivity|]. split; [|split; [|split]]; intros H.
  - apply H1. lra.
  - apply H2. lra.
  - apply H3. lra.
  - apply H4. lra.
Qed.

(** ** The card's position and rotation *)

(** X13.  Each [move] towards a target multiplies the remaining offset to
    the target by [1 - interpolationFactor] on each axis, so [n] calls leave
    [(1 - interpolationFactor) ^ n] of it; the previous position of a call is
    the position before it. *)
Theorem move_shrinks_the_offset (px py f : R) (n : nat) (c : Card.t) :
  let c' := Nat.iter n (Card.move px py f) c in
  px - Card.x (Card.position c') = (1 - f) ^ n * (px - Card.x (Card.position c)) /\
  py - Card.y (Card.position c') = (1 - f) ^ n * (py - Card.y (Card.position c)) /\
  Card.positionPrevious (Card.move px py f c') = Card.position c'.
Proof.
  cbv zeta. split; [|split; [|reflexivity]].
  - induction n as [|n IH]; [cbn; ring|].
    rewrite Nat.iter_succ. unfold Card.move at 1. cbn [Card.position Card.set_positions Card.x].
    rewrite <- tech_pow_Rmult, Rmult_assoc, <- IH. ring.
  - induction n as [|n IH]; [cbn; ring|].
    rewrite Nat.iter_succ. unfold Card.move at 1. cbn [Card.position Card.set_positions Card.y].
    rewrite <- tech_pow_Rmult, Rmult_assoc, <- IH. ring.
Qed.

(** X14.  Each [rotate] towards a target angle multiplies the remaining
    angle to the target by [1 - interpolationFactor], so [n] calls leave
    [(1 - interpolationFactor) ^ n] of it; the previous angle of a call is
    the angle before it. *)
Theorem rotate_shrinks_the_offset (target f : R) (n : nat) (c : Card.t) :
  let c' := Nat.iter n (Card.rotate_towards target f) c in
  target - Card.angle c' = (1 - f) ^ n * (target - Card.angle c) /\
  Card.anglePrevious (Card.rotate_towards target f c') = Card.angle c'.
Proof.
  cbv zeta. split; [|reflexivity].
  induction n as [|n IH]; [cbn; ring|].
  rewrite Nat.iter_succ. unfold Card.rotate_towards at 1. cbn [Card.angle Card.set_angles].
  rewrite <- tech_pow_Rmult, Rmult_assoc, <- IH. ring.
Qed.

(** X15.  Between two updates [render] interpolates: after a [move]
    towards [(px, py)], [render(time)] translates the element to the old
    position plus the fraction [interpolationFactor * time] of the way to
    the target. *)
Theorem render_between_updates (px py f time : R) (c : Card.t) :
  exists rest,
    Card.element_transform (Card.render time (Card.move px py f c))
    = Card.translate
        (Card.x (Card.position c) + (px - Card.x (Card.position c)) * f * time)
        (Card.y (Card.position c) + (py - Card.y (Card.position c)) * f * time)
      :: rest.
Proof.
  unfold Card.render, Card.updatePosition, Card.move.
  cbn [Card.position Card.positionPrevious Card.set_positions Card.angle Card.anglePrevious
       Card.x Card.y Card.set_transform Card.element_transform].
  destruct (Req_dec_T (Card.angle c) 0); eexists; (f_equal; f_equal; ring).
Qed.

(** X16.  [moveTo] and [setPosition] followed by [setRotation] place the
    card at once: the transform [render] writes is the translation to the
    given position, followed by the rotation by the given angle unless that
    angle is 0, whatever the time and the earlier state of the card. *)
Theorem instant_placement (px py r time : R) (c : Card.t) :
  Card.element_transform (Card.render time (Card.setRotation r (Card.moveTo px py c)))
  = Card.translate px py :: (if Req_dec_T r 0 then [] else [Card.rotate r]) /\
  Card.element_transform
    (Card.render time (Card.setRotation r (Card.setPosition (Card.MkVector2 px py) c)))
  = Card.translate px py :: (if Req_dec_T r 0 then [] else [Card.rotate r]).
Proof.
  unfold Card.render, Card.updatePosition, Card.setRotation, Card.moveTo, Card.setPosition.
  cbn [Card.position Card.positionPrevious Card.set_positions Card.set_angles Card.angle
       Card.anglePrevious Card.x Card.y Card.set_transform Card.element_transform].
  destruct (Req_dec_T r 0); split; repeat f_equal; ring.
Qed.

(** X17.  The rotation is dropped as soon as the angle is 0: a card at a
    non-zero angle is rendered with its rotation, but once [rotate] has
    brought the angle to 0 in one step, [render] writes the translation
    alone at every time, though the previous angle is not 0. *)
Theorem rotation_dropped_at_angle_zero (time : R) (c : Card.t) :
  Card.angle c <> 0 ->
  let c' := Card.rotate_towards 0 1 c in
  Card.anglePrevious c' = Card.angle c /\
  Card.element_transform (Card.render 0 c)
  = [Card.translate (Card.x (Card.positionPrevious c)) (Card.y (Card.positionPrevious c));
     Card.rotate (Card.anglePrevious c)] /\
  Card.element_transform (Card.render time c')
  = [Card.translate
       (Card.x (Card.positionPrevious c)
        + (Card.x (Card.position c) - Card.x (Card.positionPrevious c)) * time)
       (Card.y (Card.positionPrevious c)
        + (Card.y (Card.position c) - Card.y (Card.positionPrevious c)) * time)].
Proof.
  intros H. cbv zeta. split; [reflexivity|]. split.
  - unfold Card.render, Card.updatePosition.
    cbn [Card.set_transform Card.element_transform].
    destruct (Req_dec_T (Card.angle c) 0); [contradiction|].
    repeat f_equal; ring.
  - unfold Card.render, Card.updatePosition, Card.rotate_towards.
    cbn [Card.position Card.positionPrevious Card.set_angles Card.angle Card.anglePrevious
         Card.set_transform Card.element_transform].
    destruct (Req_dec_T (Card.angle c + (0 - Card.angle c) * 1) 0) as [_|N];
      [reflexivity|]. exfalso. apply N. ring.
Qed.

Lemma rotation_dropped_at_angle_zero_witness :
  Card.element_transform
    (Card.render 0.5 (Card.rotate_towards 0 1
       (Card.create (Card.MkFishBody (Card.MkPattern None 0 []) false) (Card.MkVector2 0 0) 1)))
  = [Card.translate (0 + (0 - 0) * 0.5) (0 + (0 - 0) * 0.5)].
Proof.
  refine (proj2 (proj2 (rotation_dropped_at_angle_zero 0.5
    (Card.create (Card.MkFishBody (Card.MkPattern None 0 []) false) (Card.MkVector2 0 0) 1) _))).
  cbn. lra.
Defined.

(** ** The card's life cycle *)

Lemma placement_frame (c : Card.call) (W : Card.World) :
  placement c = true ->
  Card.body (Card.card (Card.exec c W)) = Card.body (Card.card W) /\
  Card.name (Card.card (Card.exec c W)) = Card.name (Card.card W) /\
  Card.previewURL (Card.card (Card.exec c W)) = Card.previewURL (Card.card W) /\
  Card.previewAnimation_backgroundImage (Card.card (Card.exec c W))
  = Card.previewAnimation_backgroundImage (Card.card W) /\
  Card.initialized (Card.card (Card.exec c W)) = Card.initialized (Card.card W) /\
  Card.effects (Card.exec c W) = Card.effects W.
Proof. destruct c; intros H; try discriminate H; repeat split. Qed.

Lemma run_placement_frame (calls : list Card.call) (W : Card.World) :
  forallb placement calls = true ->
  Card.body (Card.card (Card.run calls W)) = Card.body (Card.card W) /\
  Card.name (Card.card (Card.run calls W)) = Card.name (Card.card W) /\
  Card.previewURL (Card.card (Card.run calls W)) = Card.previewURL (Card.card W) /\
  Card.previewAnimation_backgroundImage (Card.card (Card.run calls W))
  = Card.previewAnimation_backgroundImage (Card.card W) /\
  Card.initialized (Card.card (Card.run calls W)) = Card.initialized (Card.card W) /\
  Card.effects (Card.run calls W) = Card.effects W.
Proof.
  revert W. induction calls as [|c rest IH]; intros W H; [repeat split|].
  cbn [forallb] in H. apply andb_prop in H as [Hc Hrest].
  cbn [Card.run fold_left]. specialize (IH (Card.exec c W) Hrest).
  unfold Card.run in IH.
  destruct (placement_frame c W Hc) as (E1 & E2 & E3 & E4 & E5 & E6).
  rewrite <- E1, <- E2, <- E3, <- E4, <- E5, <- E6. exact IH.
Qed.

(** X18.  The calls that place the card ([render], [moveTo], [move],
    [rotate], [setPosition], [setRotation], [transformSlot], and
    [serialize]) leave the body, the name, the preview URL and image, and
    the initialized flag as they are, and call no collaborator. *)
Theorem placement_keeps_the_rest (calls : list Card.call) (W : Card.World) :
  forallb placement calls = true ->
  Card.body (Card.card (Card.run calls W)) = Card.body (Card.card W) /\
  Card.name (Card.card (Card.run calls W)) = Card.name (Card.card W) /\
  Card.previewURL (Card.card (Card.run calls W)) = Card.previewURL (Card.card W) /\
  Card.previewAnimation_backgroundImage (Card.card (Card.run calls W))
  = Card.previewAnimation_backgroundImage (Card.card W) /\
  Card.initialized (Card.card (Card.run calls W)) = Card.initialized (Card.card W) /\
  Card.effects (Card.run calls W) = Card.effects W.
Proof. apply run_placement_frame. Qed.

Lemma placement_keeps_the_rest_witness :
  Card.name (Card.card (Card.run [Card.MoveTo 1 2; Card.Rotate 1 0.5; Card.Render 0.5]
                                 (Card.exec Card.first_call Card.fresh)))
  = Card.name (Card.card (Card.exec Card.first_call Card.fresh)).
Proof.
  exact (proj1 (proj2 (placement_keeps_the_rest
           [Card.MoveTo 1 2; Card.Rotate 1 0.5; Card.Render 0.5]
           (Card.exec Card.first_call Card.fresh) eq_refl))).
Defined.

(** X19.  A preview blob that arrives after [free] is dropped: with only
    placement calls since the [free], the callback changes nothing. *)
Theorem blob_after_free_is_dropped (u : Card.URL) (calls : list Card.call) (W : Card.World) :
  forallb placement calls = true ->
  let W' := Card.run calls (Card.free W) in
  Card.blob_ready u W' = W'.
Proof.
  intros H W'. unfold Card.blob_ready.
  destruct (run_placement_frame calls (Card.free W) H) as (_ & _ & _ & _ & E & _).
  fold W' in E. rewrite E. reflexivity.
Qed.

Lemma blob_after_free_is_dropped_witness :
  let W' := Card.run [Card.Render 1] (Card.free (Card.exec Card.first_call Card.fresh)) in
  Card.blob_ready 7%positive W' = W'.
Proof.
  exact (blob_after_free_is_dropped 7%positive [Card.Render 1]
           (Card.exec Card.first_call Card.fresh) eq_refl).
Defined.

(** X20.  [free] revokes the preview URL if there is one and makes no
    other call; it does not forget the URL or the preview image, so a
    second [free] revokes the same URL again. *)
Theorem free_revokes_the_url_it_keeps (W : Card.World) :
  Card.previewURL (Card.card (Card.free W)) = Card.previewURL (Card.card W) /\
  Card.previewAnimation_backgroundImage (Card.card (Card.free W))
  = Card.previewAnimation_backgroundImage (Card.card W) /\
  (Card.previewURL (Card.card W) = None -> Card.effects (Card.free W) = Card.effects W) /\
  (forall u, Card.previewURL (Card.card W) = Some u ->
     Card.effects (Card.free W) = Card.effects W ++ [Card.RevokeObjectURL u] /\
     Card.effects (Card.free (Card.free W))
     = Card.effects W ++ [Card.RevokeObjectURL u; Card.RevokeObjectURL u]).
Proof.
  split; [reflexivity|]. split; [reflexivity|]. split.
  - intros E. unfold Card.free. rewrite E. apply app_nil_r.
  - intros u E. unfold Card.free.
    cbn [Card.card Card.effects Card.set_initialized Card.previewURL].
    rewrite E. split; [reflexivity|]. rewrite <- app_assoc. reflexivity.
Qed.

(** X21.  While the card is initialized, a second preview blob replaces
    the URL of the first without revoking it: the two [createObjectURL]
    calls are the only calls made, and a later [free] revokes the second
    URL only, so the first URL is never revoked. *)
Theorem second_blob_replaces_without_revoke (u v : Card.URL) (W : Card.World) :
  Card.initialized (Card.card W) = true ->
  let W' := Card.blob_ready v (Card.blob_ready u W) in
  Card.previewURL (Card.card W') = Some v /\
  Card.effects W' = Card.effects W ++ [Card.CreateObjectURL u; Card.CreateObjectURL v] /\
  Card.effects (Card.free W')
  = Card.effects W
    ++ [Card.CreateObjectURL u; Card.CreateObjectURL v; Card.RevokeObjectURL v] /\
  (u <> v ->
   ~ In (Card.RevokeObjectURL u)
        [Card.CreateObjectURL u; Card.CreateObjectURL v; Card.RevokeObjectURL v]).
Proof.
  intros H. cbv zeta. unfold Card.blob_ready. rewrite H.
  cbn [Card.card Card.set_preview Card.initialized Card.effects]. rewrite H.
  cbn [Card.card Card.set_preview Card.effects Card.free Card.previewURL
       Card.set_initialized].
  split; [reflexivity|]. split; [rewrite <- app_assoc; reflexivity|].
  split; [rewrite <- !app_assoc; reflexivity|].
  intros Huv [E|[E|[E|[]]]]; try discriminate E. injection E as E. congruence.
Qed.

Lemma second_blob_replaces_without_revoke_witness :
  let W0 := Card.exec Card.first_call Card.fresh in
  let W' := Card.blob_ready 8%positive (Card.blob_ready 7%positive W0) in
  Card.previewURL (Card.card W') = Some 8%positive /\
  Card.effects W'
  = Card.effects W0 ++ [Card.CreateObjectURL 7%positive; Card.CreateObjectURL 8%positive] /\
  Card.effects (Card.free W')
  = Card.effects W0
    ++ [Card.CreateObjectURL 7%positive; Card.CreateObjectURL 8%positive;
        Card.RevokeObjectURL 8%positive].
Proof.
  destruct (second_blob_replaces_without_revoke 7%positive 8%positive
              (Card.exec Card.first_call Card.fresh) eq_refl) as (H1 & H2 & H3 & _).
  exact (conj H1 (conj H2 H3)).
Defined.

(** ** [Card.initialize] and the atlas *)

(** X22.  [initialize] on a card that is not initialized leaves the atlas
    region of the pattern as it was and appends one name, made from the base
    and the layers of the pattern.  A pattern without region gets the spine
    initialized and is written to the atlas, the preview is rendered from
    the body with the written region, and that region is returned to the
    atlas; a pattern with a region is only rendered. *)
Theorem initialize_borrows_a_region (preview : Card.Preview) (atlas : Card.Atlas)
    (bodies : Card.Bodies) (palettes : Card.Palettes)
    (randomSource : option Card.RandomSource) (W : Card.World) :
  Card.initialized (Card.card W) = false ->
  let W' := Card.initialize preview atlas bodies palettes randomSource W in
  let p := Card.pattern (Card.body (Card.card W)) in
  Card.region (Card.pattern (Card.body (Card.card W'))) = Card.region p /\
  Card.name (Card.card W')
  = Card.name (Card.card W) ++ [Card.makeName palettes (Card.base p) (Card.layers p)] /\
  match Card.region p with
  | None =>
      exists b,
        Card.region (Card.pattern b) = Some (Card.write atlas p) /\
        Card.effects W'
        = Card.effects W ++
          [Card.InitializeSpine; Card.AtlasWrite p randomSource;
           Card.PreviewRender preview b bodies;
           Card.AtlasReturnRegion (Some (Card.write atlas p))]
  | Some _ =>
      Card.effects W'
      = Card.effects W ++ [Card.PreviewRender preview (Card.body (Card.card W)) bodies]
  end.
Proof.
  intros H. cbv zeta. unfold Card.initialize. rewrite H.
  cbn [Card.card Card.effects Card.set_initialized Card.body Card.setName Card.set_body
       Card.name].
  destruct (Card.region (Card.pattern (Card.body (Card.card W)))) as [r|] eqn:E.
  - rewrite E. repeat split.
  - repeat split. eexists. split; [|reflexivity]. reflexivity.
Qed.

Lemma initialize_borrows_a_region_witness :
  Card.region (Card.pattern (Card.body (Card.card (Card.exec Card.first_call Card.fresh))))
  = None.
Proof.
  exact (proj1 (initialize_borrows_a_region 1%positive Card.atlas_1 1%positive
                  Card.palettes_koi None Card.fresh eq_refl)).
Defined.

Lemma show_and_hide_initialized preview atlas bodies palettes randomSource W :
  Card.initialized (Card.card (show_and_hide preview atlas bodies palettes randomSource W))
  = false.
Proof. reflexivity. Qed.

Lemma initialize_name_length preview atlas bodies palettes randomSource W :
  Card.initialized (Card.card W) = false ->
  List.length (Card.name (Card.card
     (Card.initialize preview atlas bodies palettes randomSource W)))
  = S (List.length (Card.name (Card.card W))).
Proof.
  intros H. unfold Card.initialize. rewrite H.
  cbn [Card.card Card.setName Card.name Card.set_body Card.set_initialized].
  rewrite length_app. cbn. lia.
Qed.

(** X23.  Every [initialize] that follows a [free] appends another name
    heading: after [n] rounds of [initialize] and [free] on a card that was
    not initialized, the name element holds [n] more headings. *)
Theorem every_show_adds_a_name (preview : Card.Preview) (atlas : Card.Atlas)
    (bodies : Card.Bodies) (palettes : Card.Palettes)
    (randomSource : option Card.RandomSource) (n : nat) (W : Card.World) :
  Card.initialized (Card.card W) = false ->
  List.length (Card.name (Card.card
     (Nat.iter n (show_and_hide preview atlas bodies palettes randomSource) W)))
  = (List.length (Card.name (Card.card W)) + n)%nat.
Proof.
  intros H. induction n as [|n IH]; [cbn; lia|].
  rewrite Nat.iter_succ. unfold show_and_hide at 1.
  cbn [Card.free Card.card Card.set_initialized Card.name].
  rewrite initialize_name_length.
  - rewrite IH. lia.
  - destruct n; [exact H|]. rewrite Nat.iter_succ. apply show_and_hide_initialized.
Qed.

Lemma every_show_adds_a_name_witness :
  List.length (Card.name (Card.card
     (Nat.iter 3 (show_and_hide 1%positive Card.atlas_1 1%positive Card.palettes_koi None)
               Card.fresh)))
  = (List.length (Card.name (Card.card Card.fresh)) + 3)%nat.
Proof.
  exact (every_show_adds_a_name 1%positive Card.atlas_1 1%positive Card.palettes_koi None 3
           Card.fresh eq_refl).
Defined.
